(** * ScoreClusteredDNADamage: the clustered DNA damage scorer

    A shallow embedding of the scorer class [ScoreClusteredDNADamage]
    (energy accumulation per nucleotide, extraction of simple damage,
    pairing of strand breaks into DSBs, merge of the damage lists and
    clustering), followed by the properties of its specification.

    Conventions of the embedding.
    - [G4int] is a 32-bit [int], modelled as [Z].  The differences of
      base pair indices that [RecordDSB1D] and [RecordClusteredDamage]
      compute wrap around as the machine's do ([G4int_sub], [G4int_abs]);
      the statements that need exact differences say so in a hypothesis
      ([G4int_half]).  Tallies and counters are counts of damages and
      stay in [Z].  Integer division [/] truncates: [Z.quot].
    - [G4double] is the binary64 type [float]; [a >= b] is [PrimFloat.leb b a].
    - [std::map<G4int,V>] is a list of bindings in ascending key order
      ([StdMap.t V]): [begin()] is the head, [erase(begin())] the tail.
    - [std::vector<T>] is [list T]; an iterator is the suffix it points at.
    - [exit(0)] is the result [None]. *)

From Stdlib Require Import ZArith List Bool Lia Sorted Permutation String Floats.
Import ListNotations.
Local Open Scope Z_scope.
Set Warnings "-inexact-float".

(** ** Ordered maps with integer keys *)

Module StdMap.
Section WithValue.
Context {V : Type}.

Definition t : Type := list (Z * V).

Definition empty (m : t) : bool :=
  match m with
  | [] => true
  | _ :: _ => false
  end.

Fixpoint find (k : Z) (m : t) : option V :=
  match m with
  | [] => None
  | (k', v) :: m' => if k =? k' then Some v else find k m'
  end.

Fixpoint insert (k : Z) (v : V) (m : t) : t :=
  match m with
  | [] => [(k, v)]
  | (k', v') :: m' =>
      if k <? k' then (k, v) :: m
      else if k =? k' then (k, v) :: m'
      else (k', v') :: insert k v m'
  end.

(** [m[k]] read after the access: the mapped value, or the
    value-initialised [dflt] that the access has just inserted. *)
Definition get (dflt : V) (k : Z) (m : t) : V :=
  match find k m with
  | Some v => v
  | None => dflt
  end.

(** [m[k]] used as an lvalue: the binding of [k] (created with [dflt]
    when missing) is replaced by [f] of its value. *)
Definition modify (dflt : V) (k : Z) (f : V -> V) (m : t) : t :=
  insert k (f (get dflt k m)) m.

(** [m[k]] evaluated for its side effect alone: a missing key is
    inserted with [dflt], a present one leaves the map as it is. *)
Definition touch (dflt : V) (k : Z) (m : t) : t :=
  match find k m with
  | Some _ => m
  | None => insert k dflt m
  end.

Definition keys (m : t) : list Z := map fst m.

(** The representation invariant: keys strictly ascending. *)
Definition wf (m : t) : Prop := StronglySorted Z.lt (keys m).
End WithValue.
Arguments t : clear implicits.
End StdMap.

(** bp index -> energy; split index -> bp index -> energy; and
    fibre -> split index -> bp index -> energy. *)
Definition Map1 : Type := StdMap.t float.
Definition Map2 : Type := StdMap.t Map1.
Definition Map3 : Type := StdMap.t Map2.

(** ** 32-bit integers *)

(** The value of a [G4int] expression whose mathematical value is [z]:
    two's complement wrap-around into [-2^31, 2^31). *)
Definition G4int_wrap (z : Z) : Z :=
  (z + 2147483648) mod 4294967296 - 2147483648.

(** [a - b] and [abs(a)] on [G4int]. *)
Definition G4int_sub (a b : Z) : Z := G4int_wrap (a - b).

Definition G4int_abs (a : Z) : Z := G4int_wrap (Z.abs a).

(** Indices of less than [2^30] in absolute value: the difference of two
    of them, and the size [end - start + 1] of a stretch between them,
    do not overflow. *)
Definition G4int_half (z : Z) : Prop := Z.abs z < 1073741824.

Arguments G4int_wrap : simpl never.
Arguments G4int_sub : simpl never.
Arguments G4int_abs : simpl never.

(** ** Simple damage extraction *)

(** The [while] loop of [RecordSimpleDamage] on the inner map
    [mapEDep[0]]: each round reads the first binding, keeps its key when
    the energy reaches the threshold, and erases it.  The result is the
    vector built and the inner map when the loop stops. *)
Fixpoint RecordSimpleDamage_loop (ThreshEDep : float) (inner : Map1)
    (indicesDamage : list Z) : list Z * Map1 :=
  match inner with
  | [] => (indicesDamage, inner)
  | (indexBP, eDep) :: rest =>
      RecordSimpleDamage_loop ThreshEDep rest
        (if PrimFloat.leb ThreshEDep eDep
         then indicesDamage ++ [indexBP]
         else indicesDamage)
  end.

(** The body of [RecordSimpleDamage] on its parameter [mapEDep], which
    is the function's own copy of the argument: the vector returned and
    the copy when the function returns. *)
Definition RecordSimpleDamage_body (ThreshEDep : float) (mapEDep : Map2)
    : list Z * Map2 :=
  let mapEDep0 := StdMap.touch [] 0 mapEDep in
  let '(indicesDamage, inner) :=
    RecordSimpleDamage_loop ThreshEDep (StdMap.get [] 0 mapEDep0) [] in
  (indicesDamage, StdMap.insert 0 inner mapEDep0).

Definition RecordSimpleDamage (ThreshEDep : float) (mapEDep : Map2) : list Z :=
  fst (RecordSimpleDamage_body ThreshEDep mapEDep).

(** A call [v = RecordSimpleDamage(t, m)] seen from the caller: the
    parameter is passed by value, so the caller's [m] is what it was. *)
Definition call_RecordSimpleDamage (ThreshEDep : float) (m : Map2)
    : list Z * Map2 :=
  (RecordSimpleDamage ThreshEDep m, m).

(** ** DSB pairing *)

(** [RecordDSB1D] on the vectors [fIndicesSSB1] and [fIndicesSSB2], the
    iterators [site1] and [site2] being the suffixes [l1] and [l2].  The
    result is the DSB vector and what is left of the two SSB vectors
    from the iterators on; a paired site is erased from its vector, a
    site stepped over stays. *)
Fixpoint RecordDSB1D_from (fThresDistForDSB : Z) (l1 : list Z)
    : list Z -> list Z * list Z * list Z :=
  match l1 with
  | [] => fun l2 => ([], [], l2)
  | s1 :: l1' =>
      fix site2_loop (l2 : list Z) : list Z * list Z * list Z :=
        match l2 with
        | [] => ([], l1, [])
        | s2 :: l2' =>
            let siteDiff := G4int_sub s2 s1 in
            if G4int_abs siteDiff <=? fThresDistForDSB then
              let '(dsb, r1, r2) := RecordDSB1D_from fThresDistForDSB l1' l2' in
              ((if s1 <=? s2 then [s1; s2] else [s2; s1]) ++ dsb, r1, r2)
            else if siteDiff <? 0 then
              let '(dsb, r1, r2) := site2_loop l2' in
              (dsb, r1, s2 :: r2)
            else
              let '(dsb, r1, r2) := RecordDSB1D_from fThresDistForDSB l1' l2 in
              (dsb, s1 :: r1, r2)
        end
  end.

(** [RecordDSB1D()]: the vector returned, then [fIndicesSSB1] and
    [fIndicesSSB2] as the call leaves them. *)
Definition RecordDSB1D (fThresDistForDSB : Z) (fIndicesSSB1 fIndicesSSB2 : list Z)
    : list Z * list Z * list Z :=
  RecordDSB1D_from fThresDistForDSB fIndicesSSB1 fIndicesSSB2.

(** ** Damage types *)

(** The integer labels [fIdSSB], [fIdBD] and [fIdDSB] are constants of
    the class declaration, which is not among the sources; they are
    taken as a parameter of the functions that read them. *)
Record DamageIds : Type := mkDamageIds {
  fIdSSB : Z;
  fIdBD : Z;
  fIdDSB : Z
}.

Definition distinct_ids (ids : DamageIds) : Prop :=
  fIdSSB ids <> fIdBD ids /\ fIdSSB ids <> fIdDSB ids /\ fIdBD ids <> fIdDSB ids.

(** A choice of pairwise distinct labels, used in examples. *)
Definition ids012 : DamageIds := mkDamageIds 0 1 2.

(** ** Merging the damage vectors *)

Definition tag_sites (damageType : Z) (sites : list Z) : list (Z * Z) :=
  map (fun site => (site, damageType)) sites.

(** One merge loop of [CombineSimpleDamage] with the [push_back] loop
    that follows it.  [src] is the source vector from its iterator on,
    [rest] is [indicesSimple] from [itSimple] on; the elements before
    [itSimple] are not touched again and are emitted.  [insert] leaves
    [itSimple] on the inserted element, so [rest] grows by one when a
    site is inserted.  Each round consumes one unit of [fuel]. *)
Fixpoint merge_loop (fuel : nat) (damageType : Z) (src : list Z)
    (rest : list (Z * Z)) : list (Z * Z) :=
  match fuel with
  | O => rest ++ tag_sites damageType src
  | S fuel' =>
      match src, rest with
      | [], _ => rest
      | _ :: _, [] => tag_sites damageType src
      | site :: src', cur :: rest' =>
          if site <? fst cur
          then merge_loop fuel' damageType src' ((site, damageType) :: rest)
          else cur :: merge_loop fuel' damageType src rest'
      end
  end.

(** Rounds are bounded: an insertion shortens [src] by one and lengthens
    [rest] by one, a step shortens [rest] by one. *)
Definition merge_fuel (src : list Z) (rest : list (Z * Z)) : nat :=
  (2 * List.length src + List.length rest)%nat.

Definition merge_damage (damageType : Z) (src : list Z)
    (indicesSimple : list (Z * Z)) : list (Z * Z) :=
  merge_loop (merge_fuel src indicesSimple) damageType src indicesSimple.

Definition CombineSimpleDamage (ids : DamageIds)
    (fIndicesSSB1 fIndicesBD1 fIndicesSSB2 fIndicesBD2 fIndicesDSB1D : list Z)
    : list (Z * Z) :=
  let indicesSimple := tag_sites (fIdSSB ids) fIndicesSSB1 in
  let indicesSimple := merge_damage (fIdBD ids) fIndicesBD1 indicesSimple in
  let indicesSimple := merge_damage (fIdSSB ids) fIndicesSSB2 indicesSimple in
  let indicesSimple := merge_damage (fIdBD ids) fIndicesBD2 indicesSimple in
  merge_damage (fIdDSB ids) fIndicesDSB1D indicesSimple.

(** ** Clusters, tallies and the cluster records *)

Record DamageCluster : Type := mkDamageCluster {
  numSSB : Z;
  numBD : Z;
  numDSB : Z;
  start : Z;
  end_ : Z;
  size : Z
}.

(** The constructor [DamageCluster()]. *)
Definition DamageCluster_new : DamageCluster := mkDamageCluster 0 0 0 0 0 0.

Record Tallies : Type := mkTallies {
  fTotalSSB : Z;
  fTotalBD : Z;
  fTotalDSB : Z;
  fTotalComplexDSB : Z;
  fTotalNonDSBCluster : Z
}.

Record ClusterLog : Type := mkClusterLog {
  fComplexDSBSizes : list Z;
  fComplexDSBNumSSB : list Z;
  fComplexDSBNumBD : list Z;
  fComplexDSBNumDSB : list Z;
  fComplexDSBNumDamage : list Z;
  fNonDSBClusterSizes : list Z;
  fNonDSBClusterNumSSB : list Z;
  fNonDSBClusterNumBD : list Z;
  fNonDSBClusterNumDamage : list Z
}.

Definition ClusterLog_empty : ClusterLog :=
  mkClusterLog [] [] [] [] [] [] [] [] [].

Definition set_fTotalDSB (v : Z) (T : Tallies) : Tallies :=
  mkTallies (fTotalSSB T) (fTotalBD T) v (fTotalComplexDSB T)
    (fTotalNonDSBCluster T).

(** [AddDamageToCluster]: [None] is the [exit(0)] of the last branch. *)
Definition AddDamageToCluster (ids : DamageIds) (cluster : DamageCluster)
    (damageSite damageType : Z) (newCluster : bool) (T : Tallies)
    : option (DamageCluster * Tallies) :=
  let cluster :=
    if newCluster
    then mkDamageCluster (numSSB cluster) (numBD cluster) (numDSB cluster)
           damageSite (end_ cluster) (size cluster)
    else mkDamageCluster (numSSB cluster) (numBD cluster) (numDSB cluster)
           (start cluster) damageSite (size cluster) in
  if damageType =? fIdSSB ids then
    Some (mkDamageCluster (numSSB cluster + 1) (numBD cluster) (numDSB cluster)
            (start cluster) (end_ cluster) (size cluster),
          mkTallies (fTotalSSB T - 1) (fTotalBD T) (fTotalDSB T)
            (fTotalComplexDSB T) (fTotalNonDSBCluster T))
  else if damageType =? fIdBD ids then
    Some (mkDamageCluster (numSSB cluster) (numBD cluster + 1) (numDSB cluster)
            (start cluster) (end_ cluster) (size cluster),
          mkTallies (fTotalSSB T) (fTotalBD T - 1) (fTotalDSB T)
            (fTotalComplexDSB T) (fTotalNonDSBCluster T))
  else if damageType =? fIdDSB ids then
    Some (mkDamageCluster (numSSB cluster) (numBD cluster) (numDSB cluster + 1)
            (start cluster) (end_ cluster) (size cluster),
          mkTallies (fTotalSSB T) (fTotalBD T) (fTotalDSB T - 1)
            (fTotalComplexDSB T) (fTotalNonDSBCluster T))
  else None.

(** [RecordCluster]: the cluster after the call (reset), the tallies and
    the cluster records. *)
Definition RecordCluster (cluster : DamageCluster) (T : Tallies) (L : ClusterLog)
    : DamageCluster * Tallies * ClusterLog :=
  if 0 <? numDSB cluster then
    let numDSB' := Z.quot (numDSB cluster) 2 in
    (DamageCluster_new,
     mkTallies (fTotalSSB T) (fTotalBD T) (fTotalDSB T)
       (fTotalComplexDSB T + 1) (fTotalNonDSBCluster T),
     mkClusterLog
       (fComplexDSBSizes L ++ [end_ cluster - start cluster + 1])
       (fComplexDSBNumSSB L ++ [numSSB cluster])
       (fComplexDSBNumBD L ++ [numBD cluster])
       (fComplexDSBNumDSB L ++ [numDSB'])
       (fComplexDSBNumDamage L ++ [numSSB cluster + numBD cluster + numDSB'])
       (fNonDSBClusterSizes L) (fNonDSBClusterNumSSB L)
       (fNonDSBClusterNumBD L) (fNonDSBClusterNumDamage L))
  else
    (DamageCluster_new,
     mkTallies (fTotalSSB T) (fTotalBD T) (fTotalDSB T)
       (fTotalComplexDSB T) (fTotalNonDSBCluster T + 1),
     mkClusterLog
       (fComplexDSBSizes L) (fComplexDSBNumSSB L) (fComplexDSBNumBD L)
       (fComplexDSBNumDSB L) (fComplexDSBNumDamage L)
       (fNonDSBClusterSizes L ++ [end_ cluster - start cluster + 1])
       (fNonDSBClusterNumSSB L ++ [numSSB cluster])
       (fNonDSBClusterNumBD L ++ [numBD cluster])
       (fNonDSBClusterNumDamage L ++ [numSSB cluster + numBD cluster])).

(** The variables of the scan of [RecordClusteredDamage]. *)
Record Scan : Type := mkScan {
  cluster : DamageCluster;
  newCluster : bool;
  buildingCluster : bool;
  scanT : Tallies;
  scanL : ClusterLog
}.

(** The [while] loop of [RecordClusteredDamage]: [sitePrev] is
    [*(site-1)] and [sites] is the vector from [site] on. *)
Fixpoint RecordClusteredDamage_loop (ids : DamageIds) (fThresDistForCluster : Z)
    (sitePrev : Z * Z) (sites : list (Z * Z)) (s : Scan) : option Scan :=
  match sites with
  | [] => Some s
  | siteCur :: sites' =>
      let next :=
        if G4int_sub (fst siteCur) (fst sitePrev) <=? fThresDistForCluster then
          let opened :=
            if newCluster s then
              match AddDamageToCluster ids (cluster s) (fst sitePrev)
                      (snd sitePrev) (newCluster s) (scanT s) with
              | Some (c, T) => Some (mkScan c false true T (scanL s))
              | None => None
              end
            else Some s in
          match opened with
          | Some s1 =>
              match AddDamageToCluster ids (cluster s1) (fst siteCur)
                      (snd siteCur) (newCluster s1) (scanT s1) with
              | Some (c, T) =>
                  Some (mkScan c (newCluster s1) (buildingCluster s1) T (scanL s1))
              | None => None
              end
          | None => None
          end
        else if buildingCluster s then
          let '(c, T, L) := RecordCluster (cluster s) (scanT s) (scanL s) in
          Some (mkScan c true false T L)
        else Some s in
      match next with
      | Some s' => RecordClusteredDamage_loop ids fThresDistForCluster siteCur sites' s'
      | None => None
      end
  end.

(** The scan with what follows it up to, and without, the final
    division of [fTotalDSB]; [None] when the vector has fewer than two
    elements and the function returns at once. *)
Definition RecordClusteredDamage_scan (ids : DamageIds) (fThresDistForCluster : Z)
    (fIndicesSimple : list (Z * Z)) (T : Tallies) (L : ClusterLog)
    : option (option (Tallies * ClusterLog)) :=
  match fIndicesSimple with
  | [] | [_] => None
  | first :: sites =>
      Some
        match RecordClusteredDamage_loop ids fThresDistForCluster first sites
                (mkScan DamageCluster_new true false T L) with
        | None => None
        | Some s =>
            if buildingCluster s then
              let '(_, T', L') := RecordCluster (cluster s) (scanT s) (scanL s) in
              Some (T', L')
            else Some (scanT s, scanL s)
        end
  end.

(** [RecordClusteredDamage()] on [fIndicesSimple], the tallies and the
    cluster records; [None] is [exit(0)]. *)
Definition RecordClusteredDamage (ids : DamageIds) (fThresDistForCluster : Z)
    (fIndicesSimple : list (Z * Z)) (T : Tallies) (L : ClusterLog)
    : option (Tallies * ClusterLog) :=
  match RecordClusteredDamage_scan ids fThresDistForCluster fIndicesSimple T L with
  | None => Some (T, L)
  | Some None => None
  | Some (Some (T', L')) => Some (set_fTotalDSB (Z.quot (fTotalDSB T') 2) T', L')
  end.

(** ** The scorer object *)

(** The thresholds and the number of split copies, set by the
    constructor and read-only afterwards. *)
Record Params : Type := mkParams {
  fThresDistForDSB : Z;
  fThresEdepForSSB : float;
  fThresEdepForBD : float;
  fThresDistForCluster : Z;
  fNbOfAlgo : Z
}.

Record EdepMaps : Type := mkEdepMaps {
  fGenVEdepStrand1Backbone : Map3;
  fGenVEdepStrand2Backbone : Map3;
  fGenVEdepStrand1Base : Map3;
  fGenVEdepStrand2Base : Map3;
  fVEdepStrand1Backbone : Map2;
  fVEdepStrand2Backbone : Map2;
  fVEdepStrand1Base : Map2;
  fVEdepStrand2Base : Map2
}.

Definition EdepMaps_empty : EdepMaps := mkEdepMaps [] [] [] [] [] [] [] [].

Record Indices : Type := mkIndices {
  fIndicesSSB1 : list Z;
  fIndicesSSB2 : list Z;
  fIndicesBD1 : list Z;
  fIndicesBD2 : list Z;
  fIndicesDSB1D : list Z;
  fIndicesSimple : list (Z * Z)
}.

(** A row of the ntuple, in the order the columns are registered. *)
Record Row : Type := mkRow {
  rowEventID : Z;
  rowSSB : Z;
  rowDSB : Z;
  rowBD : Z;
  rowComplexDSB : Z;
  rowNonDSBCluster : Z
}.

(** The scorer object.  [fSkippedWhileInactive] is a counter of the base
    class, which starts at 0. *)
Record Scorer : Type := mkScorer {
  params : Params;
  edep : EdepMaps;
  indices : Indices;
  tallies : Tallies;
  clusterLog : ClusterLog;
  fEventID : Z;
  fDNAParent : Z;
  fNtuple : list Row;
  fSkippedWhileInactive : Z
}.

(** ** The constructor *)

(** The parameter manager [fPm] belongs to the simulation toolkit; a
    parameter file is modelled as a list of named values, energies in
    internal units.  Reading a parameter that does not exist ends the
    run: [None].  Names stand for [GetFullParmName(name)]. *)
Inductive ParamValue : Type :=
| IntegerValue (z : Z)
| DoubleValue (d : float).

Definition ParameterManager : Type := list (string * ParamValue).

Fixpoint lookup_param (name : string) (fPm : ParameterManager) : option ParamValue :=
  match fPm with
  | [] => None
  | (n, v) :: fPm' => if String.eqb name n then Some v else lookup_param name fPm'
  end.

Definition ParameterExists (fPm : ParameterManager) (name : string) : bool :=
  match lookup_param name fPm with
  | Some _ => true
  | None => false
  end.

Definition GetIntegerParameter (fPm : ParameterManager) (name : string) : option Z :=
  match lookup_param name fPm with
  | Some (IntegerValue z) => Some z
  | _ => None
  end.

Definition GetDoubleParameter (fPm : ParameterManager) (name : string) : option float :=
  match lookup_param name fPm with
  | Some (DoubleValue d) => Some d
  | _ => None
  end.

(** The unit [eV] of the system of units (MeV is 1). *)
Definition eV : float := 1e-6%float.

Definition bind {A B : Type} (x : option A) (f : A -> option B) : option B :=
  match x with
  | Some a => f a
  | None => None
  end.

Notation "x <- c1 ;; c2" := (bind c1 (fun x => c2))
  (at level 61, c1 at next level, right associativity).

(** [if (fPm->ParameterExists(name)) var = get(fPm, name');]: the new
    value of [var]. *)
Definition read_if_exists {A : Type} (fPm : ParameterManager) (name : string)
    (get : option A) (var : A) : option A :=
  if ParameterExists fPm name then get else Some var.

(** The constructor, for the members the scoring reads: defaults, then
    the parameters, in the order of the source.  The geometry parsing
    members and the column registration are left out.  The counter
    [fSkippedWhileInactive] is the base class's and starts at 0. *)
Definition ScoreClusteredDNADamage (fPm : ParameterManager) : option Scorer :=
  let fThresDistForDSB := 10 in
  let fThresEdepForSSB := (17.5 * eV)%float in
  let fThresEdepForBD := (17.5 * eV)%float in
  let fThresDistForCluster := 40 in
  let fNbOfAlgo := 1 in
  fThresDistForDSB <-
    read_if_exists fPm "BasePairDistanceForDefiningDSB"
      (GetIntegerParameter fPm "BasePairDistanceForDefiningDSB") fThresDistForDSB ;;
  fThresEdepForSSB <-
    read_if_exists fPm "EnergyThresholdForHavingSSB"
      (GetDoubleParameter fPm "EnergyThresholdForHavingSSB") fThresEdepForSSB ;;
  fThresEdepForSSB <-
    read_if_exists fPm "EnergyThresholdForHavingBD"
      (GetDoubleParameter fPm "EnergyThresholdToInduceBD") fThresEdepForSSB ;;
  fNbOfAlgo <-
    read_if_exists fPm "NumberOfSplit"
      (GetIntegerParameter fPm "NumberOfSplit") fNbOfAlgo ;;
  Some (mkScorer
          (mkParams fThresDistForDSB fThresEdepForSSB fThresEdepForBD
             fThresDistForCluster fNbOfAlgo)
          EdepMaps_empty
          (mkIndices [] [] [] [] [] [])
          (mkTallies 0 0 0 0 0)
          ClusterLog_empty 0 0 [] 0).

(** ** Energy accumulation *)

(** What [ProcessHits] reads when a step arrives: the flag [fIsActive]
    of the scorer, a member of the base class that the framework sets
    between steps (gated scoring), and, of the step, the energy
    deposit, the copy number of the volume, the copy number of its
    parent (the fibre) and the split identifier of the track. *)
Record Hit : Type := mkHit {
  fIsActive : bool;
  edepHit : float;
  volID : Z;
  parentDepth : Z;
  splitTrackID : Z
}.

(** [m[parentDepth][i][num_nucleotide] += edep]. *)
Definition add_edep (parentDepth i num_nucleotide : Z) (e : float) (m : Map3) : Map3 :=
  StdMap.modify [] parentDepth
    (StdMap.modify [] i
       (StdMap.modify 0%float num_nucleotide (fun v => (v + e)%float))) m.

(** The values [0, 1, ..., n-1] of a counting [for] loop. *)
Definition upto (n : Z) : list Z := map Z.of_nat (seq 0 (Z.to_nat n)).

(** [ProcessHits]: the value returned and the maps.  A scorer that is
    not active returns at once. *)
Definition ProcessHits_maps (fNbOfAlgo : Z) (h : Hit) (m : EdepMaps) : bool * EdepMaps :=
  if negb (fIsActive h) then (false, m) else
  let e := edepHit h in
  if PrimFloat.ltb 0%float e then
    let num_strand := Z.quot (volID h) 1000000 in
    let num_res := Z.quot (volID h - num_strand * 1000000) 100000 in
    let num_nucleotide := volID h - num_strand * 1000000 - num_res * 100000 in
    if (num_strand =? 0) || (num_strand =? 1) then
      let index := if 1 <? fNbOfAlgo then splitTrackID h else 1 in
      let pd := parentDepth h in
      if 2 <? index then
        if num_strand =? 0 then
          (true,
           mkEdepMaps
             (add_edep pd (index - 3) num_nucleotide e (fGenVEdepStrand1Backbone m))
             (fGenVEdepStrand2Backbone m) (fGenVEdepStrand1Base m)
             (fGenVEdepStrand2Base m) (fVEdepStrand1Backbone m)
             (fVEdepStrand2Backbone m) (fVEdepStrand1Base m) (fVEdepStrand2Base m))
        else
          (true,
           mkEdepMaps
             (fGenVEdepStrand1Backbone m)
             (add_edep pd (index - 3) num_nucleotide e (fGenVEdepStrand2Backbone m))
             (fGenVEdepStrand1Base m)
             (fGenVEdepStrand2Base m) (fVEdepStrand1Backbone m)
             (fVEdepStrand2Backbone m) (fVEdepStrand1Base m) (fVEdepStrand2Base m))
      else
        (true,
         fold_left
           (fun (m : EdepMaps) (i : Z) =>
              if num_strand =? 0 then
                if (num_res =? 0) || (num_res =? 1) then
                  mkEdepMaps
                    (add_edep pd i num_nucleotide e (fGenVEdepStrand1Backbone m))
                    (fGenVEdepStrand2Backbone m) (fGenVEdepStrand1Base m)
                    (fGenVEdepStrand2Base m) (fVEdepStrand1Backbone m)
                    (fVEdepStrand2Backbone m) (fVEdepStrand1Base m)
                    (fVEdepStrand2Base m)
                else if num_res =? 2 then
                  mkEdepMaps
                    (fGenVEdepStrand1Backbone m) (fGenVEdepStrand2Backbone m)
                    (add_edep pd i num_nucleotide e (fGenVEdepStrand1Base m))
                    (fGenVEdepStrand2Base m) (fVEdepStrand1Backbone m)
                    (fVEdepStrand2Backbone m) (fVEdepStrand1Base m)
                    (fVEdepStrand2Base m)
                else m
              else
                if (num_res =? 0) || (num_res =? 1) then
                  mkEdepMaps
                    (fGenVEdepStrand1Backbone m)
                    (add_edep pd i num_nucleotide e (fGenVEdepStrand2Backbone m))
                    (fGenVEdepStrand1Base m)
                    (fGenVEdepStrand2Base m) (fVEdepStrand1Backbone m)
                    (fVEdepStrand2Backbone m) (fVEdepStrand1Base m)
                    (fVEdepStrand2Base m)
                else if num_res =? 2 then
                  mkEdepMaps
                    (fGenVEdepStrand1Backbone m) (fGenVEdepStrand2Backbone m)
                    (fGenVEdepStrand1Base m)
                    (add_edep pd i num_nucleotide e (fGenVEdepStrand2Base m))
                    (fVEdepStrand1Backbone m)
                    (fVEdepStrand2Backbone m) (fVEdepStrand1Base m)
                    (fVEdepStrand2Base m)
                else m)
           (upto fNbOfAlgo) m)
    else (false, m)
  else (false, m).

(** [ProcessHits] on the scorer: the maps, and the counter
    [fSkippedWhileInactive] of the steps that came while it was not
    active. *)
Definition ProcessHits (h : Hit) (s : Scorer) : bool * Scorer :=
  let '(b, m) := ProcessHits_maps (fNbOfAlgo (params s)) h (edep s) in
  (b, mkScorer (params s) m (indices s) (tallies s) (clusterLog s)
        (fEventID s) (fDNAParent s) (fNtuple s)
        (if fIsActive h then fSkippedWhileInactive s
         else fSkippedWhileInactive s + 1)).

(** ** End of event *)

Definition any_positive (T : Tallies) : bool :=
  (0 <? fTotalSSB T) || (0 <? fTotalBD T) || (0 <? fTotalDSB T)
  || (0 <? fTotalComplexDSB T) || (0 <? fTotalNonDSBCluster T).

(** [fNtuple->Fill()]: the registered columns as they are now. *)
Definition Fill (eventID : Z) (T : Tallies) (rows : list Row) : list Row :=
  rows ++ [mkRow eventID (fTotalSSB T) (fTotalDSB T) (fTotalBD T)
             (fTotalComplexDSB T) (fTotalNonDSBCluster T)].

Section EndOfEvent.
Variable ids : DamageIds.

(** The call [RecordClusteredDamage()] of the loop body, as a function
    of [fThresDistForCluster], [fIndicesSimple], the tallies and the
    cluster records. *)
Variable clustering :
  Z -> list (Z * Z) -> Tallies -> ClusterLog -> option (Tallies * ClusterLog).

(** The body of the loop over the split copies. *)
Definition split_pass_with (s : Scorer) : option Scorer :=
  let p := params s in
  let m := edep s in
  let ssb1 := RecordSimpleDamage (fThresEdepForSSB p) (fVEdepStrand1Backbone m) in
  let ssb2 := RecordSimpleDamage (fThresEdepForSSB p) (fVEdepStrand2Backbone m) in
  let bd1 := RecordSimpleDamage (fThresEdepForBD p) (fVEdepStrand1Base m) in
  let bd2 := RecordSimpleDamage (fThresEdepForBD p) (fVEdepStrand2Base m) in
  let '(dsb, ssb1, ssb2) := RecordDSB1D (fThresDistForDSB p) ssb1 ssb2 in
  let T := tallies s in
  let T :=
    mkTallies
      (fTotalSSB T + Z.of_nat (List.length ssb1 + List.length ssb2))
      (fTotalBD T + Z.of_nat (List.length bd1 + List.length bd2))
      (fTotalDSB T + Z.of_nat (List.length dsb))
      (fTotalComplexDSB T) (fTotalNonDSBCluster T) in
  let simple := CombineSimpleDamage ids ssb1 bd1 ssb2 bd2 dsb in
  TL <- clustering (fThresDistForCluster p) simple T (clusterLog s) ;;
  let '(T, L) := TL in
  Some (mkScorer p m (mkIndices ssb1 ssb2 bd1 bd2 dsb simple) T L
          (fEventID s) (fDNAParent s)
          (if any_positive T then Fill (fEventID s) T (fNtuple s)
           else fNtuple s)
          (fSkippedWhileInactive s)).

(** [for (int i = 0; i < fNbOfAlgo; i++)]: [n] rounds of the body. *)
Fixpoint split_loop_with (n : nat) (s : Scorer) : option Scorer :=
  match n with
  | O => Some s
  | S n' => s' <- split_pass_with s ;; split_loop_with n' s'
  end.

(** The body of the loop over the fibres, for the fibre [parentDepth]. *)
Definition fibre_pass_with (s : Scorer) (parentDepth : Z) : option Scorer :=
  let m := edep s in
  let gen1 := StdMap.touch [] parentDepth (fGenVEdepStrand1Backbone m) in
  let gen2 := StdMap.touch [] parentDepth (fGenVEdepStrand2Backbone m) in
  let gen1b := StdMap.touch [] parentDepth (fGenVEdepStrand1Base m) in
  let gen2b := StdMap.touch [] parentDepth (fGenVEdepStrand2Base m) in
  let m :=
    mkEdepMaps gen1 gen2 gen1b gen2b
      (StdMap.get [] parentDepth gen1) (StdMap.get [] parentDepth gen2)
      (StdMap.get [] parentDepth gen1b) (StdMap.get [] parentDepth gen2b) in
  let s :=
    mkScorer (params s) m (indices s) (tallies s) (clusterLog s)
      (fEventID s) parentDepth (fNtuple s) (fSkippedWhileInactive s) in
  s <- split_loop_with (Z.to_nat (fNbOfAlgo (params s))) s ;;
  let m := edep s in
  Some (mkScorer (params s)
          (mkEdepMaps
             (fGenVEdepStrand1Backbone m) (fGenVEdepStrand2Backbone m)
             (fGenVEdepStrand1Base m) (fGenVEdepStrand2Base m)
             [] [] (fVEdepStrand1Base m) (fVEdepStrand2Base m))
          (indices s) (tallies s) (clusterLog s)
          (fEventID s) (fDNAParent s) (fNtuple s) (fSkippedWhileInactive s)).

(** The loop over the fibres, the keys of [fGenVEdepStrand1Backbone]
    in ascending order. *)
Fixpoint fibre_loop_with (fibres : list Z) (s : Scorer) : option Scorer :=
  match fibres with
  | [] => Some s
  | parentDepth :: fibres' =>
      s' <- fibre_pass_with s parentDepth ;; fibre_loop_with fibres' s'
  end.

(** [UserHookForEndOfEvent()], [eventID] being [GetEventID()]. *)
Definition end_of_event_with (eventID : Z) (s : Scorer) : option Scorer :=
  let s :=
    mkScorer (params s) (edep s) (indices s) (tallies s) (clusterLog s)
      eventID (fDNAParent s) (fNtuple s) (fSkippedWhileInactive s) in
  s <- fibre_loop_with (StdMap.keys (fGenVEdepStrand1Backbone (edep s))) s ;;
  let m := edep s in
  Some (mkScorer (params s)
          (mkEdepMaps
             [] [] (fGenVEdepStrand1Base m) (fGenVEdepStrand2Base m)
             (fVEdepStrand1Backbone m) (fVEdepStrand2Backbone m)
             (fVEdepStrand1Base m) (fVEdepStrand2Base m))
          (indices s) (tallies s) (clusterLog s)
          (fEventID s) (fDNAParent s) (fNtuple s) (fSkippedWhileInactive s)).
End EndOfEvent.

Definition split_pass (ids : DamageIds) : Scorer -> option Scorer :=
  split_pass_with ids (RecordClusteredDamage ids).

Definition split_loop (ids : DamageIds) : nat -> Scorer -> option Scorer :=
  split_loop_with ids (RecordClusteredDamage ids).

Definition UserHookForEndOfEvent (ids : DamageIds) : Z -> Scorer -> option Scorer :=
  end_of_event_with ids (RecordClusteredDamage ids).

(** An event as the scorer sees it: its hits, then the end-of-event hook. *)
Definition process_hits (hits : list Hit) (s : Scorer) : Scorer :=
  fold_left (fun s h => snd (ProcessHits h s)) hits s.

Definition run_event (ids : DamageIds) (s : Scorer) (ev : Z * list Hit)
    : option Scorer :=
  UserHookForEndOfEvent ids (fst ev) (process_hits (snd ev) s).

Fixpoint run_events (ids : DamageIds) (evs : list (Z * list Hit)) (s : Scorer)
    : option Scorer :=
  match evs with
  | [] => Some s
  | ev :: evs' => s' <- run_event ids s ev ;; run_events ids evs' s'
  end.

(** A run: the constructor on a parameter file, then the events. *)
Definition run (ids : DamageIds) (fPm : ParameterManager)
    (evs : list (Z * list Hit)) : option Scorer :=
  s <- ScoreClusteredDNADamage fPm ;; run_events ids evs s.

(** ** Auxiliary definitions for the statements *)

Definition sum (l : list Z) : Z := fold_right Z.add 0 l.

(** The keys of an inner map whose energy reaches the threshold, in the
    order of the map. *)
Definition over_threshold (ThreshEDep : float) (inner : Map1) : list Z :=
  map fst (filter (fun b => PrimFloat.leb ThreshEDep (snd b)) inner).

(** The entries of a damage vector at the base pair [k], in order. *)
Definition sites_at (k : Z) (l : list (Z * Z)) : list (Z * Z) :=
  filter (fun e => fst e =? k) l.

Definition only (k : Z) (l : list Z) : list Z := filter (fun x => x =? k) l.

(** Ascending (non-decreasing) order of base pair indices. *)
Definition ascending (l : list Z) : Prop := StronglySorted Z.le l.

Definition ascending_sites (l : list (Z * Z)) : Prop := ascending (map fst l).

(** The entries at [k] of the five source vectors, the vector merged
    first coming first: SSB strand 1, BD strand 1, SSB strand 2,
    BD strand 2, DSB. *)
Definition ties_earlier_first (ids : DamageIds) (k : Z)
    (ssb1 bd1 ssb2 bd2 dsb : list Z) : list (Z * Z) :=
  tag_sites (fIdSSB ids) (only k ssb1) ++ tag_sites (fIdBD ids) (only k bd1)
  ++ tag_sites (fIdSSB ids) (only k ssb2) ++ tag_sites (fIdBD ids) (only k bd2)
  ++ tag_sites (fIdDSB ids) (only k dsb).

(** The reading of the specification: at equal base pair index the
    entries of a vector merged later stand before those of the vectors
    merged earlier. *)
Definition ties_later_first (ids : DamageIds) (k : Z)
    (ssb1 bd1 ssb2 bd2 dsb : list Z) : list (Z * Z) :=
  tag_sites (fIdDSB ids) (only k dsb) ++ tag_sites (fIdBD ids) (only k bd2)
  ++ tag_sites (fIdSSB ids) (only k ssb2) ++ tag_sites (fIdBD ids) (only k bd1)
  ++ tag_sites (fIdSSB ids) (only k ssb1).

(** The sums of the per-cluster counts recorded so far. *)
Definition recordedSSB (L : ClusterLog) : Z :=
  sum (fComplexDSBNumSSB L) + sum (fNonDSBClusterNumSSB L).

Definition recordedBD (L : ClusterLog) : Z :=
  sum (fComplexDSBNumBD L) + sum (fNonDSBClusterNumBD L).

Definition recordedDSB (L : ClusterLog) : Z := sum (fComplexDSBNumDSB L).

(** Whether [AddDamageToCluster] takes its third branch on a label. *)
Definition counts_as_DSB (ids : DamageIds) (damageType : Z) : bool :=
  negb (damageType =? fIdSSB ids) && negb (damageType =? fIdBD ids)
  && (damageType =? fIdDSB ids).

Definition recognised (ids : DamageIds) (damageType : Z) : bool :=
  (damageType =? fIdSSB ids) || (damageType =? fIdBD ids)
  || (damageType =? fIdDSB ids).

(** The entries that the scan of [RecordClusteredDamage] adds to a
    cluster, in the order it adds them: [sitePrev] joins when the gap to
    [siteCur] is within the threshold and it has not joined before
    ([joined] is false), [siteCur] joins with it. *)
Fixpoint absorbed_from (fThresDistForCluster : Z) (sitePrev : Z * Z)
    (joined : bool) (sites : list (Z * Z)) : list (Z * Z) :=
  match sites with
  | [] => []
  | siteCur :: sites' =>
      if G4int_sub (fst siteCur) (fst sitePrev) <=? fThresDistForCluster then
        (if joined then [] else [sitePrev])
        ++ siteCur :: absorbed_from fThresDistForCluster siteCur true sites'
      else absorbed_from fThresDistForCluster siteCur false sites'
  end.

Definition absorbed (fThresDistForCluster : Z) (fIndicesSimple : list (Z * Z))
    : list (Z * Z) :=
  match fIndicesSimple with
  | [] => []
  | first :: sites => absorbed_from fThresDistForCluster first false sites
  end.

(** The number of entries of a damage vector that count as DSB. *)
Definition count_DSB (ids : DamageIds) (l : list (Z * Z)) : Z :=
  Z.of_nat (List.length (filter (fun e => counts_as_DSB ids (snd e)) l)).

Definition absorbedDSB (ids : DamageIds) (fThresDistForCluster : Z)
    (fIndicesSimple : list (Z * Z)) : Z :=
  count_DSB ids (absorbed fThresDistForCluster fIndicesSimple).

(** The invariant of the scan of [RecordClusteredDamage]: the two flags
    are opposite, a cluster that is not being built is empty, and for
    each damage type the tally, the count of the cluster being built and
    the counts recorded add up to a constant; for DSB the recorded
    counts are halves, and each recorded cluster may drop one entry. *)
Definition scan_inv (kSSB kBD kDSB complex0 : Z) (s : Scan) : Prop :=
  newCluster s = negb (buildingCluster s)
  /\ (buildingCluster s = false ->
      numSSB (cluster s) = 0 /\ numBD (cluster s) = 0 /\ numDSB (cluster s) = 0)
  /\ 0 <= numDSB (cluster s)
  /\ fTotalSSB (scanT s) + numSSB (cluster s) + recordedSSB (scanL s) = kSSB
  /\ fTotalBD (scanT s) + numBD (cluster s) + recordedBD (scanL s) = kBD
  /\ fTotalDSB (scanT s) + numDSB (cluster s) + 2 * recordedDSB (scanL s) <= kDSB
  /\ kDSB <= fTotalDSB (scanT s) + numDSB (cluster s) + 2 * recordedDSB (scanL s)
             + (fTotalComplexDSB (scanT s) - complex0)
  /\ complex0 <= fTotalComplexDSB (scanT s).

(** [RecordClusteredDamage] without its last statement, the division of
    [fTotalDSB] by two. *)
Definition RecordClusteredDamage_undivided (ids : DamageIds)
    (fThresDistForCluster : Z) (fIndicesSimple : list (Z * Z))
    (T : Tallies) (L : ClusterLog) : option (Tallies * ClusterLog) :=
  match RecordClusteredDamage_scan ids fThresDistForCluster fIndicesSimple T L with
  | None => Some (T, L)
  | Some r => r
  end.

(** The reading of the specification: the clustering of every fibre and
    split copy of the event leaves [fTotalDSB] undivided, and the
    division is applied once when all of them are done. *)
Definition UserHookForEndOfEvent_dividing_once (ids : DamageIds) (eventID : Z)
    (s : Scorer) : option Scorer :=
  s' <- end_of_event_with ids (RecordClusteredDamage_undivided ids) eventID s ;;
  Some (mkScorer (params s') (edep s') (indices s')
          (set_fTotalDSB (Z.quot (fTotalDSB (tallies s')) 2) (tallies s'))
          (clusterLog s') (fEventID s') (fDNAParent s') (fNtuple s')
          (fSkippedWhileInactive s')).

(** The damage vectors that one round of the loop over the split copies
    computes from the thresholds and the fibre's maps. *)
Definition pass_indices (ids : DamageIds) (p : Params) (m : EdepMaps) : Indices :=
  let ssb1 := RecordSimpleDamage (fThresEdepForSSB p) (fVEdepStrand1Backbone m) in
  let ssb2 := RecordSimpleDamage (fThresEdepForSSB p) (fVEdepStrand2Backbone m) in
  let bd1 := RecordSimpleDamage (fThresEdepForBD p) (fVEdepStrand1Base m) in
  let bd2 := RecordSimpleDamage (fThresEdepForBD p) (fVEdepStrand2Base m) in
  let '(dsb, ssb1, ssb2) := RecordDSB1D (fThresDistForDSB p) ssb1 ssb2 in
  mkIndices ssb1 ssb2 bd1 bd2 dsb (CombineSimpleDamage ids ssb1 bd1 ssb2 bd2 dsb).

(** A DSB vector read two entries at a time: each pair is in ascending
    order and its two sites are within the DSB distance. *)
Fixpoint DSB_pairs (fThresDistForDSB : Z) (dsb : list Z) : Prop :=
  match dsb with
  | [] => True
  | [_] => False
  | s :: s' :: dsb' =>
      s <= s' /\ s' - s <= fThresDistForDSB /\ DSB_pairs fThresDistForDSB dsb'
  end.

(** Well-formed nested maps: every level in ascending key order. *)
Definition wf2 (m : Map2) : Prop :=
  StdMap.wf m /\ Forall (fun b => StdMap.wf (snd b)) m.

Definition wf3 (m : Map3) : Prop :=
  StdMap.wf m /\ Forall (fun b => wf2 (snd b)) m.

Definition EdepMaps_wf (m : EdepMaps) : Prop :=
  wf3 (fGenVEdepStrand1Backbone m) /\ wf3 (fGenVEdepStrand2Backbone m)
  /\ wf3 (fGenVEdepStrand1Base m) /\ wf3 (fGenVEdepStrand2Base m)
  /\ wf2 (fVEdepStrand1Backbone m) /\ wf2 (fVEdepStrand2Backbone m)
  /\ wf2 (fVEdepStrand1Base m) /\ wf2 (fVEdepStrand2Base m).

(** Boolean equality of vectors of indices. *)
Fixpoint eqb_list (l1 l2 : list Z) : bool :=
  match l1, l2 with
  | [], [] => true
  | x :: l1', y :: l2' => (x =? y) && eqb_list l1' l2'
  | _, _ => false
  end.

(** ** Sample inputs *)

(** A hit that an active scorer receives without track splitting, in the
    backbone or in a base of a strand of the fibre [fibre], at the base
    pair [bp]. *)
Definition backbone1 (fibre bp : Z) (e : float) : Hit :=
  mkHit true e bp fibre 0.
Definition backbone2 (fibre bp : Z) (e : float) : Hit :=
  mkHit true e (1000000 + bp) fibre 0.
Definition base1 (fibre bp : Z) (e : float) : Hit :=
  mkHit true e (200000 + bp) fibre 0.
Definition base2 (fibre bp : Z) (e : float) : Hit :=
  mkHit true e (1200000 + bp) fibre 0.

(** A backbone map of one fibre with two split indices. *)
Definition sample_map2 : Map2 :=
  [(0, [(5, (20 * eV)%float); (9, (3 * eV)%float); (12, (17.5 * eV)%float)]);
   (1, [(7, (40 * eV)%float)])].

(** A scorer inside the loop over the fibres, two split copies, with
    the maps of the current fibre loaded. *)
Definition sample_fibre_state : Scorer :=
  mkScorer
    (mkParams 10 (17.5 * eV)%float (17.5 * eV)%float 40 2)
    (mkEdepMaps [] [] [] []
       sample_map2
       [(0, [(30, (20 * eV)%float)])]
       [(0, [(5, (20 * eV)%float)])]
       [])
    (mkIndices [] [] [] [] [] [])
    (mkTallies 0 0 0 0 0) ClusterLog_empty 0 0 [] 0.

(** The maps of a fibre with breaks at the base pairs 0, 3, 5, 9 of
    strand 1 and 2, 8 of strand 2, and the thresholds with the DSB
    distance 1. *)
Definition scenario1_maps : EdepMaps :=
  mkEdepMaps [] [] [] []
    [(0, [(0, (20 * eV)%float); (3, (20 * eV)%float); (5, (20 * eV)%float);
          (9, (20 * eV)%float)])]
    [(0, [(2, (20 * eV)%float); (8, (20 * eV)%float)])]
    [] [].

Definition scenario1_params : Params :=
  mkParams 1 (17.5 * eV)%float (17.5 * eV)%float 40 1.

(** The damage vector left as a comment in [RecordClusteredDamage]. *)
Definition commented_fIndicesSimple : list (Z * Z) :=
  [(1, 1); (2, 0); (5, 1); (5, 2); (6, 2); (6, 1); (7, 0); (11, 1); (12, 0);
   (13, 1); (15, 2); (17, 2); (18, 0); (21, 2); (22, 2); (23, 1); (26, 0);
   (29, 1); (31, 1); (35, 0)].

(** An event in two fibres: in each, a strand-1 break at base pair 0 and
    a strand-2 break at base pair 45, the DSB distance being set to 50. *)
Definition two_fibre_parameters : ParameterManager :=
  [("BasePairDistanceForDefiningDSB"%string, IntegerValue 50)].

Definition two_fibre_hits : list Hit :=
  [backbone1 0 0 (20 * eV)%float; backbone2 0 45 (20 * eV)%float;
   backbone1 1 0 (20 * eV)%float; backbone2 1 45 (20 * eV)%float].

(** [fTotalDSB] after the first event of a run, for a given end-of-event
    hook. *)
Definition totalDSB_after_event (hook : Z -> Scorer -> option Scorer)
    (fPm : ParameterManager) (hits : list Hit) : option Z :=
  s0 <- ScoreClusteredDNADamage fPm ;;
  s1 <- hook 0 (process_hits hits s0) ;;
  Some (fTotalDSB (tallies s1)).

(** ** The copy numbers of the fibre geometry *)

(** The six residue volumes that [TsFiberV2::BuildLogicFiber] places for
    a base pair, in the order of the placements. *)
Inductive Residue : Type :=
| r_sTMP1
| r_sTHF1
| r_base1
| r_base2
| r_sTHF2
| r_sTMP2.

(** The copy number of a residue volume is [count] plus this constant. *)
Definition copy_offset (r : Residue) : Z :=
  match r with
  | r_sTMP1 => 0
  | r_sTHF1 => 100000
  | r_base1 => 200000
  | r_base2 => 1200000
  | r_sTHF2 => 1100000
  | r_sTMP2 => 1000000
  end.

Record Placement : Type := mkPlacement {
  bp_index : Z;
  residue : Residue;
  copyNo : Z
}.

Definition residues : list Residue :=
  [r_sTMP1; r_sTHF1; r_base1; r_base2; r_sTHF2; r_sTMP2].

(** The loop over [j] of [BuildLogicFiber] for the nucleosome [i], as
    far as names and copy numbers go: the placements made and [count]
    after the loop.  Positions, rotations and solids are left out. *)
Fixpoint place_bps (i fBpNum : Z) (js : list Z) (count : Z)
    : list Placement * Z :=
  match js with
  | [] => ([], count)
  | j :: js' =>
      let bp := i * fBpNum + j in
      let here := map (fun r => mkPlacement bp r (count + copy_offset r)) residues in
      let '(rest, count') := place_bps i fBpNum js' (count + 1) in
      (here ++ rest, count')
  end.

(** The loop over [i]. *)
Fixpoint place_nucleosomes (fBpNum : Z) (nucleos : list Z) (count : Z)
    : list Placement * Z :=
  match nucleos with
  | [] => ([], count)
  | i :: nucleos' =>
      let '(here, count') := place_bps i fBpNum (upto fBpNum) count in
      let '(rest, count'') := place_nucleosomes fBpNum nucleos' count' in
      (here ++ rest, count'')
  end.

Definition BuildLogicFiber_placements (fNucleoNum fBpNum : Z) : list Placement :=
  fst (place_nucleosomes fBpNum (upto fNucleoNum) 0).

(** The strand and the residue index that [ProcessHits] is to find for a
    residue volume: phosphate and sugar are the backbone residues 0 and
    1, the base is residue 2. *)
Definition strand_of (r : Residue) : Z :=
  match r with
  | r_sTMP1 | r_sTHF1 | r_base1 => 0
  | r_base2 | r_sTHF2 | r_sTMP2 => 1
  end.

Definition res_of (r : Residue) : Z :=
  match r with
  | r_sTMP1 | r_sTMP2 => 0
  | r_sTHF1 | r_sTHF2 => 1
  | r_base1 | r_base2 => 2
  end.

(** The three indices that [ProcessHits] computes from a copy number:
    [num_strand], [num_res], [num_nucleotide]. *)
Definition decode_volID (volID : Z) : Z * Z * Z :=
  let num_strand := Z.quot volID 1000000 in
  let num_res := Z.quot (volID - num_strand * 1000000) 100000 in
  let num_nucleotide := volID - num_strand * 1000000 - num_res * 100000 in
  (num_strand, num_res, num_nucleotide).

(** The four maps of the scorer that [ProcessHits] writes. *)
Inductive GenMap : Type :=
| Strand1Backbone
| Strand2Backbone
| Strand1Base
| Strand2Base.

Definition gen (which : GenMap) (m : EdepMaps) : Map3 :=
  match which with
  | Strand1Backbone => fGenVEdepStrand1Backbone m
  | Strand2Backbone => fGenVEdepStrand2Backbone m
  | Strand1Base => fGenVEdepStrand1Base m
  | Strand2Base => fGenVEdepStrand2Base m
  end.

Definition GenMap_eqb (a b : GenMap) : bool :=
  match a, b with
  | Strand1Backbone, Strand1Backbone | Strand2Backbone, Strand2Backbone
  | Strand1Base, Strand1Base | Strand2Base, Strand2Base => true
  | _, _ => false
  end.

(** The map in which the energy deposited in a residue volume belongs. *)
Definition map_of (r : Residue) : GenMap :=
  match r with
  | r_sTMP1 | r_sTHF1 => Strand1Backbone
  | r_base1 => Strand1Base
  | r_base2 => Strand2Base
  | r_sTHF2 | r_sTMP2 => Strand2Backbone
  end.

(** The energy recorded for a fibre, a split index and a base pair, 0
    where nothing is recorded. *)
Definition energy_at (m : Map3) (parentDepth i num_nucleotide : Z) : float :=
  StdMap.get 0%float num_nucleotide
    (StdMap.get [] i (StdMap.get [] parentDepth m)).

(** ** The strand break count taken from pdb4dna *)

(** The [do ... while] loop of [ComputeStrandBreaks] over strand 2,
    entered with a map that is not empty: [first] is its first binding
    and [rest] the others.  Each round reads the first binding, counts
    it when its energy reaches the threshold and erases it.  The result
    is the last binding read, the map left and [ssb2]. *)
Fixpoint strand2_do_while (fThresEdepForSSB : float) (fThresDistForDSB nucl1 : Z)
    (first : Z * float) (rest : Map1) (ssb2 : Z) : Z * float * Map1 * Z :=
  let '(nucl2, edep2) := first in
  let ssb2 := if PrimFloat.leb fThresEdepForSSB edep2 then ssb2 + 1 else ssb2 in
  if (fThresDistForDSB <? nucl1 - nucl2) && negb (StdMap.empty rest) then
    match rest with
    | [] => (nucl2, edep2, rest, ssb2)
    | next :: rest' =>
        strand2_do_while fThresEdepForSSB fThresDistForDSB nucl1 next rest' ssb2
    end
  else (nucl2, edep2, rest, ssb2).

(** The first [while] loop of [ComputeStrandBreaks]: [m1] and [m2] are
    the inner maps of the two strands.  The result is the map of
    strand 2 when strand 1 is exhausted, and the three counters. *)
Fixpoint strand1_while (fThresEdepForSSB : float) (fThresDistForDSB : Z)
    (m1 m2 : Map1) (ssb1 ssb2 dsb : Z) : Map1 * Z * Z * Z :=
  match m1 with
  | [] => (m2, ssb1, ssb2, dsb)
  | (nucl1, edep1) :: m1' =>
      let ssb1 := if PrimFloat.leb fThresEdepForSSB edep1 then ssb1 + 1 else ssb1 in
      match m2 with
      | [] => strand1_while fThresEdepForSSB fThresDistForDSB m1' m2 ssb1 ssb2 dsb
      | first :: rest =>
          let '(nucl2, edep2, m2, ssb2) :=
            strand2_do_while fThresEdepForSSB fThresDistForDSB nucl1 first rest
              ssb2 in
          let '(m2, ssb2) :=
            if fThresDistForDSB <? nucl2 - nucl1 then
              (StdMap.insert nucl2 edep2 m2,
               if PrimFloat.leb fThresEdepForSSB edep2 then ssb2 - 1 else ssb2)
            else (m2, ssb2) in
          let '(ssb1, ssb2, dsb) :=
            if Z.abs (nucl2 - nucl1) <=? fThresDistForDSB then
              if PrimFloat.leb fThresEdepForSSB edep2
                 && PrimFloat.leb fThresEdepForSSB edep1
              then (ssb1 - 1, ssb2 - 1, dsb + 1)
              else (ssb1, ssb2, dsb)
            else (ssb1, ssb2, dsb) in
          strand1_while fThresEdepForSSB fThresDistForDSB m1' m2 ssb1 ssb2 dsb
      end
  end.

(** The two loops that count what is left of a strand. *)
Fixpoint leftover_while (fThresEdepForSSB : float) (m : Map1) (ssb : Z) : Z :=
  match m with
  | [] => ssb
  | (_, edep) :: m' =>
      leftover_while fThresEdepForSSB m'
        (if PrimFloat.leb fThresEdepForSSB edep then ssb + 1 else ssb)
  end.

(** [ComputeStrandBreaks(sb, cluster)] on the members
    [fVEdepStrand1Backbone] and [fVEdepStrand2Backbone]: the values
    written to [sb[0]] and [sb[1]], and the two maps after the call. *)
Definition ComputeStrandBreaks (fThresEdepForSSB : float) (fThresDistForDSB : Z)
    (cluster : Z) (fVEdep1 fVEdep2 : Map2) : Z * Z * Map2 * Map2 :=
  let fVEdep1 := StdMap.touch [] cluster fVEdep1 in
  let fVEdep2 := StdMap.touch [] cluster fVEdep2 in
  let '(m2, ssb1, ssb2, dsb) :=
    strand1_while fThresEdepForSSB fThresDistForDSB
      (StdMap.get [] cluster fVEdep1) (StdMap.get [] cluster fVEdep2) 0 0 0 in
  let ssb1 := leftover_while fThresEdepForSSB [] ssb1 in
  let ssb2 := leftover_while fThresEdepForSSB m2 ssb2 in
  (ssb1 + ssb2, dsb,
   StdMap.insert cluster [] fVEdep1, StdMap.insert cluster [] fVEdep2).

(** The number of bindings of an inner map whose energy reaches the
    threshold. *)
Definition count_over (ThreshEDep : float) (m : Map1) : Z :=
  Z.of_nat (List.length (over_threshold ThreshEDep m)).

(** ** Definitions for the statements about whole runs *)

(** What is left of the two SSB vectors after the pairing: part of what
    was there, in the order it was in, and with no two sites that could
    still be paired. *)
Definition leftovers_of (fThresDistForDSB : Z) (l1 l2 r1 r2 : list Z) : Prop :=
  incl r1 l1 /\ incl r2 l2 /\ ascending r1 /\ ascending r2
  /\ forall s1 s2, In s1 r1 -> In s2 r2 -> fThresDistForDSB < Z.abs (s2 - s1).

(** What a sequence of rounds of the loop over the split copies leaves
    alone, and the rows it appends. *)
Definition rows_appended (eventID : Z) (n : nat) (s s' : Scorer) : Prop :=
  params s' = params s /\ edep s' = edep s /\ fEventID s' = fEventID s
  /\ exists rows,
       fNtuple s' = fNtuple s ++ rows
       /\ (List.length rows <= n)%nat
       /\ Forall (fun r => rowEventID r = eventID) rows.

(** The same for the rounds of the loop over the fibres, which clear
    some of the maps: the rows, the parameters, the event number and
    the keys that the loop iterates over. *)
Definition rows_of_event (eventID : Z) (n : nat) (s s' : Scorer) : Prop :=
  params s' = params s /\ fEventID s' = eventID
  /\ fGenVEdepStrand1Backbone (edep s') = fGenVEdepStrand1Backbone (edep s)
  /\ exists rows,
       fNtuple s' = fNtuple s ++ rows
       /\ (List.length rows <= n)%nat
       /\ Forall (fun r => rowEventID r = eventID) rows.

(** A property of the output of the scorer: its parameters, tallies,
    cluster records and rows. *)
Definition holds (Q : Params -> Tallies -> ClusterLog -> list Row -> Prop)
    (s : Scorer) : Prop :=
  Q (params s) (tallies s) (clusterLog s) (fNtuple s).

(** The cluster records and the two cluster tallies move together. *)
Definition log_aligned (T : Tallies) (L : ClusterLog) : Prop :=
  Z.of_nat (List.length (fComplexDSBSizes L)) = fTotalComplexDSB T
  /\ Z.of_nat (List.length (fComplexDSBNumSSB L)) = fTotalComplexDSB T
  /\ Z.of_nat (List.length (fComplexDSBNumBD L)) = fTotalComplexDSB T
  /\ Z.of_nat (List.length (fComplexDSBNumDSB L)) = fTotalComplexDSB T
  /\ Z.of_nat (List.length (fComplexDSBNumDamage L)) = fTotalComplexDSB T
  /\ Z.of_nat (List.length (fNonDSBClusterSizes L)) = fTotalNonDSBCluster T
  /\ Z.of_nat (List.length (fNonDSBClusterNumSSB L)) = fTotalNonDSBCluster T
  /\ Z.of_nat (List.length (fNonDSBClusterNumBD L)) = fTotalNonDSBCluster T
  /\ Z.of_nat (List.length (fNonDSBClusterNumDamage L)) = fTotalNonDSBCluster T.

(** Whether [AddDamageToCluster] takes its first, or its second, branch
    on a label. *)
Definition counts_as_SSB (ids : DamageIds) (damageType : Z) : bool :=
  damageType =? fIdSSB ids.

Definition counts_as_BD (ids : DamageIds) (damageType : Z) : bool :=
  negb (damageType =? fIdSSB ids) && (damageType =? fIdBD ids).

(** The number of entries of a damage vector whose label satisfies [f]. *)
Definition count_type (f : Z -> bool) (l : list (Z * Z)) : Z :=
  Z.of_nat (List.length (filter (fun e => f (snd e)) l)).

Definition tallies_nonneg (T : Tallies) : Prop :=
  0 <= fTotalSSB T /\ 0 <= fTotalBD T /\ 0 <= fTotalDSB T
  /\ 0 <= fTotalComplexDSB T /\ 0 <= fTotalNonDSBCluster T.

Definition row_nonneg (r : Row) : Prop :=
  0 <= rowSSB r /\ 0 <= rowDSB r /\ 0 <= rowBD r
  /\ 0 <= rowComplexDSB r /\ 0 <= rowNonDSBCluster r.

(** Whether a hit can reach the backbone map of strand 1: its volume is
    on strand 1, and its track carries a split index above 2 or its
    residue is the phosphate or the sugar. *)
Definition reaches_strand1_backbone (fNbOfAlgo : Z) (h : Hit) : bool :=
  let '(num_strand, num_res, _) := decode_volID (volID h) in
  (num_strand =? 0)
  && ((2 <? (if 1 <? fNbOfAlgo then splitTrackID h else 1))
      || (num_res =? 0) || (num_res =? 1)).

(** The backbone map of the strand of a residue. *)
Definition backbone_of (r : Residue) : GenMap :=
  if strand_of r =? 0 then Strand1Backbone else Strand2Backbone.

(** Two strands of a fibre for [ComputeStrandBreaks]: breaks at the base
    pairs 5 and 30 of strand 1 and 8 of strand 2, and a deposit below
    the threshold at the base pair 100 of strand 2. *)
Definition pdb4dna_strand1 : Map2 :=
  [(0, [(5, (20 * eV)%float); (30, (20 * eV)%float)])].

Definition pdb4dna_strand2 : Map2 :=
  [(0, [(8, (20 * eV)%float); (100, (5 * eV)%float)])].

(** An event that deposits energy in the backbone of strand 2 and in a
    base of strand 1 only. *)
Definition strand2_event : Z * list Hit :=
  (0, [backbone2 0 5 (20 * eV)%float; base1 0 7 (20 * eV)%float]).

(** The damage counts recorded for the clusters: a cluster has at least
    two entries, and two DSB entries are recorded as one DSB. *)
Definition clusters_hold_damage (L : ClusterLog) : Prop :=
  Forall (fun n => 1 <= n) (fComplexDSBNumDamage L)
  /\ Forall (fun n => 2 <= n) (fNonDSBClusterNumDamage L).

(** A size that a cluster of at least one base pair can have in a
    [G4int]. *)
Definition size_ok (n : Z) : Prop := 1 <= n <= 2147483647.

(** The sizes recorded in [L] are those recorded in [L0], followed by
    sizes of at least one base pair. *)
Definition sizes_extend (L0 L : ClusterLog) : Prop :=
  exists newComplex newNonDSB : list Z,
    fComplexDSBSizes L = fComplexDSBSizes L0 ++ newComplex
    /\ fNonDSBClusterSizes L = fNonDSBClusterSizes L0 ++ newNonDSB
    /\ Forall size_ok newComplex /\ Forall size_ok newNonDSB.

(** The state of the scan of [RecordClusteredDamage] before the round
    whose previous site is [sitePrev], [L0] being the cluster records
    when the scan began: the flags are opposite, the cluster being built
    has at least two entries, and, when the vector is ascending
    ([sorted]), it ends at the previous site and does not start after
    it. *)
Definition scan_ok (counted sorted : bool) (L0 : ClusterLog) (sitePrev : Z * Z)
    (s : Scan) : Prop :=
  newCluster s = negb (buildingCluster s)
  /\ 0 <= numSSB (cluster s) /\ 0 <= numBD (cluster s)
  /\ 0 <= numDSB (cluster s)
  /\ (buildingCluster s = true ->
      2 <= numSSB (cluster s) + numBD (cluster s) + numDSB (cluster s))
  /\ (counted = true -> clusters_hold_damage (scanL s))
  /\ (sorted = true ->
      sizes_extend L0 (scanL s)
      /\ (buildingCluster s = true ->
          start (cluster s) <= end_ (cluster s)
          /\ end_ (cluster s) = fst sitePrev
          /\ G4int_half (start (cluster s))
          /\ G4int_half (end_ (cluster s)))).

(** An event of an active scorer in one fibre that forms two clusters:
    two strand-1 breaks five base pairs apart, and a DSB of a strand-1
    break at base pair 200 and a strand-2 break at base pair 203. *)
Definition clustered_event : Z * list Hit :=
  (0, [backbone1 0 0 (20 * eV)%float; backbone1 0 5 (20 * eV)%float;
       backbone1 0 200 (20 * eV)%float; backbone2 0 203 (20 * eV)%float]).

(** ** The clusters of a damage vector *)

(** The clusters of a damage vector: the maximal stretches of at least
    two consecutive entries in which every entry is within the cluster
    distance of the entry before it.  [sitePrev] is the entry before
    [sites], and [open] the stretch that it ends, empty when it ends
    none. *)
Fixpoint clusters_from (fThresDistForCluster : Z) (sitePrev : Z * Z)
    (open : list (Z * Z)) (sites : list (Z * Z)) : list (list (Z * Z)) :=
  match sites with
  | [] => match open with [] => [] | _ :: _ => [open] end
  | siteCur :: sites' =>
      if G4int_sub (fst siteCur) (fst sitePrev) <=? fThresDistForCluster then
        clusters_from fThresDistForCluster siteCur
          (match open with [] => [sitePrev] | _ :: _ => open end ++ [siteCur])
          sites'
      else
        match open with
        | [] => clusters_from fThresDistForCluster siteCur [] sites'
        | _ :: _ => open :: clusters_from fThresDistForCluster siteCur [] sites'
        end
  end.

Definition clusters (fThresDistForCluster : Z) (fIndicesSimple : list (Z * Z))
    : list (list (Z * Z)) :=
  match fIndicesSimple with
  | [] => []
  | first :: sites => clusters_from fThresDistForCluster first [] sites
  end.

(** Every entry of [l] is within the cluster distance of the entry
    before it, [sitePrev] being the entry before the first. *)
Fixpoint chained_from (fThresDistForCluster : Z) (sitePrev : Z * Z)
    (l : list (Z * Z)) : Prop :=
  match l with
  | [] => True
  | siteCur :: l' =>
      G4int_sub (fst siteCur) (fst sitePrev) <= fThresDistForCluster
      /\ chained_from fThresDistForCluster siteCur l'
  end.

Definition chained (fThresDistForCluster : Z) (c : list (Z * Z)) : Prop :=
  match c with
  | [] => True
  | first :: l => chained_from fThresDistForCluster first l
  end.

(** Whether a cluster holds an entry that counts as DSB. *)
Definition holds_DSB (ids : DamageIds) (c : list (Z * Z)) : bool :=
  0 <? count_DSB ids c.

(** The state of the scan when the stretch [open] is being built. *)
Definition scan_at (ids : DamageIds) (open : list (Z * Z)) (s : Scan) : Prop :=
  newCluster s = negb (buildingCluster s)
  /\ buildingCluster s = match open with [] => false | _ :: _ => true end
  /\ numDSB (cluster s) = count_DSB ids open.

(** What [RecordClusteredDamage] does after its scan, without the final
    division. *)
Definition finish_scan (s : Scan) : Tallies * ClusterLog :=
  if buildingCluster s then
    let '(_, T', L') := RecordCluster (cluster s) (scanT s) (scanL s) in (T', L')
  else (scanT s, scanL s).

Definition halved_DSB (ids : DamageIds) (cs : list (list (Z * Z))) : Z :=
  sum (map (fun c => Z.quot (count_DSB ids c) 2) cs).

(** ** The order of the simple damage *)

(** The four vectors of simple damage are strictly ascending. *)
Definition indices_ascending (I : Indices) : Prop :=
  StronglySorted Z.lt (fIndicesSSB1 I) /\ StronglySorted Z.lt (fIndicesSSB2 I)
  /\ StronglySorted Z.lt (fIndicesBD1 I) /\ StronglySorted Z.lt (fIndicesBD2 I).

(** The state of the maps and the vectors between the rounds. *)
Definition maps_and_indices_ok (s : Scorer) : Prop :=
  EdepMaps_wf (edep s) /\ indices_ascending (indices s).

(** An event of an active scorer in one fibre whose damage stays simple:
    strand-1 breaks at base pairs 0 and 200, strand-2 breaks at 100 and
    300, damaged strand-1 bases at 7 and 9 and a damaged strand-2 base
    at 50. *)
Definition simple_damage_event : Z * list Hit :=
  (0, [backbone1 0 200 (20 * eV)%float; backbone1 0 0 (20 * eV)%float;
       backbone2 0 300 (20 * eV)%float; backbone2 0 100 (20 * eV)%float;
       base1 0 9 (20 * eV)%float; base1 0 7 (20 * eV)%float;
       base2 0 50 (20 * eV)%float]).

(** An event in two fibres, the DSB distance being set to 50: in the
    first fibre a strand-1 break at base pair 0 and a strand-2 break at
    base pair 45, one DSB; in the second two strand-1 breaks 200 base
    pairs apart, no DSB. *)
Definition later_fibre_hits : list Hit :=
  [backbone1 0 0 (20 * eV)%float; backbone2 0 45 (20 * eV)%float;
   backbone1 1 0 (20 * eV)%float; backbone1 1 200 (20 * eV)%float].

(** * Properties *)

(** ** The test data left in the source as comments *)

Example RecordDSB1D_tie :
  RecordDSB1D 0 [5] [5] = ([5; 5], [], []).
Proof. reflexivity. Qed.

Example CombineSimpleDamage_commented_data :
  CombineSimpleDamage ids012 [3; 4; 5; 7; 9] [1; 4; 7] [1; 12] [6; 7; 10; 12]
    [3; 5; 11; 14]
  = [(1, 1); (1, 0); (3, 0); (3, 2); (4, 0); (4, 1); (5, 0); (5, 2); (6, 1);
     (7, 0); (7, 1); (7, 1); (9, 0); (10, 1); (11, 2); (12, 0); (12, 1);
     (14, 2)].
Proof. reflexivity. Qed.

(** With the labels 0, 1, 2 for SSB, BD, DSB and the cluster distance 2,
    the commented vector gives three complex DSBs and two non-DSB
    clusters. *)
Example RecordClusteredDamage_commented_data :
  RecordClusteredDamage ids012 2 commented_fIndicesSimple
    (mkTallies 6 8 6 0 0) ClusterLog_empty
  = Some (mkTallies 2 0 0 3 2,
          mkClusterLog [3; 8; 3] [1; 2; 0] [2; 2; 1] [1; 1; 1] [4; 5; 2]
            [2; 3] [1; 0] [1; 2] [2; 2]).
Proof. reflexivity. Qed.

(** ** Ordered maps *)

Module StdMapFacts.
Import StdMap.

Lemma find_insert_same {V : Type} (k : Z) (v : V) (m : t V) :
  find k (insert k v m) = Some v.
Proof.
  induction m as [|[k' v'] m IH]; simpl.
  - now rewrite Z.eqb_refl.
  - destruct (k <? k') eqn:Hlt; simpl.
    + now rewrite Z.eqb_refl.
    + destruct (k =? k') eqn:Heq; simpl.
      * now rewrite Z.eqb_refl.
      * now rewrite Heq.
Qed.

Lemma get_touch {V : Type} (dflt : V) (k : Z) (m : t V) :
  get dflt k (touch dflt k m) = get dflt k m.
Proof.
  unfold touch, get.
  destruct (find k m) eqn:Hf.
  - now rewrite Hf.
  - now rewrite find_insert_same.
Qed.

Lemma wf_tail {V : Type} (b : Z * V) (m : t V) : wf (b :: m) -> wf m.
Proof. unfold wf; simpl; intros H; now inversion H. Qed.

Lemma wf_head_lt {V : Type} (k : Z) (v : V) (m : t V) :
  wf ((k, v) :: m) -> Forall (fun b => k < fst b) m.
Proof.
  unfold wf, keys; simpl; intros H; inversion H as [|? ? _ Hall]; subst.
  rewrite Forall_forall in *. intros b Hb. apply Hall, in_map, Hb.
Qed.

(** In a well-formed map [find] is membership of the binding. *)
Lemma find_In {V : Type} (k : Z) (v : V) (m : t V) :
  wf m -> (find k m = Some v <-> In (k, v) m).
Proof.
  induction m as [|[k' v'] m IH]; simpl; intros Hwf.
  - split; [discriminate | tauto].
  - pose proof (wf_head_lt _ _ _ Hwf) as Hlt.
    specialize (IH (wf_tail _ _ Hwf)).
    destruct (k =? k') eqn:Heq.
    + apply Z.eqb_eq in Heq; subst k'. split.
      * intros [= ->]; now left.
      * intros [[= ->]|Hin]; [reflexivity|].
        rewrite Forall_forall in Hlt. specialize (Hlt _ Hin); simpl in Hlt; lia.
    + apply Z.eqb_neq in Heq. rewrite IH. split.
      * now right.
      * intros [[= -> ->]|Hin]; [congruence | assumption].
Qed.

Lemma wf_insert {V : Type} (k : Z) (v : V) (m : t V) :
  wf m -> wf (insert k v m).
Proof.
  unfold wf.
  induction m as [|[k' v'] m IH]; simpl; intros Hwf.
  - repeat constructor.
  - inversion Hwf as [|? ? Hs Hall]; subst.
    destruct (k <? k') eqn:Hlt; simpl.
    + apply Z.ltb_lt in Hlt. constructor; [assumption|].
      constructor; [assumption|].
      eapply Forall_impl; [|exact Hall]. simpl; intros; lia.
    + destruct (k =? k') eqn:Heq; simpl.
      * apply Z.eqb_eq in Heq; subst k'. now constructor.
      * apply Z.ltb_ge in Hlt. apply Z.eqb_neq in Heq.
        constructor; [now apply IH|].
        assert (Hk : k' < k) by lia.
        clear - Hall Hk. unfold keys in *.
        induction m as [|[k2 v2] m IHm]; simpl in *.
        -- repeat constructor; assumption.
        -- inversion Hall; subst.
           destruct (k <? k2); simpl; [repeat constructor; assumption|].
           destruct (k =? k2); simpl; constructor; auto.
Qed.

Lemma wf_modify {V : Type} (dflt : V) (k : Z) (f : V -> V) (m : t V) :
  wf m -> wf (modify dflt k f m).
Proof. apply wf_insert. Qed.
End StdMapFacts.

(** ** Simple damage extraction *)

Lemma RecordSimpleDamage_loop_spec (t : float) (inner : Map1) (acc : list Z) :
  RecordSimpleDamage_loop t inner acc = (acc ++ over_threshold t inner, []).
Proof.
  revert acc; induction inner as [|[k e] inner IH]; intros acc; simpl.
  - now rewrite app_nil_r.
  - rewrite IH. unfold over_threshold; simpl.
    destruct (PrimFloat.leb t e); simpl; [now rewrite <- app_assoc|reflexivity].
Qed.

Lemma RecordSimpleDamage_spec (t : float) (m : Map2) :
  RecordSimpleDamage t m = over_threshold t (StdMap.get [] 0 m).
Proof.
  unfold RecordSimpleDamage, RecordSimpleDamage_body.
  rewrite StdMapFacts.get_touch, RecordSimpleDamage_loop_spec. reflexivity.
Qed.

(** The loop drains the function's copy of the map. *)
Lemma RecordSimpleDamage_body_drains (t : float) (m : Map2) :
  StdMap.get [] 0 (snd (RecordSimpleDamage_body t m)) = [].
Proof.
  unfold RecordSimpleDamage_body.
  rewrite StdMapFacts.get_touch, RecordSimpleDamage_loop_spec. simpl.
  unfold StdMap.get. now rewrite StdMapFacts.find_insert_same.
Qed.

Lemma over_threshold_sorted (t : float) (inner : Map1) :
  StdMap.wf inner -> StronglySorted Z.lt (over_threshold t inner).
Proof.
  unfold StdMap.wf, StdMap.keys, over_threshold.
  induction inner as [|[k e] inner IH]; simpl; intros Hwf.
  - constructor.
  - inversion Hwf as [|? ? Hs Hall]; subst.
    destruct (PrimFloat.leb t e); simpl; [|now apply IH].
    constructor; [now apply IH|].
    rewrite Forall_forall in *. intros x Hx.
    apply in_map_iff in Hx. destruct Hx as [b [<- Hb]].
    apply filter_In in Hb. apply Hall, in_map, Hb.
Qed.

Lemma over_threshold_In (t : float) (inner : Map1) (k : Z) :
  StdMap.wf inner ->
  (In k (over_threshold t inner) <->
   exists e, StdMap.find k inner = Some e /\ PrimFloat.leb t e = true).
Proof.
  intros Hwf. unfold over_threshold. rewrite in_map_iff. split.
  - intros [[k' e] [Hk Hb]]. simpl in Hk; subst k'.
    apply filter_In in Hb. destruct Hb as [Hin Hle]. exists e. split.
    + now apply StdMapFacts.find_In.
    + exact Hle.
  - intros [e [Hf Hle]]. exists (k, e). split; [reflexivity|].
    apply filter_In. split; [now apply StdMapFacts.find_In | exact Hle].
Qed.

(** ** The loop over the split copies *)

Section SplitLoop.
Variable ids : DamageIds.
Variable clustering :
  Z -> list (Z * Z) -> Tallies -> ClusterLog -> option (Tallies * ClusterLog).

(** A round reads the maps and the thresholds and writes neither. *)
Lemma split_pass_with_frame (s s' : Scorer) :
  split_pass_with ids clustering s = Some s' ->
  params s' = params s /\ edep s' = edep s /\ fEventID s' = fEventID s
  /\ indices s' = pass_indices ids (params s) (edep s).
Proof.
  unfold split_pass_with, pass_indices.
  destruct (RecordDSB1D _ _ _) as [[dsb ssb1] ssb2].
  destruct (clustering _ _ _ _) as [[T L]|]; simpl; [|discriminate].
  intros [= <-]; simpl. auto.
Qed.

Lemma split_loop_with_frame (n : nat) (s s' : Scorer) :
  split_loop_with ids clustering n s = Some s' ->
  params s' = params s /\ edep s' = edep s /\ fEventID s' = fEventID s.
Proof.
  revert s; induction n as [|n IH]; simpl; intros s.
  - intros [= <-]; auto.
  - destruct (split_pass_with ids clustering s) as [s1|] eqn:H1; simpl; [|discriminate].
    intros H. apply IH in H. apply split_pass_with_frame in H1.
    destruct H as (-> & -> & ->), H1 as (-> & -> & -> & _). auto.
Qed.

(** Every round leaves the same damage vectors behind. *)
Lemma split_loop_with_indices (n : nat) (s s' : Scorer) :
  split_loop_with ids clustering (S n) s = Some s' ->
  indices s' = pass_indices ids (params s) (edep s).
Proof.
  revert s; induction n as [|n IH]; intros s.
  - simpl. destruct (split_pass_with ids clustering s) as [s1|] eqn:H1; simpl; [|discriminate].
    intros [= <-]. now apply split_pass_with_frame in H1.
  - change (split_loop_with ids clustering (S (S n)) s)
      with (s1 <- split_pass_with ids clustering s ;; split_loop_with ids clustering (S n) s1).
    destruct (split_pass_with ids clustering s) as [s1|] eqn:H1; simpl bind; [|discriminate].
    intros H. apply IH in H. apply split_pass_with_frame in H1.
    destruct H1 as (<- & <- & _). exact H.
Qed.
End SplitLoop.

(** ** Merging the damage vectors *)

Lemma tag_sites_fst (ty : Z) (l : list Z) : map fst (tag_sites ty l) = l.
Proof.
  unfold tag_sites. rewrite map_map. simpl. apply map_id.
Qed.

Lemma sites_at_tag_sites (k ty : Z) (l : list Z) :
  sites_at k (tag_sites ty l) = tag_sites ty (only k l).
Proof.
  unfold sites_at, tag_sites, only.
  induction l as [|x l IH]; simpl; [reflexivity|].
  destruct (x =? k); simpl; now rewrite IH.
Qed.

Lemma sites_at_app (k : Z) (l1 l2 : list (Z * Z)) :
  sites_at k (l1 ++ l2) = sites_at k l1 ++ sites_at k l2.
Proof. apply filter_app. Qed.

Lemma sites_at_cons (k : Z) (e : Z * Z) (l : list (Z * Z)) :
  sites_at k (e :: l) = (if fst e =? k then [e] else []) ++ sites_at k l.
Proof. unfold sites_at; simpl. now destruct (fst e =? k). Qed.

Lemma only_cons (k x : Z) (l : list Z) :
  only k (x :: l) = if x =? k then x :: only k l else only k l.
Proof. reflexivity. Qed.

Lemma sites_at_above (k : Z) (l : list (Z * Z)) :
  Forall (fun e => k < fst e) l -> sites_at k l = [].
Proof.
  unfold sites_at. induction 1 as [|e l He _ IH]; simpl; [reflexivity|].
  destruct (fst e =? k) eqn:Heq; [apply Z.eqb_eq in Heq; lia | exact IH].
Qed.

Lemma ascending_sites_cons_inv (e : Z * Z) (l : list (Z * Z)) :
  ascending_sites (e :: l) ->
  ascending_sites l /\ Forall (fun x => fst e <= fst x) l.
Proof.
  unfold ascending_sites, ascending; simpl. intros H.
  inversion H as [|? ? Hs Hall]; subst. split; [assumption|].
  rewrite Forall_forall in *. intros x Hx. apply Hall, in_map, Hx.
Qed.

Lemma ascending_sites_cons (e : Z * Z) (l : list (Z * Z)) :
  ascending_sites l -> Forall (fun x => fst e <= fst x) l ->
  ascending_sites (e :: l).
Proof.
  unfold ascending_sites, ascending; simpl. intros Hs Hall.
  constructor; [assumption|].
  rewrite Forall_forall in *. intros x Hx.
  apply in_map_iff in Hx. destruct Hx as [y [<- Hy]]. now apply Hall.
Qed.

Section MergeLoop.
Variable damageType : Z.

(** Every entry of the result comes from the source or from the vector. *)
Lemma merge_loop_Forall (Q : Z * Z -> Prop) (fuel : nat) :
  forall (src : list Z) (rest : list (Z * Z)),
    Forall (fun site => Q (site, damageType)) src -> Forall Q rest ->
    Forall Q (merge_loop fuel damageType src rest).
Proof.
  induction fuel as [|fuel IH]; intros src rest Hsrc Hrest; simpl.
  - apply Forall_app. split; [assumption|].
    unfold tag_sites. rewrite Forall_map. exact Hsrc.
  - destruct src as [|site src']; [assumption|].
    destruct rest as [|cur rest'].
    + unfold tag_sites. rewrite Forall_map. exact Hsrc.
    + inversion Hsrc; inversion Hrest; subst.
      destruct (site <? fst cur).
      * apply IH; [assumption|]. constructor; [assumption|].
        constructor; assumption.
      * constructor; [assumption|]. apply IH; assumption.
Qed.

(** Ascending inputs give an ascending result. *)
Lemma merge_loop_ascending (fuel : nat) :
  forall (src : list Z) (rest : list (Z * Z)),
    (merge_fuel src rest <= fuel)%nat ->
    ascending src -> ascending_sites rest ->
    ascending_sites (merge_loop fuel damageType src rest).
Proof.
  induction fuel as [|fuel IH]; intros src rest Hfuel Hsrc Hrest.
  - destruct src, rest; simpl in *; try (unfold merge_fuel in Hfuel; simpl in Hfuel; lia).
    constructor.
  - simpl. destruct src as [|site src']; [assumption|].
    destruct rest as [|cur rest'].
    + unfold ascending_sites. now rewrite tag_sites_fst.
    + unfold merge_fuel in *. simpl in Hfuel.
      destruct (site <? fst cur) eqn:Hlt.
      * apply Z.ltb_lt in Hlt. apply IH.
        -- simpl. lia.
        -- now inversion Hsrc.
        -- apply ascending_sites_cons; [assumption|].
           destruct (ascending_sites_cons_inv _ _ Hrest) as [_ Hall].
           constructor; [simpl; lia|].
           eapply Forall_impl; [|exact Hall]. simpl; intros; lia.
      * apply Z.ltb_ge in Hlt.
        destruct (ascending_sites_cons_inv _ _ Hrest) as [Hrest' Hall].
        apply ascending_sites_cons.
        -- apply IH; [simpl; lia | assumption | assumption].
        -- apply (merge_loop_Forall (fun e => fst cur <= fst e)); [|assumption].
           inversion Hsrc as [|? ? _ Hle]; subst.
           constructor; [assumption|].
           eapply Forall_impl; [|exact Hle]. simpl; intros; lia.
Qed.

(** At each base pair the entries of the vector come first, those of the
    source after them. *)
Lemma merge_loop_sites_at (k : Z) (fuel : nat) :
  forall (src : list Z) (rest : list (Z * Z)),
    (merge_fuel src rest <= fuel)%nat ->
    ascending_sites rest ->
    sites_at k (merge_loop fuel damageType src rest)
    = sites_at k rest ++ tag_sites damageType (only k src).
Proof.
  induction fuel as [|fuel IH]; intros src rest Hfuel Hrest.
  - destruct src, rest; simpl in *; try (unfold merge_fuel in Hfuel; simpl in Hfuel; lia).
    reflexivity.
  - simpl. destruct src as [|site src']; [simpl; now rewrite app_nil_r|].
    destruct rest as [|cur rest'].
    + now rewrite sites_at_tag_sites.
    + unfold merge_fuel in *. simpl in Hfuel.
      destruct (ascending_sites_cons_inv _ _ Hrest) as [Hrest' Hall].
      destruct (site <? fst cur) eqn:Hlt.
      * apply Z.ltb_lt in Hlt. rewrite IH.
        -- rewrite (sites_at_cons k (site, damageType)), only_cons. simpl fst.
           destruct (site =? k) eqn:Heq; [|reflexivity].
           apply Z.eqb_eq in Heq; subst site.
           rewrite (sites_at_above k (cur :: rest')); [reflexivity|].
           constructor; [assumption|].
           eapply Forall_impl; [|exact Hall]. simpl; intros; lia.
        -- simpl. lia.
        -- apply ascending_sites_cons; [assumption|].
           constructor; [simpl; lia|].
           eapply Forall_impl; [|exact Hall]. simpl; intros; lia.
      * rewrite (sites_at_cons k cur (merge_loop _ _ _ _)).
        rewrite IH; [|simpl; lia|assumption].
        rewrite (sites_at_cons k cur rest'). now rewrite app_assoc.
Qed.
End MergeLoop.

Lemma CombineSimpleDamage_recognised (ids : DamageIds)
    (ssb1 bd1 ssb2 bd2 dsb : list Z) :
  Forall (fun e => recognised ids (snd e) = true)
    (CombineSimpleDamage ids ssb1 bd1 ssb2 bd2 dsb).
Proof.
  assert (HS : forall l, Forall (fun site : Z =>
                 recognised ids (snd (site, fIdSSB ids)) = true) l).
  { intros l. apply Forall_forall. intros x _. unfold recognised; simpl.
    now rewrite Z.eqb_refl. }
  assert (HB : forall l, Forall (fun site : Z =>
                 recognised ids (snd (site, fIdBD ids)) = true) l).
  { intros l. apply Forall_forall. intros x _. unfold recognised; simpl.
    rewrite (Z.eqb_refl (fIdBD ids)). now rewrite orb_true_r. }
  assert (HD : forall l, Forall (fun site : Z =>
                 recognised ids (snd (site, fIdDSB ids)) = true) l).
  { intros l. apply Forall_forall. intros x _. unfold recognised; simpl.
    rewrite (Z.eqb_refl (fIdDSB ids)). now rewrite orb_true_r. }
  unfold CombineSimpleDamage, merge_damage.
  repeat (apply merge_loop_Forall; [auto|]).
  unfold tag_sites. rewrite Forall_map. apply HS.
Qed.

(** The result does not depend on the fuel beyond the bound. *)
Lemma merge_loop_fuel (ty : Z) (fuel1 : nat) :
  forall (fuel2 : nat) (src : list Z) (rest : list (Z * Z)),
    (merge_fuel src rest <= fuel1)%nat -> (merge_fuel src rest <= fuel2)%nat ->
    merge_loop fuel1 ty src rest = merge_loop fuel2 ty src rest.
Proof.
  unfold merge_fuel.
  induction fuel1 as [|fuel1 IH]; intros fuel2 src rest H1 H2.
  - destruct src, rest; simpl in H1; try lia. now destruct fuel2.
  - destruct fuel2 as [|fuel2].
    + destruct src, rest; simpl in H2; try lia. reflexivity.
    + simpl. destruct src as [|site src']; [reflexivity|].
      destruct rest as [|cur rest']; [reflexivity|].
      simpl in H1, H2.
      destruct (site <? fst cur).
      * apply IH; simpl; lia.
      * f_equal. apply IH; simpl; lia.
Qed.

(** The rounds of a merge loop of [CombineSimpleDamage]: the source is
    exhausted; the vector is exhausted and the rest of the source is
    pushed back; the site is inserted before the current element, which
    is looked at again; or the iterator moves on. *)
Lemma merge_damage_equations (ty : Z) :
  (forall acc, merge_damage ty [] acc = acc)
  /\ (forall src, merge_damage ty src [] = tag_sites ty src)
  /\ (forall site src cur rest,
        merge_damage ty (site :: src) (cur :: rest)
        = if site <? fst cur
          then merge_damage ty src ((site, ty) :: cur :: rest)
          else cur :: merge_damage ty (site :: src) rest).
Proof.
  unfold merge_damage. split; [|split].
  - intros acc. destruct (merge_fuel [] acc); simpl; [apply app_nil_r|reflexivity].
  - intros [|site src]; [reflexivity|].
    unfold merge_fuel. cbn [List.length]. simpl. reflexivity.
  - intros site src cur rest.
    unfold merge_fuel at 1. cbn [List.length].
    replace (2 * S (List.length src) + S (List.length rest))%nat
      with (S (2 * List.length src + List.length rest + 2))%nat by lia.
    cbn [merge_loop].
    destruct (site <? fst cur).
    + apply merge_loop_fuel; unfold merge_fuel; cbn [List.length]; lia.
    + f_equal. apply merge_loop_fuel; unfold merge_fuel; cbn [List.length]; lia.
Qed.

Lemma merge_damage_ascending (ty : Z) (src : list Z) (acc : list (Z * Z)) :
  ascending src -> ascending_sites acc -> ascending_sites (merge_damage ty src acc).
Proof. intros. now apply merge_loop_ascending. Qed.

Lemma merge_damage_sites_at (ty k : Z) (src : list Z) (acc : list (Z * Z)) :
  ascending_sites acc ->
  sites_at k (merge_damage ty src acc) = sites_at k acc ++ tag_sites ty (only k src).
Proof. intros. now apply merge_loop_sites_at. Qed.

Ltac ascending_list :=
  unfold ascending;
  repeat first [apply SSorted_nil | apply SSorted_cons | apply Forall_nil
               | apply Forall_cons];
  lia.

(** C9, as amended: merging five ascending source vectors gives a
    combined vector that is ascending by base pair index, and at each
    base pair index the entries stand in the order in which their source
    vectors were merged (SSB strand 1, BD strand 1, SSB strand 2,
    BD strand 2, DSB): an entry of a vector merged later is placed after
    the equal entries of the vectors merged earlier. *)
Theorem C9_merge_ascending_earlier_first :
  forall (ids : DamageIds) (ssb1 bd1 ssb2 bd2 dsb : list Z),
    ascending ssb1 -> ascending bd1 -> ascending ssb2 -> ascending bd2 ->
    ascending dsb ->
    ascending_sites (CombineSimpleDamage ids ssb1 bd1 ssb2 bd2 dsb)
    /\ forall k : Z,
         sites_at k (CombineSimpleDamage ids ssb1 bd1 ssb2 bd2 dsb)
         = ties_earlier_first ids k ssb1 bd1 ssb2 bd2 dsb.
Proof.
  intros ids ssb1 bd1 ssb2 bd2 dsb H1 H2 H3 H4 H5.
  unfold CombineSimpleDamage, ties_earlier_first.
  assert (A1 : ascending_sites (tag_sites (fIdSSB ids) ssb1))
    by (unfold ascending_sites; now rewrite tag_sites_fst).
  pose proof (merge_damage_ascending (fIdBD ids) bd1 _ H2 A1) as A2.
  pose proof (merge_damage_ascending (fIdSSB ids) ssb2 _ H3 A2) as A3.
  pose proof (merge_damage_ascending (fIdBD ids) bd2 _ H4 A3) as A4.
  split.
  - now apply merge_damage_ascending.
  - intros k.
    rewrite (merge_damage_sites_at _ k dsb _ A4).
    rewrite (merge_damage_sites_at _ k bd2 _ A3).
    rewrite (merge_damage_sites_at _ k ssb2 _ A2).
    rewrite (merge_damage_sites_at _ k bd1 _ A1).
    rewrite sites_at_tag_sites.
    now rewrite <- !app_assoc.
Qed.

Lemma C9_merge_ascending_earlier_first_witness :
  ascending [3; 4; 5; 7; 9] /\ ascending [1; 4; 7] /\ ascending [1; 12]
  /\ ascending [6; 7; 10; 12] /\ ascending [3; 5; 11; 14]
  /\ sites_at 7
       (CombineSimpleDamage ids012 [3; 4; 5; 7; 9] [1; 4; 7] [1; 12]
          [6; 7; 10; 12] [3; 5; 11; 14])
     = [(7, 0); (7, 1); (7, 1)].
Proof.
  repeat (split; [ascending_list|]).
  rewrite (proj2 (C9_merge_ascending_earlier_first ids012 [3; 4; 5; 7; 9]
                    [1; 4; 7] [1; 12] [6; 7; 10; 12] [3; 5; 11; 14]
                    ltac:(ascending_list) ltac:(ascending_list)
                    ltac:(ascending_list) ltac:(ascending_list)
                    ltac:(ascending_list)) 7).
  reflexivity.
Defined.

(** C9, as stated, fails: a strand-1 SSB and a strand-1 BD at base pair 5
    are combined with the SSB (merged first) in front, whereas the
    statement puts the BD (merged later) in front. *)
Lemma C9_later_first_counterexample :
  sites_at 5 (CombineSimpleDamage ids012 [5] [5] [] [] []) = [(5, 0); (5, 1)]
  /\ ties_later_first ids012 5 [5] [5] [] [] [] = [(5, 1); (5, 0)].
Proof. split; reflexivity. Qed.

(** ** Clustering *)

Lemma sum_snoc (l : list Z) (x : Z) : sum (l ++ [x]) = sum l + x.
Proof.
  unfold sum. induction l as [|y l IH]; simpl; [lia|]. rewrite IH. lia.
Qed.

Lemma quot2_bounds (c : Z) : 0 <= c -> 2 * Z.quot c 2 <= c <= 2 * Z.quot c 2 + 1.
Proof.
  intros Hc. rewrite Z.quot_div_nonneg by lia.
  pose proof (Z.div_mod c 2 ltac:(lia)).
  pose proof (Z.mod_pos_bound c 2 ltac:(lia)). lia.
Qed.

Section Clustering.
Variable ids : DamageIds.
Variable thr : Z.

Lemma AddDamageToCluster_Some (c : DamageCluster) (site ty : Z) (nc : bool)
    (T : Tallies) (c' : DamageCluster) (T' : Tallies) :
  AddDamageToCluster ids c site ty nc T = Some (c', T') ->
  fTotalSSB T' + numSSB c' = fTotalSSB T + numSSB c
  /\ fTotalBD T' + numBD c' = fTotalBD T + numBD c
  /\ fTotalDSB T' + numDSB c' = fTotalDSB T + numDSB c
  /\ fTotalDSB T' = fTotalDSB T - (if counts_as_DSB ids ty then 1 else 0)
  /\ fTotalComplexDSB T' = fTotalComplexDSB T
  /\ fTotalNonDSBCluster T' = fTotalNonDSBCluster T.
Proof.
  unfold AddDamageToCluster, counts_as_DSB.
  destruct (ty =? fIdSSB ids); [|destruct (ty =? fIdBD ids);
                                 [|destruct (ty =? fIdDSB ids)]];
    try discriminate; intros [= <- <-]; destruct nc; simpl; lia.
Qed.

Lemma AddDamageToCluster_recognised (c : DamageCluster) (site ty : Z) (nc : bool)
    (T : Tallies) :
  recognised ids ty = true ->
  exists c' T', AddDamageToCluster ids c site ty nc T = Some (c', T').
Proof.
  unfold AddDamageToCluster, recognised.
  destruct (ty =? fIdSSB ids); [eauto|].
  destruct (ty =? fIdBD ids); [eauto|].
  destruct (ty =? fIdDSB ids); [eauto|discriminate].
Qed.

Lemma RecordCluster_spec (c : DamageCluster) (T : Tallies) (L : ClusterLog) :
  forall c' T' L', RecordCluster c T L = (c', T', L') ->
  c' = DamageCluster_new
  /\ fTotalSSB T' = fTotalSSB T /\ fTotalBD T' = fTotalBD T
  /\ fTotalDSB T' = fTotalDSB T
  /\ recordedSSB L' = recordedSSB L + numSSB c
  /\ recordedBD L' = recordedBD L + numBD c
  /\ recordedDSB L' = recordedDSB L + (if 0 <? numDSB c then Z.quot (numDSB c) 2 else 0)
  /\ fTotalComplexDSB T' = fTotalComplexDSB T + (if 0 <? numDSB c then 1 else 0).
Proof.
  intros c' T' L'. unfold RecordCluster, recordedSSB, recordedBD, recordedDSB.
  destruct (0 <? numDSB c); intros [= <- <- <-]; simpl;
    rewrite ?sum_snoc; repeat split; lia.
Qed.

(** A cluster being recorded keeps the invariant. *)
Lemma scan_inv_record (kSSB kBD kDSB complex0 : Z) (s : Scan)
    (c : DamageCluster) (T : Tallies) (L : ClusterLog) :
  scan_inv kSSB kBD kDSB complex0 s ->
  RecordCluster (cluster s) (scanT s) (scanL s) = (c, T, L) ->
  scan_inv kSSB kBD kDSB complex0 (mkScan c true false T L)
  /\ fTotalDSB T = fTotalDSB (scanT s).
Proof.
  intros (Hf & He & Hn & HS & HB & HD1 & HD2 & HC) HR.
  apply RecordCluster_spec in HR.
  destruct HR as (-> & HS' & HB' & HD' & HrS & HrB & HrD & HrC).
  split; [|assumption].
  unfold scan_inv.
  cbn [cluster scanT scanL newCluster buildingCluster negb
       DamageCluster_new numSSB numBD numDSB].
  pose proof (quot2_bounds _ Hn) as Hq.
  destruct (0 <? numDSB (cluster s)) eqn:Hpos.
  - apply Z.ltb_lt in Hpos. repeat split; intros; try reflexivity; lia.
  - apply Z.ltb_ge in Hpos. repeat split; intros; try reflexivity; lia.
Qed.

(** An entry being added keeps the invariant. *)
Lemma scan_inv_add (kSSB kBD kDSB complex0 : Z) (s : Scan) (site ty : Z)
    (nc : bool) (c : DamageCluster) (T : Tallies) :
  scan_inv kSSB kBD kDSB complex0 s ->
  AddDamageToCluster ids (cluster s) site ty nc (scanT s) = Some (c, T) ->
  scan_inv kSSB kBD kDSB complex0 (mkScan c false true T (scanL s))
  /\ fTotalDSB T = fTotalDSB (scanT s) - (if counts_as_DSB ids ty then 1 else 0).
Proof.
  intros (Hf & He & Hn & HS & HB & HD1 & HD2 & HC) HA.
  apply AddDamageToCluster_Some in HA.
  destruct HA as (HS' & HB' & HD' & Hd & HC' & _).
  split; [|assumption].
  unfold scan_inv.
  cbn [cluster scanT scanL newCluster buildingCluster negb].
  destruct (counts_as_DSB ids ty);
    repeat split; intros; try reflexivity; try discriminate; lia.
Qed.
End Clustering.

Section ClusteringScan.
Variable ids : DamageIds.
Variable thr : Z.

Lemma count_DSB_cons (e : Z * Z) (l : list (Z * Z)) :
  count_DSB ids (e :: l)
  = (if counts_as_DSB ids (snd e) then 1 else 0) + count_DSB ids l.
Proof.
  unfold count_DSB. cbn [filter].
  destruct (counts_as_DSB ids (snd e)); cbn [List.length]; lia.
Qed.

Lemma count_DSB_nonneg (l : list (Z * Z)) : 0 <= count_DSB ids l.
Proof. unfold count_DSB; lia. Qed.

(** The scan keeps the invariant, and takes from [fTotalDSB] one unit
    for each DSB entry it adds to a cluster. *)
Lemma RecordClusteredDamage_loop_inv (kSSB kBD kDSB complex0 : Z) :
  forall (sites : list (Z * Z)) (sitePrev : Z * Z) (s s' : Scan),
    scan_inv kSSB kBD kDSB complex0 s ->
    RecordClusteredDamage_loop ids thr sitePrev sites s = Some s' ->
    scan_inv kSSB kBD kDSB complex0 s'
    /\ fTotalDSB (scanT s')
       = fTotalDSB (scanT s)
         - count_DSB ids (absorbed_from thr sitePrev (buildingCluster s) sites).
Proof.
  induction sites as [|siteCur sites IH]; intros sitePrev s s' Hinv Hloop.
  - simpl in Hloop. injection Hloop as <-. split; [assumption|].
    simpl. unfold count_DSB; simpl. lia.
  - simpl in Hloop. simpl absorbed_from.
    pose proof Hinv as (Hflags & _).
    destruct (G4int_sub (fst siteCur) (fst sitePrev) <=? thr).
    + destruct (newCluster s) eqn:Hnew.
      * (* a cluster is opened with the previous site *)
        assert (Hb : buildingCluster s = false)
          by (destruct (buildingCluster s); [discriminate|reflexivity]).
        rewrite Hb.
        destruct (AddDamageToCluster ids (cluster s) (fst sitePrev)
                    (snd sitePrev) true (scanT s)) as [[c1 T1]|] eqn:HA1;
          [|discriminate].
        destruct (scan_inv_add ids _ _ _ _ _ _ _ _ _ _ Hinv HA1) as [Hinv1 HT1].
        cbn [cluster scanT scanL newCluster buildingCluster] in Hloop.
        destruct (AddDamageToCluster ids c1 (fst siteCur) (snd siteCur) false T1)
          as [[c2 T2]|] eqn:HA2; [|discriminate].
        destruct (scan_inv_add ids _ _ _ _ _ _ _ _ _ _ Hinv1 HA2) as [Hinv2 HT2].
        cbn [cluster scanT scanL newCluster buildingCluster] in Hinv2, HT2.
        destruct (IH _ _ _ Hinv2 Hloop) as [Hinv' HT'].
        split; [assumption|].
        rewrite HT'. cbn [scanT buildingCluster app].
        rewrite !count_DSB_cons. lia.
      * (* the cluster being built grows *)
        assert (Hb : buildingCluster s = true)
          by (destruct (buildingCluster s); [reflexivity|discriminate]).
        rewrite Hb.
        cbv beta iota in Hloop. rewrite Hnew, Hb in Hloop.
        destruct (AddDamageToCluster ids (cluster s) (fst siteCur)
                    (snd siteCur) false (scanT s)) as [[c2 T2]|] eqn:HA2;
          [|discriminate].
        destruct (scan_inv_add ids _ _ _ _ _ _ _ _ _ _ Hinv HA2) as [Hinv2 HT2].
        destruct (IH _ _ _ Hinv2 Hloop) as [Hinv' HT'].
        split; [assumption|].
        rewrite HT'. cbn [scanT buildingCluster app].
        rewrite count_DSB_cons. lia.
    + destruct (buildingCluster s) eqn:Hb.
      * destruct (RecordCluster (cluster s) (scanT s) (scanL s))
          as [[c T] L] eqn:HR.
        destruct (scan_inv_record _ _ _ _ _ _ _ _ Hinv HR) as [Hinv1 HT1].
        destruct (IH _ _ _ Hinv1 Hloop) as [Hinv' HT'].
        split; [assumption|].
        rewrite HT'. cbn [scanT buildingCluster]. lia.
      * destruct (IH _ _ _ Hinv Hloop) as [Hinv' HT'].
        split; [assumption|].
        rewrite HT', Hb. reflexivity.
Qed.

(** The scan runs to its end when every label is one of the three. *)
Lemma RecordClusteredDamage_loop_total :
  forall (sites : list (Z * Z)) (sitePrev : Z * Z) (s : Scan),
    recognised ids (snd sitePrev) = true ->
    Forall (fun e => recognised ids (snd e) = true) sites ->
    exists s', RecordClusteredDamage_loop ids thr sitePrev sites s = Some s'.
Proof.
  induction sites as [|siteCur sites IH]; intros sitePrev s Hprev Hall.
  - simpl. eauto.
  - inversion Hall as [|? ? Hcur Hall']; subst. simpl.
    destruct (G4int_sub (fst siteCur) (fst sitePrev) <=? thr).
    + destruct (newCluster s) eqn:Hn.
      * destruct (AddDamageToCluster_recognised ids (cluster s) (fst sitePrev)
                    _ true (scanT s) Hprev) as (c1 & T1 & ->).
        cbn [cluster scanT scanL newCluster buildingCluster].
        destruct (AddDamageToCluster_recognised ids c1 (fst siteCur)
                    _ false T1 Hcur) as (c2 & T2 & ->).
        now apply IH.
      * destruct (AddDamageToCluster_recognised ids (cluster s) (fst siteCur)
                    _ false (scanT s) Hcur) as (c2 & T2 & H2).
        cbv beta iota. rewrite Hn, H2. now apply IH.
    + destruct (buildingCluster s).
      * destruct (RecordCluster (cluster s) (scanT s) (scanL s)) as [[c T] L].
        now apply IH.
      * now apply IH.
Qed.

(** Each entry is added to a cluster at most once. *)
Lemma absorbed_from_count (sites : list (Z * Z)) :
  forall (sitePrev : Z * Z) (joined : bool),
    count_DSB ids (absorbed_from thr sitePrev joined sites)
    <= (if joined then 0 else count_DSB ids [sitePrev]) + count_DSB ids sites.
Proof.
  induction sites as [|siteCur sites IH]; intros sitePrev joined;
    cbn [absorbed_from]; pose proof (count_DSB_nonneg [sitePrev]) as Hprev.
  - change (count_DSB ids []) with 0. destruct joined; lia.
  - rewrite (count_DSB_cons siteCur sites).
    destruct (G4int_sub (fst siteCur) (fst sitePrev) <=? thr).
    + specialize (IH siteCur true). cbv iota in IH.
      destruct joined; cbn [app]; rewrite !count_DSB_cons;
        change (count_DSB ids []) with 0; lia.
    + specialize (IH siteCur false). cbv iota in IH.
      rewrite count_DSB_cons in IH. change (count_DSB ids []) with 0 in IH.
      destruct joined; lia.
Qed.

Lemma absorbedDSB_bounds (l : list (Z * Z)) :
  0 <= absorbedDSB ids thr l <= count_DSB ids l.
Proof.
  unfold absorbedDSB. split; [apply count_DSB_nonneg|].
  destruct l as [|first sites]; cbn [absorbed].
  - lia.
  - pose proof (absorbed_from_count sites first false) as H. cbv iota in H.
    rewrite (count_DSB_cons first sites).
    rewrite (count_DSB_cons first []) in H.
    change (count_DSB ids []) with 0 in H. lia.
Qed.
End ClusteringScan.

Section ClusteringPass.
Variable ids : DamageIds.
Variable thr : Z.

(** The scan of a vector of at least two recognised entries, up to the
    final division: what it keeps and what it takes from [fTotalDSB]. *)
Lemma RecordClusteredDamage_scan_spec (first second : Z * Z)
    (sites : list (Z * Z)) (T : Tallies) (L : ClusterLog) :
  Forall (fun e => recognised ids (snd e) = true) (first :: second :: sites) ->
  exists T1 L1,
    RecordClusteredDamage_scan ids thr (first :: second :: sites) T L
    = Some (Some (T1, L1))
    /\ fTotalSSB T1 + recordedSSB L1 = fTotalSSB T + recordedSSB L
    /\ fTotalBD T1 + recordedBD L1 = fTotalBD T + recordedBD L
    /\ fTotalDSB T1
       = fTotalDSB T - absorbedDSB ids thr (first :: second :: sites)
    /\ fTotalDSB T1 + 2 * recordedDSB L1 <= fTotalDSB T + 2 * recordedDSB L
    /\ fTotalDSB T + 2 * recordedDSB L
       <= fTotalDSB T1 + 2 * recordedDSB L1
          + (fTotalComplexDSB T1 - fTotalComplexDSB T).
Proof.
  intros Hall. inversion Hall as [|? ? Hfirst Hrest]; subst.
  set (s0 := mkScan DamageCluster_new true false T L).
  assert (Hinv0 : scan_inv (fTotalSSB T + recordedSSB L)
                    (fTotalBD T + recordedBD L)
                    (fTotalDSB T + 2 * recordedDSB L) (fTotalComplexDSB T) s0).
  { unfold scan_inv, s0; simpl. repeat split; intros; try reflexivity; lia. }
  destruct (RecordClusteredDamage_loop_total ids thr (second :: sites) first s0
              Hfirst Hrest) as [s' Hloop].
  destruct (RecordClusteredDamage_loop_inv ids thr _ _ _ _ _ _ _ _ Hinv0 Hloop)
    as [Hinv' HT'].
  unfold RecordClusteredDamage_scan. fold s0. rewrite Hloop.
  unfold absorbedDSB. cbn [absorbed]. cbn [scanT buildingCluster s0] in HT'.
  destruct (buildingCluster s') eqn:Hb.
  - destruct (RecordCluster (cluster s') (scanT s') (scanL s'))
      as [[c T1] L1] eqn:HR.
    destruct (scan_inv_record _ _ _ _ _ _ _ _ Hinv' HR) as [Hinv1 HT1].
    destruct Hinv1 as (_ & He & _ & HS & HB & HD1 & HD2 & _).
    cbn [cluster scanT scanL newCluster buildingCluster] in *.
    destruct (He eq_refl) as (E1 & E2 & E3).
    exists T1, L1. repeat split; lia.
  - destruct Hinv' as (_ & He & _ & HS & HB & HD1 & HD2 & _).
    destruct (He Hb) as (E1 & E2 & E3).
    exists (scanT s'), (scanL s'). repeat split; lia.
Qed.
End ClusteringPass.

(** The clustering pass over recognised entries never exits. *)
Lemma RecordClusteredDamage_total (ids : DamageIds) (thr : Z)
    (seq : list (Z * Z)) (T : Tallies) (L : ClusterLog) :
  Forall (fun e => recognised ids (snd e) = true) seq ->
  exists r, RecordClusteredDamage ids thr seq T L = Some r.
Proof.
  intros Hall. destruct seq as [|first [|second sites]]; [cbn; eauto..|].
  destruct (RecordClusteredDamage_scan_spec ids thr first second sites T L Hall)
    as (T1 & L1 & Hscan & _).
  unfold RecordClusteredDamage. rewrite Hscan. eauto.
Qed.

(** A round of the loop over the split copies never exits: the labels
    that [CombineSimpleDamage] writes are the three recognised ones. *)
Lemma split_pass_total (ids : DamageIds) (s : Scorer) :
  exists s', split_pass ids s = Some s'.
Proof.
  unfold split_pass, split_pass_with.
  destruct (RecordDSB1D _ _ _) as [[dsb ssb1] ssb2].
  match goal with
  | |- context [RecordClusteredDamage ids ?thr ?seq ?T ?L] =>
      destruct (RecordClusteredDamage_total ids thr seq T L
                  (CombineSimpleDamage_recognised _ _ _ _ _ _))
        as [[T' L'] ->]
  end.
  cbn [bind]. eauto.
Qed.

Lemma split_loop_total (ids : DamageIds) (n : nat) :
  forall s, exists s', split_loop ids n s = Some s'.
Proof.
  unfold split_loop. induction n as [|n IH]; intros s; simpl; [eauto|].
  destruct (split_pass_total ids s) as [s1 H1]. unfold split_pass in H1.
  rewrite H1. cbn [bind]. apply IH.
Qed.

(** ** The clusters of a pass *)

Section ClusterPartition.
Variable ids : DamageIds.
Variable thr : Z.

Lemma count_DSB_app (l1 l2 : list (Z * Z)) :
  count_DSB ids (l1 ++ l2) = count_DSB ids l1 + count_DSB ids l2.
Proof. unfold count_DSB. rewrite filter_app, length_app. lia. Qed.

Lemma count_filter_cons {A : Type} (f : A -> bool) (x : A) (l : list A) :
  Z.of_nat (List.length (filter f (x :: l)))
  = (if f x then 1 else 0) + Z.of_nat (List.length (filter f l)).
Proof. cbn [filter]. destruct (f x); cbn [List.length]; lia. Qed.

Lemma halved_DSB_cons (c : list (Z * Z)) (cs : list (list (Z * Z))) :
  halved_DSB ids (c :: cs) = Z.quot (count_DSB ids c) 2 + halved_DSB ids cs.
Proof. reflexivity. Qed.

(** Recording the stretch [open]. *)
Lemma RecordCluster_at (open : list (Z * Z)) (s : Scan)
    (c : DamageCluster) (T : Tallies) (L : ClusterLog) :
  scan_at ids open s ->
  RecordCluster (cluster s) (scanT s) (scanL s) = (c, T, L) ->
  c = DamageCluster_new
  /\ fTotalDSB T = fTotalDSB (scanT s)
  /\ recordedDSB L = recordedDSB (scanL s) + Z.quot (count_DSB ids open) 2
  /\ fTotalComplexDSB T
     = fTotalComplexDSB (scanT s) + (if holds_DSB ids open then 1 else 0)
  /\ fTotalNonDSBCluster T
     = fTotalNonDSBCluster (scanT s) + (if holds_DSB ids open then 0 else 1).
Proof.
  intros (_ & _ & Hn). unfold RecordCluster, holds_DSB. rewrite Hn.
  pose proof (count_DSB_nonneg ids open) as Hpos.
  destruct (0 <? count_DSB ids open) eqn:E; intros [= <- <- <-];
    unfold recordedDSB;
    cbn [fTotalDSB fTotalComplexDSB fTotalNonDSBCluster fComplexDSBNumDSB].
  - rewrite sum_snoc. repeat split; lia.
  - apply Z.ltb_ge in E. replace (count_DSB ids open) with 0 by lia.
    change (Z.quot 0 2) with 0. repeat split; lia.
Qed.

Lemma RecordClusteredDamage_loop_clusters :
  forall (sites : list (Z * Z)) (sitePrev : Z * Z) (open : list (Z * Z))
         (s s' : Scan),
    scan_at ids open s ->
    RecordClusteredDamage_loop ids thr sitePrev sites s = Some s' ->
    let cs := clusters_from thr sitePrev open sites in
    fTotalDSB (fst (finish_scan s')) + count_DSB ids (List.concat cs)
    = fTotalDSB (scanT s) + count_DSB ids open
    /\ recordedDSB (snd (finish_scan s'))
       = recordedDSB (scanL s) + halved_DSB ids cs
    /\ fTotalComplexDSB (fst (finish_scan s'))
       = fTotalComplexDSB (scanT s)
         + Z.of_nat (List.length (filter (holds_DSB ids) cs))
    /\ fTotalNonDSBCluster (fst (finish_scan s'))
       = fTotalNonDSBCluster (scanT s)
         + Z.of_nat (List.length (filter (fun c => negb (holds_DSB ids c)) cs)).
Proof.
  induction sites as [|siteCur sites IH]; intros sitePrev open s s' Hat;
    cbn [RecordClusteredDamage_loop clusters_from].
  - intros [= <-]. pose proof Hat as (Hf & Hb & Hn). unfold finish_scan.
    destruct open as [|e open'].
    + rewrite Hb. cbn. unfold halved_DSB, count_DSB. cbn. repeat split; lia.
    + rewrite Hb.
      destruct (RecordCluster (cluster s) (scanT s) (scanL s)) as [[c T] L] eqn:E.
      destruct (RecordCluster_at _ _ _ _ _ Hat E) as (_ & H1 & H2 & H3 & H4).
      cbn [fst snd List.concat]. rewrite app_nil_r.
      rewrite halved_DSB_cons, !count_filter_cons.
      change (halved_DSB ids []) with 0. cbn [filter List.length].
      destruct (holds_DSB ids (e :: open')); cbn [negb]; repeat split; lia.
  - pose proof Hat as (Hf & Hb & Hn).
    destruct (G4int_sub (fst siteCur) (fst sitePrev) <=? thr).
    + destruct (newCluster s) eqn:Hnew; cbv beta iota zeta; rewrite ?Hnew.
      * assert (Hbf : buildingCluster s = false)
          by (destruct (buildingCluster s); [discriminate|reflexivity]).
        assert (Ho : open = []).
        { rewrite Hbf in Hb. destruct open; [reflexivity|discriminate]. }
        subst open.
        destruct (AddDamageToCluster ids (cluster s) (fst sitePrev)
                    (snd sitePrev) true (scanT s)) as [[c1 T1]|] eqn:E1;
          cbv beta iota; [|discriminate].
        cbn [cluster newCluster scanT scanL buildingCluster].
        destruct (AddDamageToCluster ids c1 (fst siteCur) (snd siteCur) false T1)
          as [[c2 T2]|] eqn:E2; cbv beta iota; [|discriminate].
        intros Hloop.
        destruct (AddDamageToCluster_Some ids _ _ _ _ _ _ _ E1)
          as (_ & _ & A1 & A2 & A3 & A4).
        destruct (AddDamageToCluster_Some ids _ _ _ _ _ _ _ E2)
          as (_ & _ & B1 & B2 & B3 & B4).
        assert (Hat' : scan_at ids ([sitePrev] ++ [siteCur])
                         (mkScan c2 false true T2 (scanL s))).
        { unfold scan_at. cbn [newCluster buildingCluster cluster app negb].
          refine (conj eq_refl (conj eq_refl _)).
          rewrite !count_DSB_cons. change (count_DSB ids []) with 0 in *.
          lia. }
        destruct (IH _ _ _ _ Hat' Hloop) as (H1 & H2 & H3 & H4).
        cbn [scanT scanL app] in *.
        rewrite !count_DSB_cons in H1. change (count_DSB ids []) with 0 in *.
        repeat split; lia.
      * assert (Hbt : buildingCluster s = true)
          by (destruct (buildingCluster s); [reflexivity|discriminate]).
        destruct open as [|e open']; [rewrite Hbt in Hb; discriminate|].
        destruct (AddDamageToCluster ids (cluster s) (fst siteCur)
                    (snd siteCur) false (scanT s)) as [[c2 T2]|] eqn:E2;
          cbv beta iota; [|discriminate].
        intros Hloop.
        destruct (AddDamageToCluster_Some ids _ _ _ _ _ _ _ E2)
          as (_ & _ & B1 & B2 & B3 & B4).
        assert (Hat' : scan_at ids ((e :: open') ++ [siteCur])
                         (mkScan c2 false (buildingCluster s) T2 (scanL s))).
        { unfold scan_at. cbn [newCluster buildingCluster cluster app].
          rewrite Hbt. refine (conj eq_refl (conj eq_refl _)).
          change (e :: open' ++ [siteCur]) with ((e :: open') ++ [siteCur]).
          rewrite count_DSB_app, (count_DSB_cons ids siteCur []).
          change (count_DSB ids []) with 0. lia. }
        destruct (IH _ _ _ _ Hat' Hloop) as (H1 & H2 & H3 & H4).
        cbn [scanT scanL] in *.
        rewrite count_DSB_app, (count_DSB_cons ids siteCur []) in H1.
        change (count_DSB ids []) with 0 in *.
        repeat split; lia.
    + destruct (buildingCluster s) eqn:Hbuild.
      * destruct open as [|e open']; [discriminate|].
        destruct (RecordCluster (cluster s) (scanT s) (scanL s))
          as [[c T] L] eqn:E.
        destruct (RecordCluster_at (e :: open') s c T L Hat E)
          as (-> & R1 & R2 & R3 & R4).
        intros Hloop.
        assert (Hat' : scan_at ids [] (mkScan DamageCluster_new true false T L)).
        { unfold scan_at. cbn. repeat split. }
        destruct (IH _ _ _ _ Hat' Hloop) as (H1 & H2 & H3 & H4).
        cbn [scanT scanL List.concat] in *.
        change (count_DSB ids []) with 0 in *.
        rewrite halved_DSB_cons, count_DSB_app, !count_filter_cons.
        destruct (holds_DSB ids (e :: open')); cbn [negb]; repeat split; lia.
      * destruct open as [|e open']; [|discriminate].
        intros Hloop. exact (IH _ _ _ _ Hat Hloop).
Qed.
End ClusterPartition.

Lemma even_halves (n : Z) : Z.even n = true -> 2 * Z.quot n 2 = n.
Proof.
  intros H. apply Z.even_spec in H. destruct H as [k ->].
  rewrite (Z.mul_comm 2 k), Z.quot_mul by lia. lia.
Qed.

Lemma halved_DSB_even (ids : DamageIds) (cs : list (list (Z * Z))) :
  Forall (fun c => Z.even (count_DSB ids c) = true) cs ->
  2 * halved_DSB ids cs = count_DSB ids (List.concat cs).
Proof.
  induction 1 as [|c cs Hc _ IH].
  - reflexivity.
  - rewrite halved_DSB_cons. cbn [List.concat]. rewrite count_DSB_app.
    pose proof (even_halves _ Hc). lia.
Qed.

Lemma last_nonempty {A : Type} (l : list A) (x d d' : A) :
  last (x :: l) d = last (x :: l) d'.
Proof.
  revert x. induction l as [|y l IH]; intros x; [reflexivity|].
  change (last (y :: l) d = last (y :: l) d'). apply IH.
Qed.

Lemma chained_from_snoc (thr : Z) (l : list (Z * Z)) :
  forall (first siteCur : Z * Z),
    chained_from thr first l ->
    G4int_sub (fst siteCur) (fst (last l first)) <= thr ->
    chained_from thr first (l ++ [siteCur]).
Proof.
  induction l as [|x l IH]; intros first siteCur Hc Hlast.
  - cbn in *. auto.
  - cbn [app chained_from] in *. destruct Hc as [H1 H2]. split; [exact H1|].
    apply IH; [exact H2|].
    replace (last l x) with (last (x :: l) first); [exact Hlast|].
    destruct l as [|y l]; [reflexivity|].
    change (last (y :: l) first = last (y :: l) x). apply last_nonempty.
Qed.

Lemma clusters_from_chained (thr : Z) (sites : list (Z * Z)) :
  forall (sitePrev : Z * Z) (open : list (Z * Z)),
    (open = []
     \/ ((2 <= List.length open)%nat /\ chained thr open
         /\ last open sitePrev = sitePrev)) ->
    Forall (fun c => (2 <= List.length c)%nat /\ chained thr c)
      (clusters_from thr sitePrev open sites).
Proof.
  induction sites as [|siteCur sites IH]; intros sitePrev open Ho;
    cbn [clusters_from].
  - destruct open as [|e open']; [constructor|].
    destruct Ho as [Ho|(Hl & Hc & _)]; [discriminate|].
    constructor; [now split|constructor].
  - destruct (G4int_sub (fst siteCur) (fst sitePrev) <=? thr) eqn:Hgap.
    + apply Z.leb_le in Hgap. apply IH. right.
      destruct open as [|e open'].
      * cbn. repeat split; [lia|exact Hgap].
      * destruct Ho as [Ho|(Hl & Hc & Hlast)]; [discriminate|].
        rewrite length_app, last_last. cbn [List.length] in *.
        split; [lia|]. split; [|reflexivity].
        change ((e :: open') ++ [siteCur]) with (e :: (open' ++ [siteCur])).
        cbn [chained] in *. apply chained_from_snoc; [exact Hc|].
        replace (last open' e) with sitePrev; [exact Hgap|].
        rewrite <- Hlast. destruct open' as [|y l]; [reflexivity|].
        change (last (y :: l) sitePrev = last (y :: l) e). apply last_nonempty.
    + destruct open as [|e open'].
      * apply IH. now left.
      * destruct Ho as [Ho|(Hl & Hc & _)]; [discriminate|].
        constructor; [now split|]. apply IH. now left.
Qed.

(** The scan of a vector of at least two recognised entries in terms of
    its clusters. *)
Lemma RecordClusteredDamage_scan_clusters (ids : DamageIds) (thr : Z)
    (first second : Z * Z) (sites : list (Z * Z)) (T T1 : Tallies)
    (L L1 : ClusterLog) :
  RecordClusteredDamage_scan ids thr (first :: second :: sites) T L
  = Some (Some (T1, L1)) ->
  let cs := clusters thr (first :: second :: sites) in
  fTotalDSB T1 + count_DSB ids (List.concat cs) = fTotalDSB T
  /\ recordedDSB L1 = recordedDSB L + halved_DSB ids cs
  /\ fTotalComplexDSB T1
     = fTotalComplexDSB T + Z.of_nat (List.length (filter (holds_DSB ids) cs))
  /\ fTotalNonDSBCluster T1
     = fTotalNonDSBCluster T
       + Z.of_nat (List.length (filter (fun c => negb (holds_DSB ids c)) cs)).
Proof.
  unfold RecordClusteredDamage_scan, clusters.
  destruct (RecordClusteredDamage_loop ids thr first (second :: sites) _)
    as [s'|] eqn:Hloop; [|discriminate].
  intros Hres.
  assert (Hfin : finish_scan s' = (T1, L1)).
  { unfold finish_scan. destruct (buildingCluster s').
    - destruct (RecordCluster (cluster s') (scanT s') (scanL s')) as [[c T'] L'].
      now injection Hres as <- <-.
    - now injection Hres as <- <-. }
  assert (Hat : scan_at ids [] (mkScan DamageCluster_new true false T L))
    by (unfold scan_at; cbn; repeat split).
  pose proof (RecordClusteredDamage_loop_clusters ids thr _ _ _ _ _ Hat Hloop)
    as H.
  rewrite Hfin in H. cbn [fst snd scanT scanL] in H.
  change (count_DSB ids []) with 0 in H. cbv zeta in H.
  destruct H as (H1 & H2 & H3 & H4). repeat split; lia.
Qed.

(** C8, as amended: a clustering pass over a vector of recognised entries
    returns, and the SSB and BD laws hold as stated, the tally before
    being the tally after plus the counts of the clusters the pass
    records.  For DSB the tally and the cluster counters count DSB
    entries, two for each DSB, and each is divided by two, a cluster
    counter when the cluster is recorded and the tally when the pass
    ends: for a pass over at least two entries in which the tally before
    and the number of DSB entries of every cluster are even, the tally
    before is twice the sum of the tally after and the counts recorded.
    A pass over fewer than two entries changes nothing. *)
Theorem C8_cluster_tally_conservation :
  forall (ids : DamageIds) (thr : Z) (seq : list (Z * Z)) (T : Tallies)
         (L : ClusterLog),
    Forall (fun e => recognised ids (snd e) = true) seq ->
    exists T' L',
      RecordClusteredDamage ids thr seq T L = Some (T', L')
      /\ fTotalSSB T = fTotalSSB T' + (recordedSSB L' - recordedSSB L)
      /\ fTotalBD T = fTotalBD T' + (recordedBD L' - recordedBD L)
      /\ ((List.length seq < 2)%nat -> T' = T /\ L' = L)
      /\ ((2 <= List.length seq)%nat ->
          Z.even (fTotalDSB T) = true ->
          Forall (fun c => Z.even (count_DSB ids c) = true) (clusters thr seq) ->
          fTotalDSB T = 2 * (fTotalDSB T' + (recordedDSB L' - recordedDSB L))).
Proof.
  intros ids thr seq T L Hall.
  destruct seq as [|first [|second sites]].
  - exists T, L. cbn. repeat split; try lia; simpl in *; lia.
  - exists T, L. cbn. repeat split; try lia; simpl in *; lia.
  - destruct (RecordClusteredDamage_scan_spec ids thr first second sites T L Hall)
      as (T1 & L1 & Hscan & HS & HB & _).
    destruct (RecordClusteredDamage_scan_clusters ids thr _ _ _ _ _ _ _ Hscan)
      as (HD & HR & _).
    unfold RecordClusteredDamage. rewrite Hscan.
    eexists _, _. split; [reflexivity|].
    destruct T1 as [a b d c n];
      cbn [fTotalSSB fTotalBD fTotalDSB fTotalComplexDSB set_fTotalDSB] in *.
    split; [lia|]. split; [lia|].
    split; [simpl; lia|].
    intros _ Heven Hcs.
    pose proof (halved_DSB_even ids _ Hcs) as Hh.
    assert (Hd : Z.even d = true).
    { replace d with (fTotalDSB T
                      - 2 * halved_DSB ids (clusters thr (first :: second :: sites)))
        by lia.
      rewrite Z.even_sub, Z.even_mul, Heven. reflexivity. }
    pose proof (even_halves d Hd). lia.
Qed.

Lemma C8_cluster_tally_conservation_witness :
  Forall (fun e => recognised ids012 (snd e) = true)
    [(1, 0); (2, 1); (3, 2); (4, 2); (100, 0)]
  /\ clusters 2 [(1, 0); (2, 1); (3, 2); (4, 2); (100, 0)]
     = [[(1, 0); (2, 1); (3, 2); (4, 2)]]
  /\ exists T' L',
       RecordClusteredDamage ids012 2 [(1, 0); (2, 1); (3, 2); (4, 2); (100, 0)]
         (mkTallies 2 1 2 0 0) ClusterLog_empty = Some (T', L')
       /\ 2 = fTotalSSB T' + (recordedSSB L' - 0)
       /\ 1 = fTotalBD T' + (recordedBD L' - 0)
       /\ 2 = 2 * (fTotalDSB T' + (recordedDSB L' - 0)).
Proof.
  split; [repeat constructor|]. split; [reflexivity|].
  destruct (C8_cluster_tally_conservation ids012 2
              [(1, 0); (2, 1); (3, 2); (4, 2); (100, 0)]
              (mkTallies 2 1 2 0 0) ClusterLog_empty
              ltac:(repeat constructor))
    as (T' & L' & H & HS & HB & _ & HD).
  exists T', L'. repeat split; try assumption.
  apply HD; [cbn; lia | reflexivity | repeat constructor].
Defined.

(** C8, as stated, fails for DSB: one DSB with its strand positions 50
    base pairs apart enters the pass as two entries, [fTotalDSB] being 2;
    nothing clusters, and the pass leaves [fTotalDSB] at 1 with no
    cluster recorded, so that 2 would have to be 1 + 0. *)
Lemma C8_DSB_law_counterexample :
  RecordClusteredDamage ids012 40 [(0, 2); (50, 2)] (mkTallies 0 0 2 0 0)
    ClusterLog_empty
  = Some (mkTallies 0 0 1 0 0, ClusterLog_empty)
  /\ fTotalDSB (mkTallies 0 0 2 0 0) = 2
  /\ fTotalDSB (mkTallies 0 0 1 0 0) + recordedDSB ClusterLog_empty = 1.
Proof. repeat split. Qed.

(** ** The division of the DSB tally *)

(** What a round of the loop over the split copies leaves in
    [fTotalDSB]: the round always returns; when its combined damage
    vector has at least two entries the tally is half of what the round
    found, added and did not move into clusters, and when the vector is
    shorter the clustering returns before its division. *)
Lemma split_pass_fTotalDSB :
  forall (ids : DamageIds) (s : Scorer),
    exists s' : Scorer,
      split_pass ids s = Some s'
      /\ fTotalDSB (tallies s')
         = if (List.length (fIndicesSimple (indices s')) <? 2)%nat
           then fTotalDSB (tallies s)
                + Z.of_nat (List.length (fIndicesDSB1D (indices s')))
           else Z.quot
                  (fTotalDSB (tallies s)
                   + Z.of_nat (List.length (fIndicesDSB1D (indices s')))
                   - absorbedDSB ids (fThresDistForCluster (params s))
                       (fIndicesSimple (indices s')))
                  2.
Proof.
  intros ids s. unfold split_pass, split_pass_with.
  destruct (RecordDSB1D _ _ _) as [[dsb ssb1] ssb2].
  pose proof (CombineSimpleDamage_recognised ids ssb1
                (RecordSimpleDamage (fThresEdepForBD (params s))
                   (fVEdepStrand1Base (edep s)))
                ssb2
                (RecordSimpleDamage (fThresEdepForBD (params s))
                   (fVEdepStrand2Base (edep s)))
                dsb) as Hrec.
  destruct (CombineSimpleDamage _ _ _ _ _ _) as [|first [|second sites]].
  - cbn. eexists. split; reflexivity.
  - cbn. eexists. split; reflexivity.
  - destruct (RecordClusteredDamage_scan_spec ids
                (fThresDistForCluster (params s)) first second sites
                (mkTallies
                   (fTotalSSB (tallies s)
                    + Z.of_nat (List.length ssb1 + List.length ssb2))
                   (fTotalBD (tallies s)
                    + Z.of_nat
                        (List.length
                           (RecordSimpleDamage (fThresEdepForBD (params s))
                              (fVEdepStrand1Base (edep s)))
                         + List.length
                             (RecordSimpleDamage (fThresEdepForBD (params s))
                                (fVEdepStrand2Base (edep s)))))
                   (fTotalDSB (tallies s) + Z.of_nat (List.length dsb))
                   (fTotalComplexDSB (tallies s))
                   (fTotalNonDSBCluster (tallies s)))
                (clusterLog s) Hrec)
      as (T1 & L1 & Hscan & _ & _ & HD & _).
    unfold RecordClusteredDamage. rewrite Hscan. cbn [bind].
    eexists. split; [reflexivity|].
    cbn [tallies indices fIndicesSimple fIndicesDSB1D set_fTotalDSB fTotalDSB]
      in *.
    rewrite HD. reflexivity.
Qed.

(** C4 at the failing input: with the DSB distance set to 50, an event
    in two fibres, each holding one DSB that stays outside any cluster,
    ends with [fTotalDSB] at 1 for its two DSBs, the rows of the two
    fibres reporting 1 and 1: the clustering of the second fibre halves
    the tally that the first has left, which is already a number of
    DSBs.  When the second fibre instead holds two distant strand-1
    breaks and no DSB, its clustering halves the one DSB of the first
    fibre to 0.  The division applied once, when all fibres are done,
    gives 2 and 1. *)
Theorem C4_DSB_tally_halved_in_every_round :
  totalDSB_after_event (UserHookForEndOfEvent ids012) two_fibre_parameters
    two_fibre_hits = Some 1
  /\ option_map (fun s => map rowDSB (fNtuple s))
       (run ids012 two_fibre_parameters [(0, two_fibre_hits)])
     = Some [1; 1]
  /\ totalDSB_after_event (UserHookForEndOfEvent_dividing_once ids012)
       two_fibre_parameters two_fibre_hits = Some 2
  /\ totalDSB_after_event (UserHookForEndOfEvent ids012) two_fibre_parameters
       later_fibre_hits = Some 0
  /\ option_map (fun s => map rowDSB (fNtuple s))
       (run ids012 two_fibre_parameters [(0, later_fibre_hits)])
     = Some [1; 0]
  /\ totalDSB_after_event (UserHookForEndOfEvent_dividing_once ids012)
       two_fibre_parameters later_fibre_hits = Some 1.
Proof. repeat split; vm_compute; reflexivity. Qed.

(** ** DSB pairing on the data of the source *)

(** C6, as amended: on the strand-1 sites 0, 3, 5, 9 and the strand-2
    sites 2, 8 with the DSB distance 1, the pairing finds two DSBs, the
    sites 3 and 2 and the sites 9 and 8 being one base pair apart; it
    returns 2, 3, 8, 9, leaves the sites 0 and 5 in the strand-1 vector
    as simple SSBs, and leaves the strand-2 vector empty; a round of the
    scorer on a fibre with these breaks builds its damage vectors so. *)
Theorem C6_scenario_pairs_two_DSB :
  RecordDSB1D 1 [0; 3; 5; 9] [2; 8] = ([2; 3; 8; 9], [0; 5], [])
  /\ DSB_pairs 1 [2; 3; 8; 9]
  /\ pass_indices ids012 scenario1_params scenario1_maps
     = mkIndices [0; 5] [] [] [] [2; 3; 8; 9]
         [(0, 0); (2, 2); (3, 2); (5, 0); (8, 2); (9, 2)].
Proof.
  split; [reflexivity|]. split.
  - cbn. lia.
  - vm_compute. reflexivity.
Qed.

(** C6, as stated, fails: the DSB vector is not empty and neither SSB
    vector is left as it was. *)
Lemma C6_no_DSB_counterexample :
  (let '(dsb, ssb1, ssb2) := RecordDSB1D 1 [0; 3; 5; 9] [2; 8] in
   (eqb_list dsb [], eqb_list ssb1 [0; 3; 5; 9], eqb_list ssb2 [2; 8]))
  = (false, false, false).
Proof. reflexivity. Qed.

(** C7 at the failing input: strand-1 breaks at base pairs 0 and 1 and
    strand-2 breaks at 5 and 6, the DSB distance being 10, give the DSB
    vector 0, 5, 1, 6, which is not in ascending order, and the combined
    damage vector built from it is not ordered either.  In a run with
    the DSB distance 100 and breaks at 0, 1 and 90, 91 the vector is
    0, 90, 1, 91; the clustering then takes the step back from 90 to 1
    for a gap within the cluster distance and records one complex DSB of
    size -88. *)
Theorem C7_DSB_vector_out_of_order :
  RecordDSB1D 10 [0; 1] [5; 6] = ([0; 5; 1; 6], [], [])
  /\ CombineSimpleDamage ids012 [] [] [] [] [0; 5; 1; 6]
     = [(0, 2); (5, 2); (1, 2); (6, 2)]
  /\ option_map
       (fun s =>
          (fIndicesDSB1D (indices s), fIndicesSimple (indices s),
           fComplexDSBSizes (clusterLog s), fNtuple s))
       (run ids012 [("BasePairDistanceForDefiningDSB"%string, IntegerValue 100)]
          [(0, [backbone1 0 0 (20 * eV)%float; backbone1 0 1 (20 * eV)%float;
                backbone2 0 90 (20 * eV)%float; backbone2 0 91 (20 * eV)%float])])
     = Some ([0; 90; 1; 91], [(0, 2); (90, 2); (1, 2); (91, 2)], [-88],
             [mkRow 0 0 1 0 1 0]).
Proof. repeat split; vm_compute; reflexivity. Qed.

(** ** Runs of the scorer on sample events *)

(** C1 at the failing input: two events, each with one strand-1 break in
    fibre 0.  The tallies are those of the constructor before the first
    event only; the second event starts with [fTotalSSB] at 1 and its
    row reports two SSBs, whereas the same event alone reports one. *)
Theorem C1_tallies_carried_over :
  option_map tallies
    (run ids012 [] [(0, [backbone1 0 5 (20 * eV)%float])])
  = Some (mkTallies 1 0 0 0 0)
  /\ option_map fNtuple
       (run ids012 []
          [(0, [backbone1 0 5 (20 * eV)%float]);
           (1, [backbone1 0 500 (20 * eV)%float])])
     = Some [mkRow 0 1 0 0 0 0; mkRow 1 2 0 0 0 0]
  /\ option_map fNtuple
       (run ids012 [] [(1, [backbone1 0 500 (20 * eV)%float])])
     = Some [mkRow 1 1 0 0 0 0].
Proof. repeat split; vm_compute; reflexivity. Qed.

(** C2 at the failing input: an event with a strand-1 break and 10 eV in
    a strand-1 base of fibre 0.  When the hook returns the base maps
    still hold the deposit; a second event that deposits another 10 eV
    in the same base then reports a base damage, though neither event
    reaches the threshold of 17.5 eV there. *)
Theorem C2_base_maps_not_cleared :
  option_map
    (fun s =>
       (StdMap.empty (fGenVEdepStrand1Backbone (edep s)),
        StdMap.empty (fGenVEdepStrand2Backbone (edep s)),
        StdMap.keys (StdMap.get [] 0 (StdMap.get [] 0 (fGenVEdepStrand1Base (edep s)))),
        StdMap.keys (StdMap.get [] 0 (fVEdepStrand1Base (edep s)))))
    (run ids012 []
       [(0, [backbone1 0 5 (20 * eV)%float; base1 0 7 (10 * eV)%float])])
  = Some (true, true, [7], [7])
  /\ option_map fNtuple
       (run ids012 []
          [(0, [backbone1 0 5 (20 * eV)%float; base1 0 7 (10 * eV)%float]);
           (1, [backbone1 0 500 (20 * eV)%float; base1 0 7 (10 * eV)%float])])
     = Some [mkRow 0 1 0 0 0 0; mkRow 1 2 0 1 0 0].
Proof. split; vm_compute; reflexivity. Qed.

(** C3 at the failing input: the map is passed by value, so after the
    call the caller's map is what it was and a second call returns the
    same site again; with two split copies the one break of the event is
    extracted, and counted, in both rounds. *)
Theorem C3_caller_map_not_drained :
  call_RecordSimpleDamage (17.5 * eV)%float [(0, [(5, (20 * eV)%float)])]
  = ([5], [(0, [(5, (20 * eV)%float)])])
  /\ RecordSimpleDamage (17.5 * eV)%float
       (snd (call_RecordSimpleDamage (17.5 * eV)%float
               [(0, [(5, (20 * eV)%float)])]))
     = [5]
  /\ option_map fNtuple
       (run ids012 [("NumberOfSplit"%string, IntegerValue 2)]
          [(0, [backbone1 0 5 (20 * eV)%float])])
     = Some [mkRow 0 1 0 0 0 0; mkRow 0 2 0 0 0 0].
Proof. repeat split; vm_compute; reflexivity. Qed.

(** C5 at the failing input: with [EnergyThresholdForHavingBD] set to
    30 eV the constructor leaves the BD threshold at its default and
    overwrites the SSB threshold with the value of another parameter,
    [EnergyThresholdToInduceBD]; when that one is not set the run ends
    in the constructor. *)
Theorem C5_BD_parameter_sets_SSB_threshold :
  option_map (fun s => (fThresEdepForSSB (params s), fThresEdepForBD (params s)))
    (ScoreClusteredDNADamage
       [("EnergyThresholdForHavingBD"%string, DoubleValue (30 * eV)%float);
        ("EnergyThresholdToInduceBD"%string, DoubleValue (25 * eV)%float)])
  = Some ((25 * eV)%float, (17.5 * eV)%float)
  /\ ScoreClusteredDNADamage
       [("EnergyThresholdForHavingBD"%string, DoubleValue (30 * eV)%float)]
     = None.
Proof. split; vm_compute; reflexivity. Qed.

(** ** Extraction in the loop over the split copies *)

(** C10: [RecordSimpleDamage] returns exactly the keys of the inner map
    under the split index 0 whose energy reaches the threshold, in the
    ascending order of the map; the bindings under any other split index
    play no part; and since the maps of the fibre are not changed by a
    round of the loop over the split copies, the loop runs through any
    number of rounds and every round extracts the same damage vectors. *)
Theorem C10_extraction_reads_split_zero :
  forall (ids : DamageIds) (t : float) (m : Map2) (n : nat) (s : Scorer),
    StdMap.wf (StdMap.get [] 0 m) ->
    RecordSimpleDamage t m = over_threshold t (StdMap.get [] 0 m)
    /\ StronglySorted Z.lt (RecordSimpleDamage t m)
    /\ (forall k : Z,
          In k (RecordSimpleDamage t m) <->
          exists e : float,
            StdMap.find k (StdMap.get [] 0 m) = Some e /\ PrimFloat.leb t e = true)
    /\ (forall m' : Map2,
          StdMap.get [] 0 m' = StdMap.get [] 0 m ->
          RecordSimpleDamage t m' = RecordSimpleDamage t m)
    /\ exists s' : Scorer,
         split_loop ids (S n) s = Some s'
         /\ edep s' = edep s
         /\ indices s' = pass_indices ids (params s) (edep s).
Proof.
  intros ids t m n s Hwf.
  rewrite RecordSimpleDamage_spec.
  split; [reflexivity|].
  split; [now apply over_threshold_sorted|].
  split; [intros k; now apply over_threshold_In|].
  split.
  - intros m' Hm'. now rewrite RecordSimpleDamage_spec, Hm'.
  - destruct (split_loop_total ids (S n) s) as [s' Hloop].
    exists s'. split; [assumption|]. split.
    + now apply split_loop_with_frame in Hloop.
    + now apply split_loop_with_indices in Hloop.
Qed.

Lemma C10_extraction_reads_split_zero_witness :
  StdMap.wf (StdMap.get [] 0 sample_map2)
  /\ RecordSimpleDamage (17.5 * eV)%float sample_map2 = [5; 12]
  /\ exists s' : Scorer,
       split_loop ids012 2 sample_fibre_state = Some s'
       /\ edep s' = edep sample_fibre_state
       /\ fIndicesSSB1 (indices s') = [5; 12].
Proof.
  split; [repeat constructor|].
  destruct (C10_extraction_reads_split_zero ids012 (17.5 * eV)%float
              sample_map2 1 sample_fibre_state ltac:(repeat constructor))
    as (H1 & _ & _ & _ & s' & Hloop & Hedep & Hind).
  split; [rewrite H1; vm_compute; reflexivity|].
  exists s'. split; [assumption|]. split; [assumption|].
  rewrite Hind. vm_compute. reflexivity.
Defined.

(** ** 32-bit differences *)

Lemma G4int_wrap_exact (z : Z) :
  -2147483648 <= z < 2147483648 -> G4int_wrap z = z.
Proof. intros H. unfold G4int_wrap. rewrite Z.mod_small by lia. lia. Qed.

Lemma G4int_sub_exact (a b : Z) :
  G4int_half a -> G4int_half b -> G4int_sub a b = a - b.
Proof.
  unfold G4int_half, G4int_sub. intros Ha Hb. apply G4int_wrap_exact. lia.
Qed.

Lemma G4int_abs_sub_exact (a b : Z) :
  G4int_half a -> G4int_half b -> G4int_abs (G4int_sub a b) = Z.abs (a - b).
Proof.
  intros Ha Hb. rewrite (G4int_sub_exact a b Ha Hb).
  unfold G4int_half, G4int_abs in *. apply G4int_wrap_exact. lia.
Qed.

Ltac G4int_half_list :=
  repeat (apply Forall_cons; [unfold G4int_half; cbn; lia|]); apply Forall_nil.

(** ** The pairing engine in general *)

Section Pairing.
Variable thr : Z.

(** The three branches of a round of the loop of [RecordDSB1D]. *)
Lemma RecordDSB1D_from_cons (s1 : Z) (l1 : list Z) (s2 : Z) (l2 : list Z) :
  RecordDSB1D_from thr (s1 :: l1) (s2 :: l2)
  = if G4int_abs (G4int_sub s2 s1) <=? thr then
      let '(dsb, r1, r2) := RecordDSB1D_from thr l1 l2 in
      ((if s1 <=? s2 then [s1; s2] else [s2; s1]) ++ dsb, r1, r2)
    else if G4int_sub s2 s1 <? 0 then
      let '(dsb, r1, r2) := RecordDSB1D_from thr (s1 :: l1) l2 in
      (dsb, r1, s2 :: r2)
    else
      let '(dsb, r1, r2) := RecordDSB1D_from thr l1 (s2 :: l2) in
      (dsb, s1 :: r1, r2).
Proof. reflexivity. Qed.

(** The same where the difference of the two sites does not overflow. *)
Lemma RecordDSB1D_from_cons_exact (s1 : Z) (l1 : list Z) (s2 : Z) (l2 : list Z) :
  G4int_half s1 -> G4int_half s2 ->
  RecordDSB1D_from thr (s1 :: l1) (s2 :: l2)
  = if Z.abs (s2 - s1) <=? thr then
      let '(dsb, r1, r2) := RecordDSB1D_from thr l1 l2 in
      ((if s1 <=? s2 then [s1; s2] else [s2; s1]) ++ dsb, r1, r2)
    else if s2 - s1 <? 0 then
      let '(dsb, r1, r2) := RecordDSB1D_from thr (s1 :: l1) l2 in
      (dsb, r1, s2 :: r2)
    else
      let '(dsb, r1, r2) := RecordDSB1D_from thr l1 (s2 :: l2) in
      (dsb, s1 :: r1, r2).
Proof.
  intros H1 H2. rewrite RecordDSB1D_from_cons.
  now rewrite (G4int_abs_sub_exact s2 s1 H2 H1), (G4int_sub_exact s2 s1 H2 H1).
Qed.

Lemma RecordDSB1D_from_nil_r (l1 : list Z) :
  RecordDSB1D_from thr l1 [] = ([], l1, []).
Proof. destruct l1; reflexivity. Qed.

(** For sites whose differences do not overflow, the DSB vector holds
    whole pairs, each in order and within the DSB distance, and every
    site of the two SSB vectors is either left in its vector or in the
    DSB vector. *)
Theorem RecordDSB1D_pairs :
  forall l1 l2 : list Z,
    Forall G4int_half l1 -> Forall G4int_half l2 ->
    DSB_pairs thr (fst (fst (RecordDSB1D thr l1 l2)))
    /\ (List.length (fst (fst (RecordDSB1D thr l1 l2)))
        + List.length (snd (fst (RecordDSB1D thr l1 l2)))
        + List.length (snd (RecordDSB1D thr l1 l2))
        = List.length l1 + List.length l2)%nat.
Proof.
  unfold RecordDSB1D.
  induction l1 as [|s1 l1 IH1]; intros l2 B1 B2.
  - simpl. split; [exact I|reflexivity].
  - inversion B1 as [|? ? Bs1 B1']; subst.
    induction l2 as [|s2 l2 IH2].
    + rewrite RecordDSB1D_from_nil_r. simpl. split; [exact I|lia].
    + inversion B2 as [|? ? Bs2 B2']; subst.
      rewrite (RecordDSB1D_from_cons_exact _ _ _ _ Bs1 Bs2).
      destruct (Z.abs (s2 - s1) <=? thr) eqn:Hd.
      * specialize (IH1 l2 B1' B2').
        destruct (RecordDSB1D_from thr l1 l2) as [[dsb r1] r2].
        cbn [fst snd] in *. apply Z.leb_le in Hd.
        destruct (s1 <=? s2) eqn:Hle;
          [apply Z.leb_le in Hle | apply Z.leb_gt in Hle];
          cbn [app DSB_pairs List.length]; (split; [|lia]);
          repeat split; try tauto; lia.
      * destruct (s2 - s1 <? 0).
        -- specialize (IH2 B2').
           destruct (RecordDSB1D_from thr (s1 :: l1) l2) as [[dsb r1] r2].
           cbn [fst snd List.length] in *. split; [tauto|lia].
        -- specialize (IH1 (s2 :: l2) B1' B2).
           destruct (RecordDSB1D_from thr l1 (s2 :: l2)) as [[dsb r1] r2].
           cbn [fst snd List.length] in *. split; [tauto|lia].
Qed.

(** The distance law: when no strand-1 site is within the DSB distance
    of a strand-2 site, the differences not overflowing, there is no
    DSB and both vectors are left as they were. *)
Theorem RecordDSB1D_distance_law :
  forall l1 l2 : list Z,
    Forall G4int_half l1 -> Forall G4int_half l2 ->
    (forall s1 s2, In s1 l1 -> In s2 l2 -> thr < Z.abs (s2 - s1)) ->
    RecordDSB1D thr l1 l2 = ([], l1, l2).
Proof.
  unfold RecordDSB1D.
  induction l1 as [|s1 l1 IH1]; intros l2 B1 B2 Hfar.
  - reflexivity.
  - inversion B1 as [|? ? Bs1 B1']; subst.
    induction l2 as [|s2 l2 IH2].
    + reflexivity.
    + inversion B2 as [|? ? Bs2 B2']; subst.
      rewrite (RecordDSB1D_from_cons_exact _ _ _ _ Bs1 Bs2).
      assert (Hd : (Z.abs (s2 - s1) <=? thr) = false).
      { apply Z.leb_gt. apply Hfar; now left. }
      rewrite Hd.
      destruct (s2 - s1 <? 0).
      * rewrite IH2; [reflexivity|assumption|].
        intros a b Ha Hb. apply Hfar; [assumption|now right].
      * rewrite IH1; [reflexivity|assumption|assumption|].
        intros a b Ha Hb. apply Hfar; [now right|assumption].
Qed.
End Pairing.

Lemma RecordDSB1D_pairs_witness :
  Forall G4int_half [0; 3; 5; 9] /\ Forall G4int_half [2; 8]
  /\ fst (fst (RecordDSB1D 1 [0; 3; 5; 9] [2; 8])) = [2; 3; 8; 9]
  /\ DSB_pairs 1 [2; 3; 8; 9].
Proof.
  assert (B1 : Forall G4int_half [0; 3; 5; 9]) by G4int_half_list.
  assert (B2 : Forall G4int_half [2; 8]) by G4int_half_list.
  refine (conj B1 (conj B2 (conj eq_refl _))).
  exact (proj1 (RecordDSB1D_pairs 1 [0; 3; 5; 9] [2; 8] B1 B2)).
Defined.

Lemma RecordDSB1D_distance_law_witness :
  Forall G4int_half [0; 5; 9] /\ Forall G4int_half [3; 7]
  /\ (forall s1 s2, In s1 [0; 5; 9] -> In s2 [3; 7] -> 1 < Z.abs (s2 - s1))
  /\ RecordDSB1D 1 [0; 5; 9] [3; 7] = ([], [0; 5; 9], [3; 7]).
Proof.
  assert (B1 : Forall G4int_half [0; 5; 9]) by G4int_half_list.
  assert (B2 : Forall G4int_half [3; 7]) by G4int_half_list.
  assert (H : forall s1 s2, In s1 [0; 5; 9] -> In s2 [3; 7] -> 1 < Z.abs (s2 - s1)).
  { simpl. intros s1 s2 H1 H2. lia. }
  refine (conj B1 (conj B2 (conj H _))).
  exact (RecordDSB1D_distance_law 1 [0; 5; 9] [3; 7] B1 B2 H).
Defined.

(** ** Well-formed maps in every run *)

Module WfFacts.
Import StdMap.

Lemma Forall_insert {V : Type} (P : V -> Prop) (k : Z) (v : V) (m : t V) :
  P v -> Forall (fun b => P (snd b)) m ->
  Forall (fun b => P (snd b)) (insert k v m).
Proof.
  intros Hv. induction 1 as [|[k' v'] m Hb Hm IH]; simpl.
  - repeat constructor; assumption.
  - destruct (k <? k'); [repeat constructor; assumption|].
    destruct (k =? k'); constructor; assumption.
Qed.

Lemma get_Forall {V : Type} (P : V -> Prop) (dflt : V) (k : Z) (m : t V) :
  P dflt -> Forall (fun b => P (snd b)) m -> P (get dflt k m).
Proof.
  intros Hd. unfold get. induction 1 as [|[k' v'] m Hb Hm IH]; simpl.
  - assumption.
  - destruct (k =? k'); assumption.
Qed.

Lemma wf2_nil : wf2 [].
Proof. split; constructor. Qed.

Lemma wf3_nil : wf3 [].
Proof. split; constructor. Qed.

Lemma wf_nil {V : Type} : wf (@nil (Z * V)).
Proof. constructor. Qed.

Lemma wf2_modify (k : Z) (f : Map1 -> Map1) (m : Map2) :
  (forall v, wf v -> wf (f v)) -> wf2 m -> wf2 (modify [] k f m).
Proof.
  intros Hf [Hm Hall]. split.
  - now apply StdMapFacts.wf_modify.
  - unfold modify. apply (Forall_insert (fun v : Map1 => wf v)); [|assumption].
    apply Hf. apply (get_Forall (fun v : Map1 => wf v)); [apply wf_nil|assumption].
Qed.

Lemma wf3_modify (k : Z) (f : Map2 -> Map2) (m : Map3) :
  (forall v, wf2 v -> wf2 (f v)) -> wf3 m -> wf3 (modify [] k f m).
Proof.
  intros Hf [Hm Hall]. split.
  - now apply StdMapFacts.wf_modify.
  - unfold modify. apply (Forall_insert wf2); [|assumption].
    apply Hf. apply (get_Forall wf2); [apply wf2_nil|assumption].
Qed.

Lemma wf3_touch (k : Z) (m : Map3) : wf3 m -> wf3 (touch [] k m).
Proof.
  intros [Hm Hall]. unfold touch. destruct (find _ _); [now split|].
  split; [now apply StdMapFacts.wf_insert|].
  apply (Forall_insert wf2); [apply wf2_nil|assumption].
Qed.

Lemma wf3_get (k : Z) (m : Map3) : wf3 m -> wf2 (get [] k m).
Proof. intros [_ Hall]. apply (get_Forall wf2); [apply wf2_nil|assumption]. Qed.

Lemma wf2_get (k : Z) (m : Map2) : wf2 m -> wf (get [] k m).
Proof.
  intros [_ Hall].
  apply (get_Forall (fun v : Map1 => wf v)); [apply wf_nil|assumption].
Qed.

Lemma add_edep_wf (pd i n : Z) (e : float) (m : Map3) :
  wf3 m -> wf3 (add_edep pd i n e m).
Proof.
  intros Hm. unfold add_edep. apply wf3_modify; [|assumption].
  intros v Hv. apply wf2_modify; [|assumption].
  intros w Hw. now apply StdMapFacts.wf_modify.
Qed.
End WfFacts.

Ltac edep_wf_split :=
  unfold EdepMaps_wf;
  refine (conj _ (conj _ (conj _ (conj _ (conj _ (conj _ (conj _ _)))))));
  cbn [fGenVEdepStrand1Backbone fGenVEdepStrand2Backbone fGenVEdepStrand1Base
       fGenVEdepStrand2Base fVEdepStrand1Backbone fVEdepStrand2Backbone
       fVEdepStrand1Base fVEdepStrand2Base edep].

Lemma ProcessHits_maps_wf (fNbOfAlgo : Z) (h : Hit) (m : EdepMaps) :
  EdepMaps_wf m -> EdepMaps_wf (snd (ProcessHits_maps fNbOfAlgo h m)).
Proof.
  intros Hm. unfold ProcessHits_maps.
  destruct (negb (fIsActive h)); [assumption|].
  destruct (PrimFloat.ltb 0 (edepHit h)); [|assumption].
  destruct (_ || _); [|assumption].
  destruct (2 <? _).
  - destruct (_ =? 0); cbn [snd];
      destruct Hm as (H1 & H2 & H3 & H4 & H5 & H6 & H7 & H8);
      edep_wf_split; try assumption; now apply WfFacts.add_edep_wf.
  - cbn [snd]. revert m Hm.
    induction (upto fNbOfAlgo) as [|i l IH]; intros m Hm; [assumption|].
    cbn [fold_left]. apply IH.
    destruct Hm as (H1 & H2 & H3 & H4 & H5 & H6 & H7 & H8).
    destruct (_ =? 0); destruct (_ || _); try destruct (_ =? 2);
      edep_wf_split; try assumption; now apply WfFacts.add_edep_wf.
Qed.

Lemma process_hits_wf (hits : list Hit) :
  forall s, EdepMaps_wf (edep s) -> EdepMaps_wf (edep (process_hits hits s)).
Proof.
  unfold process_hits.
  induction hits as [|h hits IH]; intros s Hs; [assumption|].
  cbn [fold_left]. apply IH. unfold ProcessHits.
  pose proof (ProcessHits_maps_wf (fNbOfAlgo (params s)) h (edep s) Hs) as H.
  destruct (ProcessHits_maps _ h (edep s)) as [b m]. exact H.
Qed.

Section EndOfEventWf.
Variable ids : DamageIds.

Lemma fibre_pass_wf (s s' : Scorer) (parentDepth : Z) :
  EdepMaps_wf (edep s) ->
  fibre_pass_with ids (RecordClusteredDamage ids) s parentDepth = Some s' ->
  EdepMaps_wf (edep s').
Proof.
  intros (H1 & H2 & H3 & H4 & H5 & H6 & H7 & H8). unfold fibre_pass_with.
  match goal with
  | |- context [split_loop_with ids ?c ?n ?s0] =>
      destruct (split_loop_with ids c n s0) as [s1|] eqn:Hloop
  end; cbn [bind]; [|discriminate].
  intros [= <-]. apply split_loop_with_frame in Hloop.
  destruct Hloop as (_ & -> & _).
  edep_wf_split;
    first [apply WfFacts.wf2_nil
          | now apply WfFacts.wf3_touch
          | apply WfFacts.wf3_get; now apply WfFacts.wf3_touch].
Qed.

Lemma fibre_loop_wf (fibres : list Z) :
  forall s s',
    EdepMaps_wf (edep s) ->
    fibre_loop_with ids (RecordClusteredDamage ids) fibres s = Some s' ->
    EdepMaps_wf (edep s').
Proof.
  induction fibres as [|pd fibres IH]; intros s s' Hs; cbn [fibre_loop_with].
  - now intros [= <-].
  - destruct (fibre_pass_with ids _ s pd) as [s1|] eqn:H1; cbn [bind];
      [|discriminate].
    apply IH. exact (fibre_pass_wf _ _ _ Hs H1).
Qed.

Lemma UserHookForEndOfEvent_wf (eventID : Z) (s s' : Scorer) :
  EdepMaps_wf (edep s) ->
  UserHookForEndOfEvent ids eventID s = Some s' ->
  EdepMaps_wf (edep s').
Proof.
  intros Hs. unfold UserHookForEndOfEvent, end_of_event_with.
  match goal with
  | |- context [fibre_loop_with ids ?c ?l ?s0] =>
      destruct (fibre_loop_with ids c l s0) as [s1|] eqn:Hloop
  end; cbn [bind]; [|discriminate].
  intros [= <-]. apply fibre_loop_wf in Hloop; [|exact Hs].
  destruct Hloop as (H1 & H2 & H3 & H4 & H5 & H6 & H7 & H8).
  edep_wf_split; first [apply WfFacts.wf3_nil | assumption].
Qed.

Lemma run_events_wf (evs : list (Z * list Hit)) :
  forall s s',
    EdepMaps_wf (edep s) -> run_events ids evs s = Some s' ->
    EdepMaps_wf (edep s').
Proof.
  induction evs as [|ev evs IH]; intros s s' Hs; cbn [run_events].
  - now intros [= <-].
  - destruct (run_event ids s ev) as [s1|] eqn:H1; cbn [bind]; [|discriminate].
    apply IH. unfold run_event in H1.
    eapply UserHookForEndOfEvent_wf; [|exact H1]. now apply process_hits_wf.
Qed.
End EndOfEventWf.

Lemma ScoreClusteredDNADamage_wf (fPm : ParameterManager) (s : Scorer) :
  ScoreClusteredDNADamage fPm = Some s -> EdepMaps_wf (edep s).
Proof.
  unfold ScoreClusteredDNADamage.
  repeat match goal with
         | |- context [read_if_exists ?a ?b ?c ?d] =>
             destruct (read_if_exists a b c d); cbn [bind]; [|discriminate]
         end.
  intros [= <-].
  edep_wf_split; first [apply WfFacts.wf3_nil | apply WfFacts.wf2_nil].
Qed.

(** ** Complex DSBs and non-DSB clusters *)

(** A clustering pass over recognised entries records every cluster of
    its vector, a stretch of at least two consecutive entries each
    within the cluster distance of the entry before it, once: as a
    complex DSB when the cluster holds a DSB entry, and as a non-DSB
    cluster otherwise, whatever SSB and BD it holds.  The tally of
    complex DSBs grows by the number of clusters that hold a DSB entry
    and the tally of non-DSB clusters by the number of those that hold
    none. *)
Theorem RecordClusteredDamage_classifies :
  forall (ids : DamageIds) (thr : Z) (seq : list (Z * Z)) (T : Tallies)
         (L : ClusterLog),
    Forall (fun e => recognised ids (snd e) = true) seq ->
    exists T' L',
      RecordClusteredDamage ids thr seq T L = Some (T', L')
      /\ Forall (fun c => (2 <= List.length c)%nat /\ chained thr c)
           (clusters thr seq)
      /\ fTotalComplexDSB T'
         = fTotalComplexDSB T
           + Z.of_nat (List.length (filter (holds_DSB ids) (clusters thr seq)))
      /\ fTotalNonDSBCluster T'
         = fTotalNonDSBCluster T
           + Z.of_nat (List.length
                         (filter (fun c => negb (holds_DSB ids c))
                            (clusters thr seq))).
Proof.
  intros ids thr seq T L Hall.
  assert (Htwo : Forall (fun c => (2 <= List.length c)%nat /\ chained thr c)
                   (clusters thr seq)).
  { destruct seq as [|first sites]; [constructor|].
    apply clusters_from_chained. now left. }
  destruct seq as [|first [|second sites]].
  - exists T, L. cbn. repeat split; try constructor; lia.
  - exists T, L. cbn. repeat split; try constructor; lia.
  - destruct (RecordClusteredDamage_scan_spec ids thr first second sites T L Hall)
      as (T1 & L1 & Hscan & _).
    destruct (RecordClusteredDamage_scan_clusters ids thr _ _ _ _ _ _ _ Hscan)
      as (_ & _ & HC & HN).
    unfold RecordClusteredDamage. rewrite Hscan.
    eexists _, _. split; [reflexivity|]. split; [exact Htwo|].
    unfold set_fTotalDSB. cbn [fTotalComplexDSB fTotalNonDSBCluster].
    split; assumption.
Qed.

Lemma RecordClusteredDamage_classifies_witness :
  Forall (fun e => recognised ids012 (snd e) = true) commented_fIndicesSimple
  /\ List.length (clusters 2 commented_fIndicesSimple) = 5%nat
  /\ List.length (filter (holds_DSB ids012) (clusters 2 commented_fIndicesSimple))
     = 3%nat
  /\ exists T' L',
       RecordClusteredDamage ids012 2 commented_fIndicesSimple
         (mkTallies 6 8 6 0 0) ClusterLog_empty = Some (T', L')
       /\ fTotalComplexDSB T' = 0 + 3
       /\ fTotalNonDSBCluster T' = 0 + 2.
Proof.
  assert (Hall : Forall (fun e => recognised ids012 (snd e) = true)
                   commented_fIndicesSimple) by (repeat constructor).
  refine (conj Hall (conj eq_refl (conj eq_refl _))).
  destruct (RecordClusteredDamage_classifies ids012 2 commented_fIndicesSimple
              (mkTallies 6 8 6 0 0) ClusterLog_empty Hall)
    as (T' & L' & H & _ & HC & HN).
  exists T', L'. split; [exact H|]. split; [exact HC|exact HN].
Defined.

(** ** Copy numbers: from the fibre geometry to the scorer *)

Lemma place_bps_spec (i fBpNum : Z) (n : nat) :
  forall (a : nat) (count : Z),
    snd (place_bps i fBpNum (map Z.of_nat (seq a n)) count) = count + Z.of_nat n
    /\ forall p,
         In p (fst (place_bps i fBpNum (map Z.of_nat (seq a n)) count)) <->
         exists (k : nat) (r : Residue),
           (k < n)%nat
           /\ p = mkPlacement (i * fBpNum + Z.of_nat (a + k)) r
                    (count + Z.of_nat k + copy_offset r).
Proof.
  induction n as [|n IH]; intros a count.
  - simpl. split; [lia|]. intros p. split; [tauto|].
    intros (k & r & Hk & _). lia.
  - cbn [seq map place_bps].
    destruct (IH (S a) (count + 1)) as [IHc IHin].
    destruct (place_bps i fBpNum (map Z.of_nat (seq (S a) n)) (count + 1))
      as [rest count'].
    cbn [fst snd] in *. split; [lia|].
    intros p. rewrite in_app_iff, in_map_iff, IHin. split.
    + intros [(r & <- & _)|(k & r & Hk & ->)].
      * exists 0%nat, r. split; [lia|]. f_equal; f_equal; lia.
      * exists (S k), r. split; [lia|]. f_equal; f_equal; lia.
    + intros (k & r & Hk & ->). destruct k as [|k].
      * left. exists r. split; [f_equal; f_equal; lia|].
        unfold residues. destruct r; simpl; tauto.
      * right. exists k, r. split; [lia|]. f_equal; f_equal; lia.
Qed.

Lemma place_nucleosomes_spec (fBpNum : Z) (n : nat) :
  forall (a : nat) (count : Z),
    snd (place_nucleosomes fBpNum (map Z.of_nat (seq a n)) count)
    = count + Z.of_nat (n * Z.to_nat fBpNum)
    /\ forall p,
         In p (fst (place_nucleosomes fBpNum (map Z.of_nat (seq a n)) count)) <->
         exists (u j : nat) (r : Residue),
           (u < n)%nat /\ (j < Z.to_nat fBpNum)%nat
           /\ p = mkPlacement (Z.of_nat (a + u) * fBpNum + Z.of_nat j) r
                    (count + Z.of_nat (u * Z.to_nat fBpNum + j) + copy_offset r).
Proof.
  induction n as [|n IH]; intros a count.
  - simpl. split; [lia|]. intros p. split; [tauto|].
    intros (u & j & r & Hu & _). lia.
  - cbn [seq map place_nucleosomes]. unfold upto.
    destruct (place_bps_spec (Z.of_nat a) fBpNum (Z.to_nat fBpNum) 0 count)
      as [Hc Hin].
    destruct (place_bps (Z.of_nat a) fBpNum _ count) as [here count'].
    cbn [fst snd] in Hc, Hin. subst count'.
    destruct (IH (S a) (count + Z.of_nat (Z.to_nat fBpNum))) as [IHc IHin].
    destruct (place_nucleosomes fBpNum (map Z.of_nat (seq (S a) n)) _)
      as [rest count''].
    cbn [fst snd] in *. split; [lia|].
    intros p. rewrite in_app_iff, Hin, IHin. split.
    + intros [(j & r & Hj & ->)|(u & j & r & Hu & Hj & ->)].
      * exists 0%nat, j, r. repeat split; try lia. f_equal; f_equal; lia.
      * exists (S u), j, r. repeat split; try lia. f_equal; f_equal; lia.
    + intros (u & j & r & Hu & Hj & ->). destruct u as [|u].
      * left. exists j, r. split; [lia|]. f_equal; f_equal; lia.
      * right. exists u, j, r. repeat split; try lia. f_equal; f_equal; lia.
Qed.

(** The placements of a fibre: one of each residue for every base pair
    [j] of every nucleosome [i], the copy number being the running
    count, which is the base pair index, plus the residue's constant. *)
Lemma BuildLogicFiber_placements_In (fNucleoNum fBpNum : Z) (p : Placement) :
  In p (BuildLogicFiber_placements fNucleoNum fBpNum) <->
  exists (i j : Z) (r : Residue),
    0 <= i < fNucleoNum /\ 0 <= j < fBpNum
    /\ p = mkPlacement (i * fBpNum + j) r (i * fBpNum + j + copy_offset r).
Proof.
  unfold BuildLogicFiber_placements, upto.
  destruct (place_nucleosomes_spec fBpNum (Z.to_nat fNucleoNum) 0 0) as [_ Hin].
  rewrite Hin. split.
  - intros (u & j & r & Hu & Hj & ->).
    exists (Z.of_nat u), (Z.of_nat j), r. repeat split; try lia.
    cbn [Nat.add]. rewrite ?Nat2Z.inj_add, ?Nat2Z.inj_mul, ?Z2Nat.id by lia.
    f_equal; lia.
  - intros (i & j & r & Hi & Hj & ->).
    exists (Z.to_nat i), (Z.to_nat j), r. repeat split; try lia.
    cbn [Nat.add]. rewrite ?Nat2Z.inj_add, ?Nat2Z.inj_mul, ?Z2Nat.id by lia.
    f_equal; lia.
Qed.

Lemma decode_volID_residue (r : Residue) (bp : Z) :
  0 <= bp < 100000 ->
  decode_volID (bp + copy_offset r) = (strand_of r, res_of r, bp).
Proof.
  intros Hbp. unfold decode_volID.
  assert (Hq : forall v q, 0 <= v -> forall d, 0 < d ->
                 q * d <= v < (q + 1) * d -> Z.quot v d = q).
  { intros v q Hv d Hd Hr. rewrite Z.quot_div_nonneg by lia.
    symmetry. apply (Z.div_unique v d q (v - q * d)); lia. }
  destruct r; cbn [copy_offset strand_of res_of].
  - rewrite (Hq (bp + 0) 0) by lia.
    rewrite (Hq (bp + 0 - 0 * 1000000) 0) by lia. f_equal; lia.
  - rewrite (Hq (bp + 100000) 0) by lia.
    rewrite (Hq (bp + 100000 - 0 * 1000000) 1) by lia. f_equal; lia.
  - rewrite (Hq (bp + 200000) 0) by lia.
    rewrite (Hq (bp + 200000 - 0 * 1000000) 2) by lia. f_equal; lia.
  - rewrite (Hq (bp + 1200000) 1) by lia.
    rewrite (Hq (bp + 1200000 - 1 * 1000000) 2) by lia. f_equal; lia.
  - rewrite (Hq (bp + 1100000) 1) by lia.
    rewrite (Hq (bp + 1100000 - 1 * 1000000) 1) by lia. f_equal; lia.
  - rewrite (Hq (bp + 1000000) 1) by lia.
    rewrite (Hq (bp + 1000000 - 1 * 1000000) 0) by lia. f_equal; lia.
Qed.

Lemma placement_decodes (fNucleoNum fBpNum : Z) (p : Placement) :
  fNucleoNum * fBpNum <= 100000 ->
  In p (BuildLogicFiber_placements fNucleoNum fBpNum) ->
  decode_volID (copyNo p) = (strand_of (residue p), res_of (residue p), bp_index p)
  /\ 0 <= bp_index p < fNucleoNum * fBpNum.
Proof.
  intros Hbound Hp. apply BuildLogicFiber_placements_In in Hp.
  destruct Hp as (i & j & r & Hi & Hj & ->). cbn [copyNo residue bp_index].
  assert (Hbp : 0 <= i * fBpNum + j < fNucleoNum * fBpNum) by nia.
  split; [|exact Hbp]. apply decode_volID_residue. lia.
Qed.

(** For a fibre of at most 100000 base pairs the indices that
    [ProcessHits] computes from the copy number of a residue volume are
    the strand, the residue and the base pair index of the placement,
    and no two residue volumes have the same copy number. *)
Theorem copy_numbers_decode :
  forall (fNucleoNum fBpNum : Z) (p q : Placement),
    fNucleoNum * fBpNum <= 100000 ->
    In p (BuildLogicFiber_placements fNucleoNum fBpNum) ->
    In q (BuildLogicFiber_placements fNucleoNum fBpNum) ->
    decode_volID (copyNo p) = (strand_of (residue p), res_of (residue p), bp_index p)
    /\ 0 <= bp_index p < fNucleoNum * fBpNum
    /\ (copyNo p = copyNo q -> p = q).
Proof.
  intros N B p q Hbound Hp Hq.
  destruct (placement_decodes N B p Hbound Hp) as [Dp Hbp].
  destruct (placement_decodes N B q Hbound Hq) as [Dq Hbq].
  split; [exact Dp|]. split; [exact Hbp|].
  intros Heq. rewrite Heq, Dq in Dp. injection Dp as Hs Hr Hb.
  destruct p as [bp r c], q as [bq r' c'].
  cbn [copyNo residue bp_index] in *.
  assert (Hrr : r = r')
    by (destruct r, r'; cbn in Hs, Hr; try reflexivity; discriminate).
  congruence.
Qed.

Lemma copy_numbers_decode_witness :
  3 * 4 <= 100000
  /\ In (mkPlacement 11 r_base2 1200011) (BuildLogicFiber_placements 3 4)
  /\ decode_volID 1200011 = (1, 2, 11).
Proof.
  assert (Hin : In (mkPlacement 11 r_base2 1200011) (BuildLogicFiber_placements 3 4))
    by (vm_compute; tauto).
  refine (conj _ (conj Hin _)); [lia|].
  exact (proj1 (copy_numbers_decode 3 4 _ _ ltac:(lia) Hin Hin)).
Defined.

(** Beyond 100000 base pairs the copy numbers run into one another: the
    phosphate of base pair 100000 on strand 1 has the copy number of the
    sugar of base pair 0, so [ProcessHits] cannot tell them apart. *)
Theorem copy_numbers_collide :
  forall fNucleoNum fBpNum : Z,
    0 <= fBpNum -> 100000 < fNucleoNum * fBpNum ->
    In (mkPlacement 100000 r_sTMP1 100000)
      (BuildLogicFiber_placements fNucleoNum fBpNum)
    /\ In (mkPlacement 0 r_sTHF1 100000)
         (BuildLogicFiber_placements fNucleoNum fBpNum)
    /\ decode_volID 100000 = (0, 1, 0).
Proof.
  intros N B HB Hbig.
  assert (HBpos : 0 < B).
  { destruct (Z.eq_dec B 0) as [->|]; [rewrite Z.mul_0_r in Hbig; lia|lia]. }
  assert (HN : 0 < N).
  { destruct (Z_lt_le_dec 0 N) as [|Hle]; [assumption|].
    pose proof (Z.mul_nonpos_nonneg N B Hle HB). lia. }
  split; [|split].
  - apply BuildLogicFiber_placements_In.
    exists (100000 / B), (100000 mod B), r_sTMP1.
    pose proof (Z.div_mod 100000 B ltac:(lia)) as Hdm.
    pose proof (Z.mod_pos_bound 100000 B HBpos) as Hm.
    assert (0 <= 100000 / B) by (apply Z.div_pos; lia).
    assert (100000 / B < N) by (apply Z.div_lt_upper_bound; nia).
    split; [lia|]. split; [lia|]. f_equal; cbn [copy_offset]; lia.
  - apply BuildLogicFiber_placements_In. exists 0, 0, r_sTHF1.
    split; [lia|]. split; [lia|]. f_equal; cbn [copy_offset]; lia.
  - reflexivity.
Qed.

Lemma copy_numbers_collide_witness :
  0 <= 200 /\ 100000 < 501 * 200
  /\ In (mkPlacement 100000 r_sTMP1 100000) (BuildLogicFiber_placements 501 200)
  /\ In (mkPlacement 0 r_sTHF1 100000) (BuildLogicFiber_placements 501 200).
Proof.
  pose proof (copy_numbers_collide 501 200 ltac:(lia) ltac:(lia)) as (H1 & H2 & _).
  refine (conj _ (conj _ (conj H1 H2))); lia.
Defined.

(** ** Energy accumulation *)

Module StdMapLookup.
Import StdMap.

Lemma find_insert_other {V : Type} (k k' : Z) (v : V) (m : t V) :
  k' <> k -> find k' (insert k v m) = find k' m.
Proof.
  intros Hne. induction m as [|[k0 v0] m IH]; simpl.
  - destruct (k' =? k) eqn:E; [apply Z.eqb_eq in E; contradiction|reflexivity].
  - destruct (k <? k0); simpl.
    + destruct (k' =? k) eqn:E; [apply Z.eqb_eq in E; contradiction|reflexivity].
    + destruct (k =? k0) eqn:E0; simpl.
      * apply Z.eqb_eq in E0; subst k0.
        destruct (k' =? k) eqn:E; [apply Z.eqb_eq in E; contradiction|reflexivity].
      * destruct (k' =? k0); [reflexivity|exact IH].
Qed.

Lemma get_modify_same {V : Type} (dflt : V) (k : Z) (f : V -> V) (m : t V) :
  get dflt k (modify dflt k f m) = f (get dflt k m).
Proof.
  unfold modify. unfold get at 1. now rewrite StdMapFacts.find_insert_same.
Qed.

Lemma get_modify_other {V : Type} (dflt : V) (k k' : Z) (f : V -> V) (m : t V) :
  k' <> k -> get dflt k' (modify dflt k f m) = get dflt k' m.
Proof.
  intros Hne. unfold modify, get. now rewrite find_insert_other.
Qed.
End StdMapLookup.

(** A deposit is added at its own key and read back from there; every
    other key reads as before. *)
Lemma energy_at_add_edep (pd i n : Z) (e : float) (m : Map3) (pd' i' n' : Z) :
  energy_at (add_edep pd i n e m) pd' i' n'
  = if (pd' =? pd) && (i' =? i) && (n' =? n)
    then (energy_at m pd' i' n' + e)%float
    else energy_at m pd' i' n'.
Proof.
  unfold energy_at, add_edep.
  destruct (pd' =? pd) eqn:Ep; cbn [andb].
  - apply Z.eqb_eq in Ep; subst pd'. rewrite StdMapLookup.get_modify_same.
    destruct (i' =? i) eqn:Ei; cbn [andb].
    + apply Z.eqb_eq in Ei; subst i'. rewrite StdMapLookup.get_modify_same.
      destruct (n' =? n) eqn:En.
      * apply Z.eqb_eq in En; subst n'. now rewrite StdMapLookup.get_modify_same.
      * apply Z.eqb_neq in En. now rewrite StdMapLookup.get_modify_other.
    + apply Z.eqb_neq in Ei. now rewrite StdMapLookup.get_modify_other.
  - apply Z.eqb_neq in Ep. now rewrite StdMapLookup.get_modify_other.
Qed.

Lemma energy_at_fold_add_edep (pd n : Z) (e : float) (l : list Z) :
  NoDup l ->
  forall (m : Map3) (pd' i' n' : Z),
    energy_at (fold_left (fun g i => add_edep pd i n e g) l m) pd' i' n'
    = if (pd' =? pd) && (n' =? n) && existsb (Z.eqb i') l
      then (energy_at m pd' i' n' + e)%float
      else energy_at m pd' i' n'.
Proof.
  induction 1 as [|i l Hnotin Hnd IH]; intros m pd' i' n'.
  - cbn. now rewrite andb_false_r.
  - cbn [fold_left existsb]. rewrite IH, !energy_at_add_edep.
    destruct (pd' =? pd); cbn [andb]; [|reflexivity].
    destruct (n' =? n); cbn [andb]; rewrite ?andb_false_r; cbn [orb];
      [|now destruct (existsb (Z.eqb i') l)].
    rewrite andb_true_r.
    destruct (i' =? i) eqn:Ei; cbn [orb].
    + apply Z.eqb_eq in Ei; subst i'.
      destruct (existsb (Z.eqb i) l) eqn:Ex; [|reflexivity].
      apply existsb_exists in Ex. destruct Ex as (x & Hx & Hxe).
      apply Z.eqb_eq in Hxe; subst x. contradiction.
    + reflexivity.
Qed.

Lemma upto_NoDup (n : Z) : NoDup (upto n).
Proof.
  unfold upto. generalize 0%nat.
  induction (Z.to_nat n) as [|k IH]; intros a; cbn [seq map]; constructor.
  - rewrite in_map_iff. intros (x & Hx & Hin). apply in_seq in Hin. lia.
  - apply IH.
Qed.

Lemma upto_existsb (n i : Z) :
  existsb (Z.eqb i) (upto n) = (0 <=? i) && (i <? n).
Proof.
  unfold upto.
  destruct ((0 <=? i) && (i <? n)) eqn:E.
  - apply andb_true_iff in E. destruct E as [E1 E2].
    apply Z.leb_le in E1. apply Z.ltb_lt in E2.
    apply existsb_exists. exists i. split; [|apply Z.eqb_refl].
    apply in_map_iff. exists (Z.to_nat i). split; [lia|].
    apply in_seq. lia.
  - destruct (existsb _ _) eqn:Ex; [|reflexivity].
    apply existsb_exists in Ex. destruct Ex as (x & Hx & Hxe).
    apply Z.eqb_eq in Hxe; subst x. apply in_map_iff in Hx.
    destruct Hx as (k & <- & Hk). apply in_seq in Hk.
    apply andb_false_iff in E.
    destruct E as [E|E]; [apply Z.leb_gt in E|apply Z.ltb_ge in E]; lia.
Qed.

Section FoldOverSplitCopies.
Variables (pd n : Z) (e : float).

Lemma fold_Strand1Backbone (l : list Z) :
  forall m,
    fold_left
      (fun (m : EdepMaps) (i : Z) =>
         mkEdepMaps (add_edep pd i n e (fGenVEdepStrand1Backbone m))
           (fGenVEdepStrand2Backbone m) (fGenVEdepStrand1Base m)
           (fGenVEdepStrand2Base m) (fVEdepStrand1Backbone m)
           (fVEdepStrand2Backbone m) (fVEdepStrand1Base m) (fVEdepStrand2Base m))
      l m
    = mkEdepMaps (fold_left (fun g i => add_edep pd i n e g) l (fGenVEdepStrand1Backbone m))
        (fGenVEdepStrand2Backbone m) (fGenVEdepStrand1Base m)
        (fGenVEdepStrand2Base m) (fVEdepStrand1Backbone m)
        (fVEdepStrand2Backbone m) (fVEdepStrand1Base m) (fVEdepStrand2Base m).
Proof.
  induction l as [|i l IH]; intros m; [now destruct m|].
  cbn [fold_left]. now rewrite IH.
Qed.

Lemma fold_Strand2Backbone (l : list Z) :
  forall m,
    fold_left
      (fun (m : EdepMaps) (i : Z) =>
         mkEdepMaps (fGenVEdepStrand1Backbone m)
           (add_edep pd i n e (fGenVEdepStrand2Backbone m))
           (fGenVEdepStrand1Base m)
           (fGenVEdepStrand2Base m) (fVEdepStrand1Backbone m)
           (fVEdepStrand2Backbone m) (fVEdepStrand1Base m) (fVEdepStrand2Base m))
      l m
    = mkEdepMaps (fGenVEdepStrand1Backbone m)
        (fold_left (fun g i => add_edep pd i n e g) l (fGenVEdepStrand2Backbone m))
        (fGenVEdepStrand1Base m)
        (fGenVEdepStrand2Base m) (fVEdepStrand1Backbone m)
        (fVEdepStrand2Backbone m) (fVEdepStrand1Base m) (fVEdepStrand2Base m).
Proof.
  induction l as [|i l IH]; intros m; [now destruct m|].
  cbn [fold_left]. now rewrite IH.
Qed.

Lemma fold_Strand1Base (l : list Z) :
  forall m,
    fold_left
      (fun (m : EdepMaps) (i : Z) =>
         mkEdepMaps (fGenVEdepStrand1Backbone m) (fGenVEdepStrand2Backbone m)
           (add_edep pd i n e (fGenVEdepStrand1Base m))
           (fGenVEdepStrand2Base m) (fVEdepStrand1Backbone m)
           (fVEdepStrand2Backbone m) (fVEdepStrand1Base m) (fVEdepStrand2Base m))
      l m
    = mkEdepMaps (fGenVEdepStrand1Backbone m) (fGenVEdepStrand2Backbone m)
        (fold_left (fun g i => add_edep pd i n e g) l (fGenVEdepStrand1Base m))
        (fGenVEdepStrand2Base m) (fVEdepStrand1Backbone m)
        (fVEdepStrand2Backbone m) (fVEdepStrand1Base m) (fVEdepStrand2Base m).
Proof.
  induction l as [|i l IH]; intros m; [now destruct m|].
  cbn [fold_left]. now rewrite IH.
Qed.

Lemma fold_Strand2Base (l : list Z) :
  forall m,
    fold_left
      (fun (m : EdepMaps) (i : Z) =>
         mkEdepMaps (fGenVEdepStrand1Backbone m) (fGenVEdepStrand2Backbone m)
           (fGenVEdepStrand1Base m)
           (add_edep pd i n e (fGenVEdepStrand2Base m))
           (fVEdepStrand1Backbone m)
           (fVEdepStrand2Backbone m) (fVEdepStrand1Base m) (fVEdepStrand2Base m))
      l m
    = mkEdepMaps (fGenVEdepStrand1Backbone m) (fGenVEdepStrand2Backbone m)
        (fGenVEdepStrand1Base m)
        (fold_left (fun g i => add_edep pd i n e g) l (fGenVEdepStrand2Base m))
        (fVEdepStrand1Backbone m)
        (fVEdepStrand2Backbone m) (fVEdepStrand1Base m) (fVEdepStrand2Base m).
Proof.
  induction l as [|i l IH]; intros m; [now destruct m|].
  cbn [fold_left]. now rewrite IH.
Qed.
End FoldOverSplitCopies.

(** Without track splitting, a hit of positive energy that an active
    scorer ([fIsActive]) receives in a residue volume of the fibre
    geometry is scored, and its energy is added, once for every split
    copy, at the base pair of the volume in the map of its strand and
    residue class (phosphate and sugar in the backbone map, the base in
    the base map) under the fibre of the hit; what is recorded anywhere
    else is as it was. *)
Theorem ProcessHits_scores_residue :
  forall (fNucleoNum fBpNum : Z) (p : Placement) (fNbOfAlgo : Z) (e : float)
         (pd trackID : Z) (m : EdepMaps),
    fNucleoNum * fBpNum <= 100000 ->
    In p (BuildLogicFiber_placements fNucleoNum fBpNum) ->
    PrimFloat.ltb 0 e = true ->
    fNbOfAlgo <= 1 \/ trackID <= 2 ->
    fst (ProcessHits_maps fNbOfAlgo (mkHit true e (copyNo p) pd trackID) m) = true
    /\ forall (which : GenMap) (pd' i n : Z),
         energy_at
           (gen which (snd (ProcessHits_maps fNbOfAlgo
                              (mkHit true e (copyNo p) pd trackID) m)))
           pd' i n
         = if GenMap_eqb which (map_of (residue p)) && (pd' =? pd)
              && (n =? bp_index p) && (0 <=? i) && (i <? fNbOfAlgo)
           then (energy_at (gen which m) pd' i n + e)%float
           else energy_at (gen which m) pd' i n.
Proof.
  intros N B p A e pd trackID m Hbound Hp He Hidx.
  destruct (placement_decodes N B p Hbound Hp) as (D & _).
  unfold decode_volID in D. cbv zeta in D. injection D as D1 D2 D3.
  rewrite D1 in D2, D3. rewrite D2 in D3.
  unfold ProcessHits_maps.
  cbn [fIsActive negb edepHit volID parentDepth splitTrackID]. cbv zeta.
  rewrite He, D1, D2, D3.
  assert (Hi : (2 <? (if 1 <? A then trackID else 1)) = false).
  { destruct (1 <? A) eqn:E; apply Z.ltb_ge; [|lia].
    apply Z.ltb_lt in E. lia. }
  rewrite Hi.
  assert (Hfold : forall g pd' i n,
            energy_at (fold_left (fun g i => add_edep pd i (bp_index p) e g)
                         (upto A) g) pd' i n
            = if (pd' =? pd) && (n =? bp_index p) && ((0 <=? i) && (i <? A))
              then (energy_at g pd' i n + e)%float else energy_at g pd' i n).
  { intros g pd' i n.
    rewrite (energy_at_fold_add_edep pd (bp_index p) e (upto A) (upto_NoDup A)).
    now rewrite upto_existsb. }
  destruct (residue p); cbn [strand_of res_of map_of Z.eqb Pos.eqb orb fst snd].
  all: first [rewrite fold_Strand1Backbone | rewrite fold_Strand2Backbone
             | rewrite fold_Strand1Base | rewrite fold_Strand2Base].
  all: split; [reflexivity|].
  all: intros which pd' i n; destruct which;
    cbn [gen GenMap_eqb andb fGenVEdepStrand1Backbone fGenVEdepStrand2Backbone
         fGenVEdepStrand1Base fGenVEdepStrand2Base];
    try reflexivity; rewrite Hfold;
    now rewrite <- !andb_assoc.
Qed.

Lemma ProcessHits_scores_residue_witness :
  3 * 4 <= 100000
  /\ In (mkPlacement 11 r_base2 1200011) (BuildLogicFiber_placements 3 4)
  /\ PrimFloat.ltb 0 (20 * eV) = true
  /\ energy_at
       (gen Strand2Base
          (snd (ProcessHits_maps 1 (mkHit true (20 * eV)%float 1200011 0 0)
                  EdepMaps_empty)))
       0 0 11
     = (energy_at (gen Strand2Base EdepMaps_empty) 0 0 11 + 20 * eV)%float.
Proof.
  assert (Hin : In (mkPlacement 11 r_base2 1200011) (BuildLogicFiber_placements 3 4))
    by (vm_compute; tauto).
  refine (conj _ (conj Hin (conj eq_refl _))); [lia|].
  exact (proj2 (ProcessHits_scores_residue 3 4 _ 1 (20 * eV)%float 0 0 EdepMaps_empty
                  ltac:(lia) Hin eq_refl (or_introl (Z.le_refl 1)))
           Strand2Base 0 0 11).
Defined.

(** With track splitting, a hit of positive energy that an active
    scorer ([fIsActive]) receives from a track whose split index is
    above 2 is scored in the backbone map of the strand of its volume,
    under the split copy [index - 3] alone, whatever the residue: the
    energy deposited in a base is added to the backbone of its strand,
    and the base maps are not written. *)
Theorem ProcessHits_split_track_scores_backbone :
  forall (fNucleoNum fBpNum : Z) (p : Placement) (fNbOfAlgo : Z) (e : float)
         (pd trackID : Z) (m : EdepMaps),
    fNucleoNum * fBpNum <= 100000 ->
    In p (BuildLogicFiber_placements fNucleoNum fBpNum) ->
    PrimFloat.ltb 0 e = true ->
    1 < fNbOfAlgo -> 2 < trackID ->
    fst (ProcessHits_maps fNbOfAlgo (mkHit true e (copyNo p) pd trackID) m) = true
    /\ forall (which : GenMap) (pd' i n : Z),
         energy_at
           (gen which (snd (ProcessHits_maps fNbOfAlgo
                              (mkHit true e (copyNo p) pd trackID) m)))
           pd' i n
         = if GenMap_eqb which (backbone_of (residue p)) && (pd' =? pd)
              && (i =? trackID - 3) && (n =? bp_index p)
           then (energy_at (gen which m) pd' i n + e)%float
           else energy_at (gen which m) pd' i n.
Proof.
  intros N B p A e pd trackID m Hbound Hp He HA Hidx.
  destruct (placement_decodes N B p Hbound Hp) as (D & _).
  unfold decode_volID in D. cbv zeta in D. injection D as D1 D2 D3.
  rewrite D1 in D2, D3. rewrite D2 in D3.
  unfold ProcessHits_maps.
  cbn [fIsActive negb edepHit volID parentDepth splitTrackID]. cbv zeta.
  rewrite He, D1, D2, D3.
  assert (HA' : (1 <? A) = true) by (apply Z.ltb_lt; lia).
  assert (Hi : (2 <? trackID) = true) by (apply Z.ltb_lt; lia).
  rewrite HA', Hi. unfold backbone_of.
  destruct (residue p); cbn [strand_of Z.eqb Pos.eqb orb fst snd].
  all: split; [reflexivity|].
  all: intros which pd' i n; destruct which;
    cbn [gen GenMap_eqb andb fGenVEdepStrand1Backbone fGenVEdepStrand2Backbone
         fGenVEdepStrand1Base fGenVEdepStrand2Base];
    try reflexivity; rewrite energy_at_add_edep;
    now rewrite <- !andb_assoc.
Qed.

Lemma ProcessHits_split_track_scores_backbone_witness :
  3 * 4 <= 100000
  /\ In (mkPlacement 11 r_base2 1200011) (BuildLogicFiber_placements 3 4)
  /\ PrimFloat.ltb 0 (20 * eV) = true
  /\ energy_at
       (gen Strand2Backbone
          (snd (ProcessHits_maps 2 (mkHit true (20 * eV)%float 1200011 0 3)
                  EdepMaps_empty)))
       0 0 11
     = (energy_at (gen Strand2Backbone EdepMaps_empty) 0 0 11 + 20 * eV)%float.
Proof.
  assert (Hin : In (mkPlacement 11 r_base2 1200011) (BuildLogicFiber_placements 3 4))
    by (vm_compute; tauto).
  refine (conj _ (conj Hin (conj eq_refl _))); [lia|].
  exact (proj2 (ProcessHits_split_track_scores_backbone 3 4 _ 2 (20 * eV)%float 0 3
                  EdepMaps_empty ltac:(lia) Hin eq_refl (eq_refl : 1 < 2)
                  (eq_refl : 2 < 3))
           Strand2Backbone 0 0 11).
Defined.

(** ** The strand break count taken from pdb4dna *)

Lemma count_over_cons (thr : float) (k : Z) (e : float) (m : Map1) :
  count_over thr ((k, e) :: m)
  = (if PrimFloat.leb thr e then 1 else 0) + count_over thr m.
Proof.
  unfold count_over, over_threshold. cbn [filter snd].
  destruct (PrimFloat.leb thr e); cbn [map List.length]; lia.
Qed.

Lemma count_over_nonneg (thr : float) (m : Map1) : 0 <= count_over thr m.
Proof. unfold count_over. lia. Qed.

Lemma insert_below_all {V : Type} (k : Z) (v : V) (m : StdMap.t V) :
  Forall (fun b => k < fst b) m -> StdMap.insert k v m = (k, v) :: m.
Proof.
  destruct m as [|[k' v'] m]; cbn [StdMap.insert]; [reflexivity|].
  intros H. inversion H as [|? ? Hlt _]; subst. cbn [fst] in Hlt.
  destruct (k <? k') eqn:E; [reflexivity | apply Z.ltb_ge in E; lia].
Qed.

Lemma wf_cons_below {V : Type} (k : Z) (v : V) (m : StdMap.t V) :
  StdMap.wf m -> Forall (fun b => k < fst b) m -> StdMap.wf ((k, v) :: m).
Proof.
  unfold StdMap.wf, StdMap.keys. cbn [map fst]. intros Hwf Hall.
  constructor; [exact Hwf|].
  rewrite Forall_forall in *. intros x Hx.
  apply in_map_iff in Hx. destruct Hx as [b [<- Hb]]. now apply Hall.
Qed.

Lemma strand2_do_while_spec (thr : float) (d nucl1 : Z) :
  forall (rest : Map1) (first : Z * float) (ssb2 : Z),
    StdMap.wf (first :: rest) ->
    exists nucl2 edep2 rest' ssb2',
      strand2_do_while thr d nucl1 first rest ssb2 = (nucl2, edep2, rest', ssb2')
      /\ StdMap.wf rest'
      /\ Forall (fun b => nucl2 < fst b) rest'
      /\ ssb2' + count_over thr rest' = ssb2 + count_over thr (first :: rest)
      /\ ssb2 + (if PrimFloat.leb thr edep2 then 1 else 0) <= ssb2'.
Proof.
  induction rest as [|next rest IH]; intros [nucl2 edep2] ssb2 Hwf.
  - cbn [strand2_do_while StdMap.empty negb andb].
    rewrite andb_false_r.
    exists nucl2, edep2, [], (if PrimFloat.leb thr edep2 then ssb2 + 1 else ssb2).
    refine (conj eq_refl (conj _ (conj _ (conj _ _)))).
    + constructor.
    + constructor.
    + rewrite count_over_cons. destruct (PrimFloat.leb thr edep2); lia.
    + destruct (PrimFloat.leb thr edep2); lia.
  - cbn [strand2_do_while StdMap.empty negb].
    rewrite andb_true_r.
    destruct (d <? nucl1 - nucl2) eqn:E.
    + destruct (IH next (if PrimFloat.leb thr edep2 then ssb2 + 1 else ssb2)
                  (StdMapFacts.wf_tail _ _ Hwf))
        as (n2 & e2 & r' & s' & Heq & Hwf' & Hall & Hcnt & Hle).
      exists n2, e2, r', s'.
      refine (conj Heq (conj Hwf' (conj Hall (conj _ _)))).
      * rewrite Hcnt. rewrite (count_over_cons thr nucl2 edep2).
        destruct (PrimFloat.leb thr edep2); lia.
      * destruct (PrimFloat.leb thr edep2), (PrimFloat.leb thr e2); lia.
    + exists nucl2, edep2, (next :: rest),
        (if PrimFloat.leb thr edep2 then ssb2 + 1 else ssb2).
      refine (conj eq_refl (conj _ (conj _ (conj _ _)))).
      * exact (StdMapFacts.wf_tail _ _ Hwf).
      * exact (StdMapFacts.wf_head_lt _ _ _ Hwf).
      * rewrite (count_over_cons thr nucl2 edep2).
        destruct (PrimFloat.leb thr edep2); lia.
      * destruct (PrimFloat.leb thr edep2); lia.
Qed.

Lemma strand1_while_spec (thr : float) (d : Z) :
  forall (m1 m2 : Map1) (ssb1 ssb2 dsb : Z),
    StdMap.wf m2 ->
    exists m2' ssb1' ssb2' dsb',
      strand1_while thr d m1 m2 ssb1 ssb2 dsb = (m2', ssb1', ssb2', dsb')
      /\ ssb1' + ssb2' + 2 * dsb' + count_over thr m2'
         = ssb1 + ssb2 + 2 * dsb + count_over thr m1 + count_over thr m2
      /\ ssb1 <= ssb1' /\ ssb2 <= ssb2' /\ dsb <= dsb'
      /\ dsb' - dsb <= count_over thr m1
      /\ dsb' - dsb <= count_over thr m2.
Proof.
  induction m1 as [|[nucl1 edep1] m1 IH]; intros m2 ssb1 ssb2 dsb Hwf.
  - exists m2, ssb1, ssb2, dsb. cbn [strand1_while].
    pose proof (count_over_nonneg thr m2).
    change (count_over thr []) with 0. repeat split; lia.
  - cbn [strand1_while]. rewrite (count_over_cons thr nucl1 edep1).
    destruct m2 as [|first rest].
    + destruct (IH [] (if PrimFloat.leb thr edep1 then ssb1 + 1 else ssb1)
                  ssb2 dsb Hwf)
        as (m2' & a & b & c & Heq & Hsum & H1 & H2 & H3 & H4 & H5).
      exists m2', a, b, c. rewrite Heq.
      destruct (PrimFloat.leb thr edep1); repeat split; lia.
    + destruct (strand2_do_while_spec thr d nucl1 rest first ssb2 Hwf)
        as (nucl2 & edep2 & r' & s' & Heq2 & Hwf' & Hall & Hcnt & Hle).
      rewrite Heq2.
      set (m2a := if d <? nucl2 - nucl1 then StdMap.insert nucl2 edep2 r' else r').
      set (s2a := if d <? nucl2 - nucl1
                  then (if PrimFloat.leb thr edep2 then s' - 1 else s') else s').
      assert (Hm : (if d <? nucl2 - nucl1
                    then (StdMap.insert nucl2 edep2 r',
                          if PrimFloat.leb thr edep2 then s' - 1 else s')
                    else (r', s')) = (m2a, s2a))
        by (unfold m2a, s2a; destruct (d <? nucl2 - nucl1); reflexivity).
      rewrite Hm.
      assert (Hwfa : StdMap.wf m2a).
      { unfold m2a. destruct (d <? _); [now apply StdMapFacts.wf_insert | exact Hwf']. }
      assert (Hca : s2a + count_over thr m2a = s' + count_over thr r').
      { unfold m2a, s2a. destruct (d <? _); [|reflexivity].
        rewrite (insert_below_all _ _ _ Hall), count_over_cons.
        destruct (PrimFloat.leb thr edep2); lia. }
      set (pair := (Z.abs (nucl2 - nucl1) <=? d)
                   && (PrimFloat.leb thr edep2 && PrimFloat.leb thr edep1)).
      set (s1 := if PrimFloat.leb thr edep1 then ssb1 + 1 else ssb1).
      assert (Hp : (if Z.abs (nucl2 - nucl1) <=? d
                    then if PrimFloat.leb thr edep2 && PrimFloat.leb thr edep1
                         then (s1 - 1, s2a - 1, dsb + 1) else (s1, s2a, dsb)
                    else (s1, s2a, dsb))
                   = (if pair then s1 - 1 else s1,
                      if pair then s2a - 1 else s2a,
                      if pair then dsb + 1 else dsb))
        by (unfold pair; destruct (Z.abs _ <=? d), (PrimFloat.leb thr edep2),
              (PrimFloat.leb thr edep1); reflexivity).
      fold s1. rewrite Hp.
      destruct (IH m2a (if pair then s1 - 1 else s1) (if pair then s2a - 1 else s2a)
                  (if pair then dsb + 1 else dsb) Hwfa)
        as (m2' & a & b & c & Heq & Hsum & H1 & H2 & H3 & H4 & H5).
      exists m2', a, b, c. rewrite Heq.
      pose proof (count_over_nonneg thr m2a).
      pose proof (count_over_nonneg thr r').
      pose proof (count_over_nonneg thr m1).
      assert (Hs2a : ssb2 + (if pair then 1 else 0) <= s2a).
      { unfold s2a, pair.
        destruct (d <? nucl2 - nucl1) eqn:E1; destruct (Z.abs (nucl2 - nucl1) <=? d) eqn:E2;
          destruct (PrimFloat.leb thr edep2), (PrimFloat.leb thr edep1);
          cbn [andb]; try lia.
        all: apply Z.ltb_lt in E1; apply Z.leb_le in E2; lia. }
      assert (Hpe : pair = true -> PrimFloat.leb thr edep1 = true)
        by (unfold pair; intros Hpp; repeat (apply andb_prop in Hpp; destruct Hpp as [? Hpp]); assumption).
      unfold s1 in *.
      destruct pair; [rewrite (Hpe eq_refl) in *|destruct (PrimFloat.leb thr edep1)];
        repeat split; lia.
Qed.

Lemma leftover_while_spec (thr : float) :
  forall (m : Map1) (ssb : Z), leftover_while thr m ssb = ssb + count_over thr m.
Proof.
  induction m as [|[k e] m IH]; intros ssb; cbn [leftover_while].
  - change (count_over thr []) with 0. lia.
  - rewrite IH, count_over_cons. destruct (PrimFloat.leb thr e); lia.
Qed.

(** [ComputeStrandBreaks] counts every deposit that reaches the SSB
    threshold exactly once, as an SSB or as one half of a DSB; a DSB
    takes one such deposit of each strand; and the two inner maps of
    the fibre are empty when it returns.  The map of strand 2 is in
    ascending key order, as every [std::map] is. *)
Theorem ComputeStrandBreaks_conserves :
  forall (fThresEdepForSSB : float) (fThresDistForDSB cluster : Z)
         (fVEdep1 fVEdep2 : Map2) (sb0 sb1 : Z) (fVEdep1' fVEdep2' : Map2),
    StdMap.wf (StdMap.get [] cluster fVEdep2) ->
    ComputeStrandBreaks fThresEdepForSSB fThresDistForDSB cluster fVEdep1 fVEdep2
    = (sb0, sb1, fVEdep1', fVEdep2') ->
    sb0 + 2 * sb1
    = count_over fThresEdepForSSB (StdMap.get [] cluster fVEdep1)
      + count_over fThresEdepForSSB (StdMap.get [] cluster fVEdep2)
    /\ 0 <= sb0
    /\ 0 <= sb1 <= Z.min (count_over fThresEdepForSSB (StdMap.get [] cluster fVEdep1))
                         (count_over fThresEdepForSSB (StdMap.get [] cluster fVEdep2))
    /\ StdMap.get [] cluster fVEdep1' = []
    /\ StdMap.get [] cluster fVEdep2' = [].
Proof.
  intros thr d cluster M1 M2 sb0 sb1 M1' M2' Hwf. unfold ComputeStrandBreaks.
  rewrite !StdMapFacts.get_touch.
  destruct (strand1_while_spec thr d (StdMap.get [] cluster M1)
              (StdMap.get [] cluster M2) 0 0 0 Hwf)
    as (m2' & a & b & c & Heq & Hsum & H1 & H2 & H3 & H4 & H5).
  rewrite Heq. rewrite !leftover_while_spec. change (count_over thr []) with 0.
  intros Hres. injection Hres as <- <- <- <-.
  pose proof (count_over_nonneg thr m2').
  assert (Hget : forall M : Map2, StdMap.get [] cluster (StdMap.insert cluster [] M) = [])
    by (intros M; unfold StdMap.get; now rewrite StdMapFacts.find_insert_same).
  rewrite !Hget. repeat split; lia.
Qed.

Lemma ComputeStrandBreaks_conserves_witness :
  StdMap.wf (StdMap.get [] 0 pdb4dna_strand2)
  /\ ComputeStrandBreaks (17.5 * eV)%float 10 0 pdb4dna_strand1 pdb4dna_strand2
     = (1, 1, [(0, [])], [(0, [])])
  /\ 1 + 2 * 1
     = count_over (17.5 * eV)%float (StdMap.get [] 0 pdb4dna_strand1)
       + count_over (17.5 * eV)%float (StdMap.get [] 0 pdb4dna_strand2).
Proof.
  assert (Hwf : StdMap.wf (StdMap.get [] 0 pdb4dna_strand2))
    by (repeat constructor).
  assert (Hrun : ComputeStrandBreaks (17.5 * eV)%float 10 0 pdb4dna_strand1
                   pdb4dna_strand2 = (1, 1, [(0, [])], [(0, [])]))
    by (vm_compute; reflexivity).
  refine (conj Hwf (conj Hrun _)).
  exact (proj1 (ComputeStrandBreaks_conserves _ _ _ _ _ _ _ _ _ Hwf Hrun)).
Defined.

(** ** The rows of a run *)

Lemma process_hits_frame (hits : list Hit) :
  forall s,
    params (process_hits hits s) = params s
    /\ tallies (process_hits hits s) = tallies s
    /\ clusterLog (process_hits hits s) = clusterLog s
    /\ fNtuple (process_hits hits s) = fNtuple s.
Proof.
  unfold process_hits.
  induction hits as [|h hits IH]; intros s; [now repeat split|].
  cbn [fold_left]. destruct (IH (snd (ProcessHits h s))) as (H1 & H2 & H3 & H4).
  rewrite H1, H2, H3, H4. unfold ProcessHits.
  destruct (ProcessHits_maps _ h (edep s)); now repeat split.
Qed.

Section EventRows.
Variable ids : DamageIds.

Lemma split_pass_rows (s : Scorer) :
  exists s', split_pass ids s = Some s' /\ rows_appended (fEventID s) 1 s s'.
Proof.
  unfold split_pass, split_pass_with.
  destruct (RecordDSB1D _ _ _) as [[dsb ssb1] ssb2].
  match goal with
  | |- context [RecordClusteredDamage ids ?thr ?seq ?T ?L] =>
      destruct (RecordClusteredDamage_total ids thr seq T L
                  (CombineSimpleDamage_recognised _ _ _ _ _ _))
        as [[T' L'] ->]
  end.
  cbn [bind]. eexists. split; [reflexivity|].
  unfold rows_appended. cbn [params edep fEventID fNtuple].
  refine (conj eq_refl (conj eq_refl (conj eq_refl _))).
  destruct (any_positive T').
  - unfold Fill. eexists. split; [reflexivity|].
    split; [cbn; lia|]. repeat constructor.
  - exists []. rewrite app_nil_r. split; [reflexivity|].
    split; [cbn; lia|]. constructor.
Qed.

Lemma rows_appended_trans (eventID : Z) (n1 n2 : nat) (s1 s2 s3 : Scorer) :
  rows_appended eventID n1 s1 s2 -> rows_appended eventID n2 s2 s3 ->
  rows_appended eventID (n1 + n2) s1 s3.
Proof.
  intros (Hp1 & He1 & Hi1 & r1 & Hr1 & Hl1 & Hf1)
         (Hp2 & He2 & Hi2 & r2 & Hr2 & Hl2 & Hf2).
  unfold rows_appended.
  refine (conj _ (conj _ (conj _ _))); try congruence.
  exists (r1 ++ r2). rewrite Hr2, Hr1, app_assoc.
  split; [reflexivity|]. split; [rewrite length_app; lia|].
  apply Forall_app. now split.
Qed.

Lemma split_loop_rows (n : nat) :
  forall s, exists s',
    split_loop ids n s = Some s' /\ rows_appended (fEventID s) n s s'.
Proof.
  unfold split_loop. induction n as [|n IH]; intros s; cbn [split_loop_with].
  - exists s. split; [reflexivity|]. unfold rows_appended.
    refine (conj eq_refl (conj eq_refl (conj eq_refl _))).
    exists []. rewrite app_nil_r. repeat split; [cbn; lia | constructor].
  - destruct (split_pass_rows s) as (s1 & H1 & R1). unfold split_pass in H1.
    rewrite H1. cbn [bind].
    destruct (IH s1) as (s2 & H2 & R2). exists s2. split; [exact H2|].
    assert (E : fEventID s1 = fEventID s) by apply R1. rewrite E in R2.
    exact (rows_appended_trans _ 1 n _ _ _ R1 R2).
Qed.

Lemma fibre_pass_rows (s : Scorer) (parentDepth : Z) :
  exists s',
    fibre_pass_with ids (RecordClusteredDamage ids) s parentDepth = Some s'
    /\ (In parentDepth (StdMap.keys (fGenVEdepStrand1Backbone (edep s))) ->
        rows_of_event (fEventID s) (Z.to_nat (fNbOfAlgo (params s))) s s').
Proof.
  unfold fibre_pass_with.
  match goal with
  | |- context [split_loop_with ids ?c ?n ?s0] =>
      destruct (split_loop_rows n s0) as (s1 & H1 & R1)
  end.
  unfold split_loop in H1. cbn [params] in *. rewrite H1. cbn [bind].
  eexists. split; [reflexivity|]. intros Hin.
  destruct R1 as (Hp & He & Hi & rows & Hr & Hl & Hf).
  cbn [params edep fEventID fNtuple] in *.
  unfold rows_of_event. cbn [params edep fEventID fNtuple fGenVEdepStrand1Backbone].
  rewrite Hp, He, Hi. cbn [fGenVEdepStrand1Backbone].
  refine (conj eq_refl (conj eq_refl (conj _ _))).
  - unfold StdMap.touch.
    destruct (StdMap.find parentDepth _) eqn:Hf'; [reflexivity|].
    exfalso. revert Hin Hf'. generalize (fGenVEdepStrand1Backbone (edep s)).
    intros t. induction t as [|[k v] t IH]; cbn [StdMap.keys map fst StdMap.find In].
    + tauto.
    + intros [->|Hin]; [now rewrite Z.eqb_refl|].
      destruct (parentDepth =? k); [discriminate|]. now apply IH.
  - exists rows. auto.
Qed.

Lemma fibre_loop_rows (fibres : list Z) :
  forall s,
    exists s',
      fibre_loop_with ids (RecordClusteredDamage ids) fibres s = Some s'
      /\ (incl fibres (StdMap.keys (fGenVEdepStrand1Backbone (edep s))) ->
          rows_of_event (fEventID s)
            (List.length fibres * Z.to_nat (fNbOfAlgo (params s))) s s').
Proof.
  induction fibres as [|pd fibres IH]; intros s; cbn [fibre_loop_with].
  - exists s. split; [reflexivity|]. intros _. unfold rows_of_event.
    refine (conj eq_refl (conj eq_refl (conj eq_refl _))).
    exists []. rewrite app_nil_r. repeat split; [cbn; lia | constructor].
  - destruct (fibre_pass_rows s pd) as (s1 & H1 & R1). rewrite H1. cbn [bind].
    destruct (IH s1) as (s2 & H2 & R2). exists s2. split; [exact H2|].
    intros Hincl.
    destruct (R1 (Hincl pd (or_introl eq_refl)))
      as (Hp1 & Hi1 & Hg1 & r1 & Hr1 & Hl1 & Hf1).
    destruct R2 as (Hp2 & Hi2 & Hg2 & r2 & Hr2 & Hl2 & Hf2).
    { rewrite Hg1. intros x Hx. apply Hincl. now right. }
    unfold rows_of_event.
    refine (conj _ (conj _ (conj _ _))); try congruence.
    exists (r1 ++ r2). rewrite Hr2, Hr1, app_assoc. split; [reflexivity|].
    split.
    + rewrite length_app. rewrite Hp1 in Hl2. cbn [List.length]. lia.
    + apply Forall_app. split; [exact Hf1|]. now rewrite Hi1 in Hf2.
Qed.

Lemma run_event_rows (s : Scorer) (ev : Z * list Hit) :
  exists s' rows,
    run_event ids s ev = Some s'
    /\ params s' = params s
    /\ fNtuple s' = fNtuple s ++ rows
    /\ (List.length rows
        <= List.length
             (StdMap.keys
                (fGenVEdepStrand1Backbone (edep (process_hits (snd ev) s))))
           * Z.to_nat (fNbOfAlgo (params s)))%nat
    /\ Forall (fun r => rowEventID r = fst ev) rows
    /\ fGenVEdepStrand1Backbone (edep s') = []
    /\ fGenVEdepStrand2Backbone (edep s') = [].
Proof.
  unfold run_event, UserHookForEndOfEvent, end_of_event_with.
  destruct (process_hits_frame (snd ev) s) as (Fp & _ & _ & Fn).
  set (s0 := process_hits (snd ev) s) in *.
  match goal with
  | |- context [fibre_loop_with ids ?c ?l ?s1] =>
      destruct (fibre_loop_rows l s1) as (s2 & H2 & R2)
  end.
  rewrite H2. cbn [bind].
  destruct R2 as (Hp & Hi & Hg & rows & Hr & Hl & Hf).
  { cbn [edep]. apply incl_refl. }
  cbn [params edep fEventID fNtuple] in *.
  eexists. exists rows. split; [reflexivity|].
  cbn [params edep fNtuple fGenVEdepStrand1Backbone fGenVEdepStrand2Backbone].
  rewrite Fp in Hp, Hl. rewrite Fn in Hr.
  exact (conj Hp (conj Hr (conj Hl (conj Hf (conj eq_refl eq_refl))))).
Qed.
End EventRows.

Lemma ScoreClusteredDNADamage_initial (fPm : ParameterManager) (s : Scorer) :
  ScoreClusteredDNADamage fPm = Some s ->
  fThresDistForCluster (params s) = 40
  /\ fThresEdepForBD (params s) = (17.5 * eV)%float
  /\ tallies s = mkTallies 0 0 0 0 0
  /\ clusterLog s = ClusterLog_empty
  /\ fNtuple s = []
  /\ edep s = EdepMaps_empty.
Proof.
  unfold ScoreClusteredDNADamage.
  repeat match goal with
         | |- context [read_if_exists ?a ?b ?c ?d] =>
             destruct (read_if_exists a b c d); cbn [bind]; [|discriminate]
         end.
  intros [= <-]. cbn. repeat split.
Qed.

(** The end-of-event hook never reaches the [exit(0)] of
    [AddDamageToCluster]: whatever the labels, the events and the state
    of the scorer, every event returns.  A run ends early only in the
    constructor. *)
Theorem event_loop_never_exits :
  forall (ids : DamageIds),
    (forall (evs : list (Z * list Hit)) (s : Scorer),
        exists s', run_events ids evs s = Some s')
    /\ (forall (fPm : ParameterManager) (evs : list (Z * list Hit)),
          run ids fPm evs = None <-> ScoreClusteredDNADamage fPm = None).
Proof.
  intros ids.
  assert (H : forall evs s, exists s', run_events ids evs s = Some s').
  { induction evs as [|ev evs IH]; intros s; cbn [run_events]; [eauto|].
    destruct (run_event_rows ids s ev) as (s1 & rows & H1 & _).
    rewrite H1. cbn [bind]. apply IH. }
  split; [exact H|].
  intros fPm evs. unfold run.
  destruct (ScoreClusteredDNADamage fPm) as [s0|]; cbn [bind]; [|tauto].
  destruct (H evs s0) as [s' ->]. split; discriminate.
Qed.

(** The rows of an event are appended to the rows already written,
    each with the number of the event, and there are at most as many
    as fibres with a strand-1 backbone entry times split copies; so the
    rows of a run are those of its events, in the order of the
    events. *)
Theorem ntuple_rows_by_event :
  forall (ids : DamageIds),
    (forall (s : Scorer) (ev : Z * list Hit),
        exists s' rows,
          run_event ids s ev = Some s'
          /\ fNtuple s' = fNtuple s ++ rows
          /\ (List.length rows
              <= List.length
                   (StdMap.keys
                      (fGenVEdepStrand1Backbone
                         (edep (process_hits (snd ev) s))))
                 * Z.to_nat (fNbOfAlgo (params s)))%nat
          /\ Forall (fun r => rowEventID r = fst ev) rows)
    /\ (forall (evs : list (Z * list Hit)) (s : Scorer),
          exists s' blocks,
            run_events ids evs s = Some s'
            /\ fNtuple s' = fNtuple s ++ List.concat blocks
            /\ Forall2 (fun ev rows => Forall (fun r => rowEventID r = fst ev) rows)
                 evs blocks).
Proof.
  intros ids. split.
  - intros s ev.
    destruct (run_event_rows ids s ev)
      as (s' & rows & H1 & _ & H2 & H3 & H4 & _).
    exists s', rows. auto.
  - induction evs as [|ev evs IH]; intros s; cbn [run_events].
    + exists s, []. cbn [List.concat]. rewrite app_nil_r. repeat split. constructor.
    + destruct (run_event_rows ids s ev)
        as (s1 & rows & H1 & _ & H2 & _ & H4 & _).
      rewrite H1. cbn [bind].
      destruct (IH s1) as (s' & blocks & Hrun & Hrows & Hall).
      exists s', (rows :: blocks). split; [exact Hrun|]. split.
      * rewrite Hrows, H2. cbn [List.concat]. now rewrite app_assoc.
      * now constructor.
Qed.

Lemma run_events_params (ids : DamageIds) (evs : list (Z * list Hit)) :
  forall s s', run_events ids evs s = Some s' -> params s' = params s.
Proof.
  induction evs as [|ev evs IH]; intros s s'; cbn [run_events].
  - now intros [= <-].
  - destruct (run_event_rows ids s ev) as (s1 & rows & H1 & Hp & _).
    rewrite H1. cbn [bind]. intros H2. rewrite (IH _ _ H2). exact Hp.
Qed.

(** No parameter reaches the clustering distance or the base damage
    threshold: in every run they are 40 base pairs and 17.5 eV, and the
    parameters are those the constructor has set. *)
Theorem run_fixed_parameters :
  forall (ids : DamageIds) (fPm : ParameterManager)
         (evs : list (Z * list Hit)) (s : Scorer),
    run ids fPm evs = Some s ->
    fThresDistForCluster (params s) = 40
    /\ fThresEdepForBD (params s) = (17.5 * eV)%float
    /\ exists s0, ScoreClusteredDNADamage fPm = Some s0 /\ params s = params s0.
Proof.
  intros ids fPm evs s. unfold run.
  destruct (ScoreClusteredDNADamage fPm) as [s0|] eqn:H0; cbn [bind];
    [|discriminate].
  intros Hrun. apply run_events_params in Hrun. rewrite Hrun.
  destruct (ScoreClusteredDNADamage_initial _ _ H0) as (H1 & H2 & _).
  eauto.
Qed.

Lemma run_fixed_parameters_witness :
  exists s : Scorer,
    run ids012 two_fibre_parameters [(0, two_fibre_hits)] = Some s
    /\ fThresDistForCluster (params s) = 40.
Proof.
  eexists. split; [vm_compute; reflexivity|].
  refine (proj1 (run_fixed_parameters ids012 two_fibre_parameters
                   [(0, two_fibre_hits)] _ _)).
  vm_compute. reflexivity.
Defined.

(** ** The merge keeps every entry *)

Lemma merge_loop_Permutation (ty : Z) (fuel : nat) :
  forall (src : list Z) (rest : list (Z * Z)),
    Permutation (merge_loop fuel ty src rest) (rest ++ tag_sites ty src).
Proof.
  induction fuel as [|fuel IH]; intros src rest; cbn [merge_loop].
  - apply Permutation_refl.
  - destruct src as [|site src].
    + cbn [tag_sites map]. rewrite app_nil_r. apply Permutation_refl.
    + destruct rest as [|cur rest].
      * apply Permutation_refl.
      * destruct (site <? fst cur).
        -- eapply Permutation_trans; [apply IH|].
           change (tag_sites ty (site :: src))
             with ((site, ty) :: tag_sites ty src).
           change (((site, ty) :: cur :: rest) ++ tag_sites ty src)
             with ((site, ty) :: ((cur :: rest) ++ tag_sites ty src)).
           apply Permutation_middle.
        -- cbn [app]. apply perm_skip. apply IH.
Qed.

Lemma CombineSimpleDamage_tagged (ids : DamageIds)
    (ssb1 bd1 ssb2 bd2 dsb : list Z) :
  Permutation (CombineSimpleDamage ids ssb1 bd1 ssb2 bd2 dsb)
    (tag_sites (fIdSSB ids) ssb1 ++ tag_sites (fIdBD ids) bd1
     ++ tag_sites (fIdSSB ids) ssb2 ++ tag_sites (fIdBD ids) bd2
     ++ tag_sites (fIdDSB ids) dsb).
Proof.
  unfold CombineSimpleDamage, merge_damage. cbv zeta.
  eapply Permutation_trans; [apply merge_loop_Permutation|].
  rewrite !app_assoc. apply Permutation_app_tail.
  eapply Permutation_trans; [apply merge_loop_Permutation|].
  apply Permutation_app_tail.
  eapply Permutation_trans; [apply merge_loop_Permutation|].
  apply Permutation_app_tail.
  apply merge_loop_Permutation.
Qed.

(** The merge neither loses nor duplicates an entry, whatever the order
    of the five vectors: the merged vector is a rearrangement of their
    entries, each with the label of its vector. *)
Theorem CombineSimpleDamage_Permutation :
  forall (ids : DamageIds) (ssb1 bd1 ssb2 bd2 dsb : list Z),
    Permutation (CombineSimpleDamage ids ssb1 bd1 ssb2 bd2 dsb)
      (tag_sites (fIdSSB ids) ssb1 ++ tag_sites (fIdBD ids) bd1
       ++ tag_sites (fIdSSB ids) ssb2 ++ tag_sites (fIdBD ids) bd2
       ++ tag_sites (fIdDSB ids) dsb)
    /\ List.length (CombineSimpleDamage ids ssb1 bd1 ssb2 bd2 dsb)
       = (List.length ssb1 + List.length bd1 + List.length ssb2
          + List.length bd2 + List.length dsb)%nat.
Proof.
  intros ids ssb1 bd1 ssb2 bd2 dsb.
  pose proof (CombineSimpleDamage_tagged ids ssb1 bd1 ssb2 bd2 dsb) as P.
  split; [exact P|].
  rewrite (Permutation_length P). unfold tag_sites.
  rewrite !length_app, !length_map. lia.
Qed.

(** ** What the pairing leaves *)

Lemma ascending_cons_inv (x : Z) (l : list Z) :
  ascending (x :: l) -> ascending l /\ Forall (fun y => x <= y) l.
Proof. unfold ascending. intros H. inversion H; subst. now split. Qed.

Section Leftovers.
Variable thr : Z.

(** What is left of each vector is part of it, in the order it had: an
    order of the vector is an order of what is left. *)
Lemma RecordDSB1D_from_kept (R : Z -> Z -> Prop) :
  forall l1 l2 : list Z,
    StronglySorted R l1 -> StronglySorted R l2 ->
    incl (snd (fst (RecordDSB1D_from thr l1 l2))) l1
    /\ incl (snd (RecordDSB1D_from thr l1 l2)) l2
    /\ StronglySorted R (snd (fst (RecordDSB1D_from thr l1 l2)))
    /\ StronglySorted R (snd (RecordDSB1D_from thr l1 l2)).
Proof.
  induction l1 as [|s1 l1 IH1]; intros l2 H1 H2.
  - cbn. refine (conj _ (conj _ (conj _ H2)));
      [apply incl_refl | apply incl_refl | constructor].
  - induction l2 as [|s2 l2 IH2].
    + rewrite RecordDSB1D_from_nil_r. cbn [fst snd].
      refine (conj _ (conj _ (conj H1 _)));
        [apply incl_refl | apply incl_refl | constructor].
    + rewrite RecordDSB1D_from_cons.
      inversion H1 as [|? ? H1' Hlow1]; subst.
      inversion H2 as [|? ? H2' Hlow2]; subst.
      rewrite Forall_forall in Hlow1, Hlow2.
      destruct (G4int_abs (G4int_sub s2 s1) <=? thr).
      * specialize (IH1 l2 H1' H2').
        destruct (RecordDSB1D_from thr l1 l2) as [[dsb r1] r2].
        cbn [fst snd] in *. destruct IH1 as (I1 & I2 & A1 & A2).
        refine (conj _ (conj _ (conj A1 A2))); now apply incl_tl.
      * destruct (G4int_sub s2 s1 <? 0).
        -- specialize (IH2 H2').
           destruct (RecordDSB1D_from thr (s1 :: l1) l2) as [[dsb r1] r2].
           cbn [fst snd] in *. destruct IH2 as (I1 & I2 & A1 & A2).
           refine (conj I1 (conj _ (conj A1 _))).
           ++ intros x [<-|Hx]; [now left | right; now apply I2].
           ++ constructor; [exact A2|].
              apply Forall_forall. intros y Hy. apply Hlow2. now apply I2.
        -- specialize (IH1 (s2 :: l2) H1' H2).
           destruct (RecordDSB1D_from thr l1 (s2 :: l2)) as [[dsb r1] r2].
           cbn [fst snd] in *. destruct IH1 as (I1 & I2 & A1 & A2).
           refine (conj _ (conj I2 (conj _ A2))).
           ++ intros x [<-|Hx]; [now left | right; now apply I1].
           ++ constructor; [exact A1|].
              apply Forall_forall. intros y Hy. apply Hlow1. now apply I1.
Qed.

Lemma RecordDSB1D_from_far :
  forall l1 l2 : list Z,
    Forall G4int_half l1 -> Forall G4int_half l2 ->
    ascending l1 -> ascending l2 ->
    forall s1 s2,
      In s1 (snd (fst (RecordDSB1D_from thr l1 l2))) ->
      In s2 (snd (RecordDSB1D_from thr l1 l2)) ->
      thr < Z.abs (s2 - s1).
Proof.
  induction l1 as [|s1 l1 IH1]; intros l2 B1 B2 H1 H2.
  - cbn. intros a b [].
  - inversion B1 as [|? ? Bs1 B1']; subst.
    induction l2 as [|s2 l2 IH2].
    + rewrite RecordDSB1D_from_nil_r. cbn [fst snd]. intros a b _ [].
    + inversion B2 as [|? ? Bs2 B2']; subst.
      destruct (ascending_cons_inv _ _ H1) as [H1' Hlow1].
      destruct (ascending_cons_inv _ _ H2) as [H2' Hlow2].
      rewrite Forall_forall in Hlow1, Hlow2.
      pose proof (RecordDSB1D_from_kept Z.le (s1 :: l1) l2 H1 H2')
        as (K1 & K2 & _).
      pose proof (RecordDSB1D_from_kept Z.le l1 (s2 :: l2) H1' H2)
        as (K3 & K4 & _).
      rewrite (RecordDSB1D_from_cons_exact _ _ _ _ _ Bs1 Bs2).
      destruct (Z.abs (s2 - s1) <=? thr) eqn:Hd.
      * specialize (IH1 l2 B1' B2' H1' H2').
        destruct (RecordDSB1D_from thr l1 l2) as [[dsb r1] r2].
        cbn [fst snd] in *. exact IH1.
      * apply Z.leb_gt in Hd.
        destruct (s2 - s1 <? 0) eqn:Hneg.
        -- apply Z.ltb_lt in Hneg. specialize (IH2 B2' H2').
           destruct (RecordDSB1D_from thr (s1 :: l1) l2) as [[dsb r1] r2].
           cbn [fst snd] in *.
           intros a b Ha [<-|Hb]; [|now apply IH2].
           assert (s1 <= a).
           { destruct (K1 a Ha) as [<-|Hin]; [lia | now apply Hlow1]. }
           lia.
        -- apply Z.ltb_ge in Hneg. specialize (IH1 (s2 :: l2) B1' B2 H1' H2).
           destruct (RecordDSB1D_from thr l1 (s2 :: l2)) as [[dsb r1] r2].
           cbn [fst snd] in *.
           intros a b [<-|Ha] Hb; [|now apply IH1].
           assert (s2 <= b).
           { destruct (K4 b Hb) as [<-|Hin]; [lia | now apply Hlow2]. }
           lia.
Qed.

Lemma RecordDSB1D_from_Permutation :
  forall l1 l2 : list Z,
    Permutation
      (fst (fst (RecordDSB1D_from thr l1 l2))
       ++ snd (fst (RecordDSB1D_from thr l1 l2))
       ++ snd (RecordDSB1D_from thr l1 l2))
      (l1 ++ l2).
Proof.
  induction l1 as [|s1 l1 IH1]; intros l2.
  - cbn. apply Permutation_refl.
  - induction l2 as [|s2 l2 IH2].
    + rewrite RecordDSB1D_from_nil_r. cbn [fst snd app].
      rewrite !app_nil_r. apply Permutation_refl.
    + rewrite RecordDSB1D_from_cons.
      destruct (G4int_abs (G4int_sub s2 s1) <=? thr).
      * specialize (IH1 l2).
        destruct (RecordDSB1D_from thr l1 l2) as [[dsb r1] r2].
        cbn [fst snd] in *.
        assert (P : Permutation ((s1 :: l1) ++ s2 :: l2) (s1 :: s2 :: l1 ++ l2)).
        { cbn [app]. apply perm_skip. apply Permutation_sym, Permutation_middle. }
        eapply Permutation_trans; [|apply Permutation_sym, P].
        destruct (s1 <=? s2); cbn [app].
        -- now do 2 apply perm_skip.
        -- eapply Permutation_trans; [apply perm_swap|]. now do 2 apply perm_skip.
      * destruct (G4int_sub s2 s1 <? 0).
        -- destruct (RecordDSB1D_from thr (s1 :: l1) l2) as [[dsb r1] r2].
           cbn [fst snd] in *.
           eapply Permutation_trans;
             [|apply (Permutation_middle (s1 :: l1) l2 s2)].
           eapply Permutation_trans; [|apply perm_skip, IH2].
           rewrite app_assoc.
           eapply Permutation_trans;
             [apply Permutation_sym, Permutation_middle|].
           rewrite <- app_assoc. apply Permutation_refl.
        -- specialize (IH1 (s2 :: l2)).
           destruct (RecordDSB1D_from thr l1 (s2 :: l2)) as [[dsb r1] r2].
           cbn [fst snd] in *. cbn [app].
           eapply Permutation_trans; [|apply perm_skip, IH1].
           apply Permutation_sym, Permutation_middle.
Qed.
End Leftovers.

(** On ascending SSB vectors whose differences do not overflow, the
    pairing leaves no DSB behind: what is left of the two vectors is in
    ascending order, and no site left on strand 1 is within the DSB
    distance of a site left on strand 2.  Every site of the input is in
    exactly one of the three vectors. *)
Theorem RecordDSB1D_leftovers :
  forall (thr : Z) (l1 l2 : list Z),
    Forall G4int_half l1 -> Forall G4int_half l2 ->
    ascending l1 -> ascending l2 ->
    leftovers_of thr l1 l2 (snd (fst (RecordDSB1D thr l1 l2)))
      (snd (RecordDSB1D thr l1 l2))
    /\ Permutation
         (fst (fst (RecordDSB1D thr l1 l2)) ++ snd (fst (RecordDSB1D thr l1 l2))
          ++ snd (RecordDSB1D thr l1 l2))
         (l1 ++ l2).
Proof.
  intros thr l1 l2 B1 B2 H1 H2. unfold RecordDSB1D. split.
  - destruct (RecordDSB1D_from_kept thr Z.le l1 l2 H1 H2) as (I1 & I2 & A1 & A2).
    refine (conj I1 (conj I2 (conj A1 (conj A2 _)))).
    now apply RecordDSB1D_from_far.
  - apply RecordDSB1D_from_Permutation.
Qed.

Lemma RecordDSB1D_leftovers_witness :
  Forall G4int_half [0; 5; 9] /\ Forall G4int_half [3; 9; 20]
  /\ ascending [0; 5; 9] /\ ascending [3; 9; 20]
  /\ RecordDSB1D 1 [0; 5; 9] [3; 9; 20] = ([9; 9], [0; 5], [3; 20])
  /\ leftovers_of 1 [0; 5; 9] [3; 9; 20] [0; 5] [3; 20].
Proof.
  assert (B1 : Forall G4int_half [0; 5; 9]) by G4int_half_list.
  assert (B2 : Forall G4int_half [3; 9; 20]) by G4int_half_list.
  assert (H1 : ascending [0; 5; 9]) by (repeat constructor; lia).
  assert (H2 : ascending [3; 9; 20]) by (repeat constructor; lia).
  refine (conj B1 (conj B2 (conj H1 (conj H2 (conj eq_refl _))))).
  exact (proj1 (RecordDSB1D_leftovers 1 [0; 5; 9] [3; 9; 20] B1 B2 H1 H2)).
Defined.

(** ** The order of the simple damage in every run *)

Lemma RecordSimpleDamage_ascending (t : float) (m : Map2) :
  wf2 m -> StronglySorted Z.lt (RecordSimpleDamage t m).
Proof.
  intros Hm. rewrite RecordSimpleDamage_spec. apply over_threshold_sorted.
  now apply WfFacts.wf2_get.
Qed.

Lemma pass_indices_ascending (ids : DamageIds) (p : Params) (m : EdepMaps) :
  EdepMaps_wf m -> indices_ascending (pass_indices ids p m).
Proof.
  intros (_ & _ & _ & _ & H5 & H6 & H7 & H8). unfold pass_indices, RecordDSB1D.
  pose proof (RecordDSB1D_from_kept (fThresDistForDSB p) Z.lt _ _
                (RecordSimpleDamage_ascending (fThresEdepForSSB p) _ H5)
                (RecordSimpleDamage_ascending (fThresEdepForSSB p) _ H6))
    as (_ & _ & A1 & A2).
  destruct (RecordDSB1D_from _ _ _) as [[dsb ssb1] ssb2]. cbn [fst snd] in *.
  unfold indices_ascending. cbn [fIndicesSSB1 fIndicesSSB2 fIndicesBD1 fIndicesBD2].
  refine (conj A1 (conj A2 (conj _ _))); now apply RecordSimpleDamage_ascending.
Qed.

Section MapsAndIndices.
Variable ids : DamageIds.

Lemma split_loop_ok (n : nat) (s s' : Scorer) :
  maps_and_indices_ok s ->
  split_loop_with ids (RecordClusteredDamage ids) n s = Some s' ->
  maps_and_indices_ok s'.
Proof.
  intros [Hm Hi] Hloop. split.
  - apply split_loop_with_frame in Hloop. destruct Hloop as (_ & -> & _).
    exact Hm.
  - destruct n as [|n].
    + cbn in Hloop. now injection Hloop as <-.
    + rewrite (split_loop_with_indices _ _ _ _ _ Hloop).
      now apply pass_indices_ascending.
Qed.

Lemma fibre_pass_ok (s s' : Scorer) (parentDepth : Z) :
  maps_and_indices_ok s ->
  fibre_pass_with ids (RecordClusteredDamage ids) s parentDepth = Some s' ->
  maps_and_indices_ok s'.
Proof.
  intros [Hm Hi] Hpass. split; [exact (fibre_pass_wf ids _ _ _ Hm Hpass)|].
  revert Hpass. unfold fibre_pass_with.
  match goal with
  | |- context [split_loop_with ids ?c ?n ?s0] =>
      destruct (split_loop_with ids c n s0) as [s1|] eqn:Hloop
  end; cbn [bind]; [|discriminate].
  intros [= <-]. cbn [indices].
  apply split_loop_ok in Hloop; [apply Hloop|].
  split; [|exact Hi]. cbn [edep].
  destruct Hm as (H1 & H2 & H3 & H4 & H5 & H6 & H7 & H8).
  edep_wf_split;
    first [now apply WfFacts.wf3_touch
          | apply WfFacts.wf3_get; now apply WfFacts.wf3_touch].
Qed.

Lemma fibre_loop_ok (fibres : list Z) :
  forall s s',
    maps_and_indices_ok s ->
    fibre_loop_with ids (RecordClusteredDamage ids) fibres s = Some s' ->
    maps_and_indices_ok s'.
Proof.
  induction fibres as [|pd fibres IH]; intros s s' Hs; cbn [fibre_loop_with].
  - now intros [= <-].
  - destruct (fibre_pass_with ids _ s pd) as [s1|] eqn:H1; cbn [bind];
      [|discriminate].
    apply IH. exact (fibre_pass_ok _ _ _ Hs H1).
Qed.

Lemma process_hits_indices (hits : list Hit) :
  forall s, indices (process_hits hits s) = indices s.
Proof.
  unfold process_hits.
  induction hits as [|h hits IH]; intros s; [reflexivity|].
  cbn [fold_left]. rewrite IH. unfold ProcessHits.
  destruct (ProcessHits_maps _ h (edep s)) as [b m]. reflexivity.
Qed.

Lemma run_events_ok (evs : list (Z * list Hit)) :
  forall s s',
    maps_and_indices_ok s -> run_events ids evs s = Some s' ->
    maps_and_indices_ok s'.
Proof.
  induction evs as [|ev evs IH]; intros s s' Hs; cbn [run_events].
  - now intros [= <-].
  - destruct (run_event ids s ev) as [s1|] eqn:H1; cbn [bind]; [|discriminate].
    apply IH. destruct Hs as [Hm Hi]. split.
    + unfold run_event in H1.
      eapply UserHookForEndOfEvent_wf; [|exact H1]. now apply process_hits_wf.
    + revert H1. unfold run_event, UserHookForEndOfEvent, end_of_event_with.
      match goal with
      | |- context [fibre_loop_with ids ?c ?l ?s0] =>
          destruct (fibre_loop_with ids c l s0) as [s2|] eqn:Hloop
      end; cbn [bind]; [|discriminate].
      intros [= <-]. cbn [indices].
      apply fibre_loop_ok in Hloop; [apply Hloop|].
      split; cbn [edep indices].
      * now apply process_hits_wf.
      * rewrite process_hits_indices. exact Hi.
Qed.
End MapsAndIndices.

Lemma ScoreClusteredDNADamage_indices (fPm : ParameterManager) (s : Scorer) :
  ScoreClusteredDNADamage fPm = Some s -> indices_ascending (indices s).
Proof.
  unfold ScoreClusteredDNADamage.
  repeat match goal with
         | |- context [read_if_exists ?a ?b ?c ?d] =>
             destruct (read_if_exists a b c d); cbn [bind]; [|discriminate]
         end.
  intros [= <-]. repeat split; constructor.
Qed.

(** In every run the simple damage is held in strictly ascending order
    of base pair index: the vector that [RecordSimpleDamage] extracts
    from each of the four maps of the scorer, at any threshold, and the
    four vectors of SSB and BD indices as the last round, with its DSB
    pairing, has left them. *)
Theorem run_simple_damage_ascending :
  forall (ids : DamageIds) (fPm : ParameterManager)
         (evs : list (Z * list Hit)) (s : Scorer),
    run ids fPm evs = Some s ->
    (forall t : float,
        StronglySorted Z.lt (RecordSimpleDamage t (fVEdepStrand1Backbone (edep s)))
        /\ StronglySorted Z.lt
             (RecordSimpleDamage t (fVEdepStrand2Backbone (edep s)))
        /\ StronglySorted Z.lt (RecordSimpleDamage t (fVEdepStrand1Base (edep s)))
        /\ StronglySorted Z.lt (RecordSimpleDamage t (fVEdepStrand2Base (edep s))))
    /\ StronglySorted Z.lt (fIndicesSSB1 (indices s))
    /\ StronglySorted Z.lt (fIndicesSSB2 (indices s))
    /\ StronglySorted Z.lt (fIndicesBD1 (indices s))
    /\ StronglySorted Z.lt (fIndicesBD2 (indices s)).
Proof.
  intros ids fPm evs s. unfold run.
  destruct (ScoreClusteredDNADamage fPm) as [s0|] eqn:H0; cbn [bind];
    [|discriminate].
  intros Hrun.
  destruct (run_events_ok ids evs s0 s) as [Hm Hi];
    [split; [exact (ScoreClusteredDNADamage_wf _ _ H0)
            | exact (ScoreClusteredDNADamage_indices _ _ H0)]
    | exact Hrun |].
  split; [|exact Hi].
  destruct Hm as (_ & _ & _ & _ & H5 & H6 & H7 & H8).
  intros t. repeat split; now apply RecordSimpleDamage_ascending.
Qed.

Lemma run_simple_damage_ascending_witness :
  exists s : Scorer,
    run ids012 [] [simple_damage_event] = Some s
    /\ fIndicesSSB1 (indices s) = [0; 200]
    /\ fIndicesSSB2 (indices s) = [100; 300]
    /\ fIndicesBD1 (indices s) = [7; 9]
    /\ fIndicesBD2 (indices s) = [50]
    /\ RecordSimpleDamage (17.5 * eV)%float (fVEdepStrand1Base (edep s)) = [7; 9]
    /\ StronglySorted Z.lt (fIndicesSSB1 (indices s))
    /\ StronglySorted Z.lt (fIndicesSSB2 (indices s))
    /\ StronglySorted Z.lt (fIndicesBD1 (indices s))
    /\ StronglySorted Z.lt (fIndicesBD2 (indices s)).
Proof.
  eexists. split; [vm_compute; reflexivity|].
  refine (conj eq_refl (conj eq_refl (conj eq_refl (conj eq_refl
            (conj _ _))))); [vm_compute; reflexivity|].
  refine (proj2 (run_simple_damage_ascending ids012 [] [simple_damage_event]
                   _ _)).
  vm_compute. reflexivity.
Defined.

(** ** Invariants of the output of a run *)

(** Invariants of the output of a run: a property of the parameters,
    the tallies, the cluster records and the rows that every round of
    the loop over the split copies keeps is kept by every event. *)
Section RunInvariant.
Variable ids : DamageIds.
Variable Q : Params -> Tallies -> ClusterLog -> list Row -> Prop.

Hypothesis split_pass_keeps :
  forall s s', split_pass ids s = Some s' -> holds Q s -> holds Q s'.

Lemma split_loop_keeps (n : nat) :
  forall s s',
    split_loop_with ids (RecordClusteredDamage ids) n s = Some s' ->
    holds Q s -> holds Q s'.
Proof.
  induction n as [|n IH]; intros s s'; cbn [split_loop_with].
  - now intros [= <-].
  - destruct (split_pass_with ids _ s) as [s1|] eqn:H1; cbn [bind];
      [|discriminate].
    intros H2 Hs. apply (IH s1 s' H2). exact (split_pass_keeps s s1 H1 Hs).
Qed.

Lemma fibre_pass_keeps (s s' : Scorer) (parentDepth : Z) :
  fibre_pass_with ids (RecordClusteredDamage ids) s parentDepth = Some s' ->
  holds Q s -> holds Q s'.
Proof.
  unfold fibre_pass_with.
  match goal with
  | |- context [split_loop_with ids ?c ?n ?s0] =>
      destruct (split_loop_with ids c n s0) as [s1|] eqn:Hloop
  end; cbn [bind]; [|discriminate].
  intros [= <-] Hs. apply split_loop_keeps in Hloop; [exact Hloop | exact Hs].
Qed.

Lemma fibre_loop_keeps (fibres : list Z) :
  forall s s',
    fibre_loop_with ids (RecordClusteredDamage ids) fibres s = Some s' ->
    holds Q s -> holds Q s'.
Proof.
  induction fibres as [|pd fibres IH]; intros s s'; cbn [fibre_loop_with].
  - now intros [= <-].
  - destruct (fibre_pass_with ids _ s pd) as [s1|] eqn:H1; cbn [bind];
      [|discriminate].
    intros H2 Hs. apply (IH s1 s' H2). exact (fibre_pass_keeps _ _ _ H1 Hs).
Qed.

Lemma run_event_keeps (s s' : Scorer) (ev : Z * list Hit) :
  run_event ids s ev = Some s' -> holds Q s -> holds Q s'.
Proof.
  unfold run_event, UserHookForEndOfEvent, end_of_event_with.
  match goal with
  | |- context [fibre_loop_with ids ?c ?l ?s0] =>
      destruct (fibre_loop_with ids c l s0) as [s1|] eqn:Hloop
  end; cbn [bind]; [|discriminate].
  intros [= <-] Hs. apply fibre_loop_keeps in Hloop; [exact Hloop|].
  unfold holds in *. cbn [params tallies clusterLog fNtuple].
  destruct (process_hits_frame (snd ev) s) as (-> & -> & -> & ->). exact Hs.
Qed.

Lemma run_events_keeps (evs : list (Z * list Hit)) :
  forall s s', run_events ids evs s = Some s' -> holds Q s -> holds Q s'.
Proof.
  induction evs as [|ev evs IH]; intros s s'; cbn [run_events].
  - now intros [= <-].
  - destruct (run_event ids s ev) as [s1|] eqn:H1; cbn [bind]; [|discriminate].
    intros H2 Hs. apply (IH s1 s' H2). exact (run_event_keeps _ _ _ H1 Hs).
Qed.
End RunInvariant.

Section Aligned.
Variable ids : DamageIds.
Variable thr : Z.

Lemma RecordCluster_aligned (c c' : DamageCluster) (T T' : Tallies)
    (L L' : ClusterLog) :
  RecordCluster c T L = (c', T', L') -> log_aligned T L -> log_aligned T' L'.
Proof.
  unfold RecordCluster, log_aligned.
  destruct (0 <? numDSB c); intros [= <- <- <-];
    cbn [fComplexDSBSizes fComplexDSBNumSSB fComplexDSBNumBD fComplexDSBNumDSB
         fComplexDSBNumDamage fNonDSBClusterSizes fNonDSBClusterNumSSB
         fNonDSBClusterNumBD fNonDSBClusterNumDamage fTotalComplexDSB
         fTotalNonDSBCluster];
    rewrite ?length_app; cbn [List.length]; lia.
Qed.

Lemma AddDamageToCluster_aligned (c c' : DamageCluster) (site ty : Z)
    (nc : bool) (T T' : Tallies) (L : ClusterLog) :
  AddDamageToCluster ids c site ty nc T = Some (c', T') ->
  log_aligned T L -> log_aligned T' L.
Proof.
  unfold AddDamageToCluster, log_aligned.
  destruct (ty =? fIdSSB ids); [|destruct (ty =? fIdBD ids);
                                  [|destruct (ty =? fIdDSB ids); [|discriminate]]];
    intros [= <- <-]; cbn [fTotalComplexDSB fTotalNonDSBCluster]; tauto.
Qed.

Lemma RecordClusteredDamage_loop_aligned :
  forall (sites : list (Z * Z)) (sitePrev : Z * Z) (s s' : Scan),
    RecordClusteredDamage_loop ids thr sitePrev sites s = Some s' ->
    log_aligned (scanT s) (scanL s) -> log_aligned (scanT s') (scanL s').
Proof.
  induction sites as [|siteCur sites IH]; intros sitePrev s s';
    cbn [RecordClusteredDamage_loop].
  - now intros [= <-].
  - destruct (G4int_sub (fst siteCur) (fst sitePrev) <=? thr).
    + destruct (newCluster s) eqn:Hn; cbv beta iota zeta; rewrite ?Hn.
      * destruct (AddDamageToCluster ids (cluster s) (fst sitePrev) (snd sitePrev) true (scanT s))
          as [[c1 T1]|] eqn:E1; cbv beta iota; [|discriminate].
        cbn [cluster newCluster scanT scanL buildingCluster].
        destruct (AddDamageToCluster ids c1 (fst siteCur) (snd siteCur) false T1)
          as [[c2 T2]|] eqn:E2; cbv beta iota; [|discriminate].
        intros Hloop Hs. apply (IH _ _ _ Hloop).
        cbn [scanT scanL].
        eapply AddDamageToCluster_aligned; [exact E2|].
        eapply AddDamageToCluster_aligned; [exact E1|exact Hs].
      * destruct (AddDamageToCluster ids (cluster s) (fst siteCur) (snd siteCur) false (scanT s))
          as [[c2 T2]|] eqn:E2; cbv beta iota; [|discriminate].
        intros Hloop Hs. apply (IH _ _ _ Hloop).
        cbn [scanT scanL].
        eapply AddDamageToCluster_aligned; [exact E2|exact Hs].
    + destruct (buildingCluster s).
      * destruct (RecordCluster (cluster s) (scanT s) (scanL s))
          as [[c T] L] eqn:E.
        intros Hloop Hs. apply (IH _ _ _ Hloop). cbn [scanT scanL].
        eapply RecordCluster_aligned; [exact E|exact Hs].
      * intros Hloop Hs. now apply (IH _ _ _ Hloop).
Qed.

Lemma RecordClusteredDamage_aligned (seq : list (Z * Z)) (T T' : Tallies)
    (L L' : ClusterLog) :
  RecordClusteredDamage ids thr seq T L = Some (T', L') ->
  log_aligned T L -> log_aligned T' L'.
Proof.
  unfold RecordClusteredDamage, RecordClusteredDamage_scan.
  destruct seq as [|first [|second sites]]; try (now intros [= <- <-]).
  destruct (RecordClusteredDamage_loop ids thr first (second :: sites) _)
    as [s|] eqn:Hloop; [|discriminate].
  pose proof (RecordClusteredDamage_loop_aligned _ _ _ _ Hloop) as Ha.
  cbn [scanT scanL] in Ha. clear Hloop. rename Ha into Hloop.
  destruct (buildingCluster s).
  - destruct (RecordCluster (cluster s) (scanT s) (scanL s)) as [[c T1] L1] eqn:E.
    intros [= <- <-] Hs.
    pose proof (RecordCluster_aligned _ _ _ _ _ _ E (Hloop Hs)) as H.
    unfold log_aligned, set_fTotalDSB in *.
    cbn [fTotalComplexDSB fTotalNonDSBCluster]. exact H.
  - intros [= <- <-] Hs. specialize (Hloop Hs).
    unfold log_aligned, set_fTotalDSB in *.
    cbn [fTotalComplexDSB fTotalNonDSBCluster]. exact Hloop.
Qed.
End Aligned.

Lemma split_pass_aligned (ids : DamageIds) (s s' : Scorer) :
  split_pass ids s = Some s' ->
  log_aligned (tallies s) (clusterLog s) -> log_aligned (tallies s') (clusterLog s').
Proof.
  unfold split_pass, split_pass_with.
  destruct (RecordDSB1D _ _ _) as [[dsb ssb1] ssb2].
  match goal with
  | |- context [RecordClusteredDamage ids ?thr ?seq ?T ?L] =>
      destruct (RecordClusteredDamage ids thr seq T L) as [[T' L']|] eqn:E
  end; cbn [bind]; [|discriminate].
  intros [= <-] Hs. cbn [tallies clusterLog].
  eapply RecordClusteredDamage_aligned; [exact E|].
  unfold log_aligned in *. cbn [fTotalComplexDSB fTotalNonDSBCluster]. exact Hs.
Qed.

(** In every run the vectors of cluster sizes and counts grow with the
    two cluster tallies: each of the five vectors of the complex DSBs
    has [fTotalComplexDSB] entries and each of the four vectors of the
    non-DSB clusters has [fTotalNonDSBCluster] entries. *)
Theorem run_cluster_records_aligned :
  forall (ids : DamageIds) (fPm : ParameterManager)
         (evs : list (Z * list Hit)) (s : Scorer),
    run ids fPm evs = Some s ->
    log_aligned (tallies s) (clusterLog s).
Proof.
  intros ids fPm evs s. unfold run.
  destruct (ScoreClusteredDNADamage fPm) as [s0|] eqn:H0; cbn [bind];
    [|discriminate].
  intros Hrun.
  apply (run_events_keeps ids (fun _ T L _ => log_aligned T L)
           (split_pass_aligned ids) evs s0 s Hrun).
  unfold holds. revert H0. unfold ScoreClusteredDNADamage.
  repeat match goal with
         | |- context [read_if_exists ?a ?b ?c ?d] =>
             destruct (read_if_exists a b c d); cbn [bind]; [|discriminate]
         end.
  intros [= <-]. cbn. repeat split.
Qed.

Lemma run_cluster_records_aligned_witness :
  exists s : Scorer,
    run ids012 [] [clustered_event; clustered_event] = Some s
    /\ fTotalComplexDSB (tallies s) = 2
    /\ fTotalNonDSBCluster (tallies s) = 2
    /\ fComplexDSBSizes (clusterLog s) = [4; 4]
    /\ fNonDSBClusterSizes (clusterLog s) = [6; 6]
    /\ log_aligned (tallies s) (clusterLog s).
Proof.
  eexists. split; [vm_compute; reflexivity|].
  refine (conj eq_refl (conj eq_refl (conj eq_refl (conj eq_refl _)))).
  refine (run_cluster_records_aligned ids012 []
            [clustered_event; clustered_event] _ _).
  vm_compute. reflexivity.
Defined.

(** ** The tallies are counts *)

Section CountType.
Variable f : Z -> bool.

Lemma count_type_cons (e : Z * Z) (l : list (Z * Z)) :
  count_type f (e :: l) = (if f (snd e) then 1 else 0) + count_type f l.
Proof.
  unfold count_type. cbn [filter]. destruct (f (snd e)); cbn [List.length]; lia.
Qed.

Lemma count_type_app (l1 l2 : list (Z * Z)) :
  count_type f (l1 ++ l2) = count_type f l1 + count_type f l2.
Proof. unfold count_type. rewrite filter_app, length_app. lia. Qed.

Lemma count_type_nonneg (l : list (Z * Z)) : 0 <= count_type f l.
Proof. unfold count_type. lia. Qed.

Lemma count_type_tag_sites (ty : Z) (l : list Z) :
  count_type f (tag_sites ty l) = if f ty then Z.of_nat (List.length l) else 0.
Proof.
  induction l as [|x l IH].
  - cbn. now destruct (f ty).
  - change (tag_sites ty (x :: l)) with ((x, ty) :: tag_sites ty l).
    rewrite count_type_cons, IH. cbn [snd List.length].
    destruct (f ty); lia.
Qed.

Lemma count_type_Permutation (l1 l2 : list (Z * Z)) :
  Permutation l1 l2 -> count_type f l1 = count_type f l2.
Proof.
  induction 1 as [|x l1 l2 _ IH|x y l|l1 l2 l3 _ IH1 _ IH2].
  - reflexivity.
  - rewrite !count_type_cons. lia.
  - rewrite !count_type_cons. lia.
  - lia.
Qed.

Lemma absorbed_from_count_type (thr : Z) (sites : list (Z * Z)) :
  forall (sitePrev : Z * Z) (joined : bool),
    count_type f (absorbed_from thr sitePrev joined sites)
    <= (if joined then 0 else count_type f [sitePrev]) + count_type f sites.
Proof.
  induction sites as [|siteCur sites IH]; intros sitePrev joined;
    cbn [absorbed_from]; pose proof (count_type_nonneg [sitePrev]) as Hprev.
  - change (count_type f []) with 0. destruct joined; lia.
  - rewrite (count_type_cons siteCur sites).
    destruct (G4int_sub (fst siteCur) (fst sitePrev) <=? thr).
    + specialize (IH siteCur true). cbv iota in IH.
      destruct joined; cbn [app]; rewrite !count_type_cons;
        change (count_type f []) with 0; lia.
    + specialize (IH siteCur false). cbv iota in IH.
      rewrite count_type_cons in IH. change (count_type f []) with 0 in IH.
      destruct joined; lia.
Qed.

Lemma absorbed_count_type (thr : Z) (l : list (Z * Z)) :
  0 <= count_type f (absorbed thr l) <= count_type f l.
Proof.
  split; [apply count_type_nonneg|].
  destruct l as [|first sites]; cbn [absorbed].
  - lia.
  - pose proof (absorbed_from_count_type thr sites first false) as H.
    cbv iota in H. rewrite (count_type_cons first sites).
    rewrite (count_type_cons first []) in H.
    change (count_type f []) with 0 in H. lia.
Qed.
End CountType.

Section SimpleTallies.
Variable ids : DamageIds.
Variable thr : Z.

Lemma AddDamageToCluster_takes (c : DamageCluster) (site ty : Z) (nc : bool)
    (T : Tallies) (c' : DamageCluster) (T' : Tallies) :
  AddDamageToCluster ids c site ty nc T = Some (c', T') ->
  fTotalSSB T' = fTotalSSB T - (if counts_as_SSB ids ty then 1 else 0)
  /\ fTotalBD T' = fTotalBD T - (if counts_as_BD ids ty then 1 else 0)
  /\ fTotalDSB T' = fTotalDSB T - (if counts_as_DSB ids ty then 1 else 0)
  /\ fTotalComplexDSB T' = fTotalComplexDSB T
  /\ fTotalNonDSBCluster T' = fTotalNonDSBCluster T.
Proof.
  unfold AddDamageToCluster, counts_as_SSB, counts_as_BD, counts_as_DSB.
  destruct (ty =? fIdSSB ids); [|destruct (ty =? fIdBD ids);
                                 [|destruct (ty =? fIdDSB ids)]];
    try discriminate; intros [= <- <-]; cbn; lia.
Qed.

Lemma RecordCluster_simple_tallies (c c' : DamageCluster) (T T' : Tallies)
    (L L' : ClusterLog) :
  RecordCluster c T L = (c', T', L') ->
  fTotalSSB T' = fTotalSSB T /\ fTotalBD T' = fTotalBD T
  /\ fTotalDSB T' = fTotalDSB T
  /\ fTotalComplexDSB T <= fTotalComplexDSB T'
  /\ fTotalNonDSBCluster T <= fTotalNonDSBCluster T'.
Proof.
  unfold RecordCluster. destruct (0 <? numDSB c); intros [= <- <- <-]; cbn; lia.
Qed.

Lemma RecordClusteredDamage_loop_takes :
  forall (sites : list (Z * Z)) (sitePrev : Z * Z) (s s' : Scan),
    newCluster s = negb (buildingCluster s) ->
    RecordClusteredDamage_loop ids thr sitePrev sites s = Some s' ->
    fTotalSSB (scanT s')
    = fTotalSSB (scanT s)
      - count_type (counts_as_SSB ids)
          (absorbed_from thr sitePrev (buildingCluster s) sites)
    /\ fTotalBD (scanT s')
       = fTotalBD (scanT s)
         - count_type (counts_as_BD ids)
             (absorbed_from thr sitePrev (buildingCluster s) sites)
    /\ fTotalDSB (scanT s')
       = fTotalDSB (scanT s)
         - count_type (counts_as_DSB ids)
             (absorbed_from thr sitePrev (buildingCluster s) sites)
    /\ fTotalComplexDSB (scanT s) <= fTotalComplexDSB (scanT s')
    /\ fTotalNonDSBCluster (scanT s) <= fTotalNonDSBCluster (scanT s').
Proof.
  induction sites as [|siteCur sites IH]; intros sitePrev s s' Hflags;
    cbn [RecordClusteredDamage_loop absorbed_from].
  - intros [= <-]. change (count_type _ []) with 0. repeat split; lia.
  - destruct (G4int_sub (fst siteCur) (fst sitePrev) <=? thr).
    + destruct (newCluster s) eqn:Hn; cbv beta iota zeta; rewrite ?Hn.
      * assert (Hb : buildingCluster s = false)
          by (destruct (buildingCluster s); [discriminate|reflexivity]).
        rewrite Hb.
        destruct (AddDamageToCluster ids (cluster s) (fst sitePrev)
                    (snd sitePrev) true (scanT s)) as [[c1 T1]|] eqn:E1;
          cbv beta iota; [|discriminate].
        cbn [cluster newCluster scanT scanL buildingCluster].
        destruct (AddDamageToCluster ids c1 (fst siteCur) (snd siteCur) false T1)
          as [[c2 T2]|] eqn:E2; cbv beta iota; [|discriminate].
        intros Hloop.
        apply IH in Hloop; [|reflexivity]. destruct Hloop as (HS & HB & HD & HC & HN).
        cbn [scanT buildingCluster] in HS, HB, HD, HC, HN.
        destruct (AddDamageToCluster_takes _ _ _ _ _ _ _ E1) as (S1 & B1 & D1 & C1 & N1).
        destruct (AddDamageToCluster_takes _ _ _ _ _ _ _ E2) as (S2 & B2 & D2 & C2 & N2).
        cbn [app]. rewrite !count_type_cons. repeat split; lia.
      * assert (Hb : buildingCluster s = true)
          by (destruct (buildingCluster s); [reflexivity|discriminate]).
        rewrite Hb.
        destruct (AddDamageToCluster ids (cluster s) (fst siteCur)
                    (snd siteCur) false (scanT s)) as [[c2 T2]|] eqn:E2;
          cbv beta iota; [|discriminate].
        intros Hloop.
        apply IH in Hloop; [|reflexivity]. destruct Hloop as (HS & HB & HD & HC & HN).
        cbn [scanT buildingCluster] in HS, HB, HD, HC, HN.
        destruct (AddDamageToCluster_takes _ _ _ _ _ _ _ E2) as (S2 & B2 & D2 & C2 & N2).
        cbn [app]. rewrite !count_type_cons. repeat split; lia.
    + destruct (buildingCluster s) eqn:Hb.
      * destruct (RecordCluster (cluster s) (scanT s) (scanL s))
          as [[c T] L] eqn:E.
        intros Hloop.
        apply IH in Hloop; [|reflexivity]. destruct Hloop as (HS & HB & HD & HC & HN).
        cbn [scanT buildingCluster] in HS, HB, HD, HC, HN.
        destruct (RecordCluster_simple_tallies _ _ _ _ _ _ E)
          as (S1 & B1 & D1 & C1 & N1).
        repeat split; lia.
      * intros Hloop. rewrite <- Hb in Hflags.
        destruct (IH _ _ _ Hflags Hloop) as (HS & HB & HD & HC & HN).
        rewrite Hb in HS, HB, HD. repeat split; lia.
Qed.

(** A clustering pass takes from the three damage tallies what it adds
    to clusters, entry by entry, halves what is left of the DSB tally,
    and only adds to the two cluster tallies. *)
Lemma RecordClusteredDamage_takes (seq : list (Z * Z)) (T T' : Tallies)
    (L L' : ClusterLog) :
  RecordClusteredDamage ids thr seq T L = Some (T', L') ->
  fTotalSSB T - count_type (counts_as_SSB ids) seq <= fTotalSSB T' <= fTotalSSB T
  /\ fTotalBD T - count_type (counts_as_BD ids) seq <= fTotalBD T' <= fTotalBD T
  /\ (count_type (counts_as_DSB ids) seq <= fTotalDSB T ->
      0 <= fTotalDSB T' <= fTotalDSB T)
  /\ fTotalComplexDSB T <= fTotalComplexDSB T'
  /\ fTotalNonDSBCluster T <= fTotalNonDSBCluster T'.
Proof.
  pose proof (count_type_nonneg (counts_as_SSB ids) seq) as P1.
  pose proof (count_type_nonneg (counts_as_BD ids) seq) as P2.
  pose proof (count_type_nonneg (counts_as_DSB ids) seq) as P3.
  unfold RecordClusteredDamage, RecordClusteredDamage_scan.
  destruct seq as [|first [|second sites]];
    try (intros [= <- <-]; repeat split; lia).
  destruct (RecordClusteredDamage_loop ids thr first (second :: sites) _)
    as [s|] eqn:Hloop; [|discriminate].
  apply RecordClusteredDamage_loop_takes in Hloop; [|reflexivity].
  cbn [scanT buildingCluster] in Hloop.
  destruct Hloop as (HS & HB & HD & HC & HN).
  pose proof (absorbed_count_type (counts_as_SSB ids) thr
                (first :: second :: sites)) as A1.
  pose proof (absorbed_count_type (counts_as_BD ids) thr
                (first :: second :: sites)) as A2.
  pose proof (absorbed_count_type (counts_as_DSB ids) thr
                (first :: second :: sites)) as A3.
  cbn [absorbed] in A1, A2, A3.
  assert (Hq : forall x t, 0 <= x <= t -> 0 <= Z.quot x 2 <= t).
  { intros x t Hx. rewrite Z.quot_div_nonneg by lia.
    pose proof (Z.div_pos x 2 ltac:(lia) ltac:(lia)).
    pose proof (Z.div_le_upper_bound x 2 t ltac:(lia) ltac:(lia)). lia. }
  destruct (buildingCluster s).
  - destruct (RecordCluster (cluster s) (scanT s) (scanL s)) as [[c T1] L1] eqn:E.
    destruct (RecordCluster_simple_tallies _ _ _ _ _ _ E)
      as (S1 & B1 & D1 & C1 & N1).
    intros [= <- <-]. unfold set_fTotalDSB.
    cbn [fTotalSSB fTotalBD fTotalDSB fTotalComplexDSB fTotalNonDSBCluster].
    refine (conj _ (conj _ (conj _ (conj _ _)))); try lia.
    intros Hc. apply Hq. lia.
  - intros [= <- <-]. unfold set_fTotalDSB.
    cbn [fTotalSSB fTotalBD fTotalDSB fTotalComplexDSB fTotalNonDSBCluster].
    refine (conj _ (conj _ (conj _ (conj _ _)))); try lia.
    intros Hc. apply Hq. lia.
Qed.
End SimpleTallies.

Section CombinedCounts.
Variable ids : DamageIds.
Hypothesis Hids : distinct_ids ids.

Lemma CombineSimpleDamage_counts (ssb1 bd1 ssb2 bd2 dsb : list Z) :
  count_type (counts_as_SSB ids) (CombineSimpleDamage ids ssb1 bd1 ssb2 bd2 dsb)
  = Z.of_nat (List.length ssb1 + List.length ssb2)
  /\ count_type (counts_as_BD ids) (CombineSimpleDamage ids ssb1 bd1 ssb2 bd2 dsb)
     = Z.of_nat (List.length bd1 + List.length bd2)
  /\ count_type (counts_as_DSB ids) (CombineSimpleDamage ids ssb1 bd1 ssb2 bd2 dsb)
     = Z.of_nat (List.length dsb).
Proof.
  destruct Hids as (H1 & H2 & H3).
  assert (P := CombineSimpleDamage_tagged ids ssb1 bd1 ssb2 bd2 dsb).
  rewrite !(count_type_Permutation _ _ _ P), !count_type_app,
    !count_type_tag_sites.
  unfold counts_as_SSB, counts_as_BD, counts_as_DSB.
  rewrite !Z.eqb_refl.
  assert (E1 : (fIdBD ids =? fIdSSB ids) = false) by (apply Z.eqb_neq; congruence).
  assert (E2 : (fIdDSB ids =? fIdSSB ids) = false) by (apply Z.eqb_neq; congruence).
  assert (E3 : (fIdSSB ids =? fIdBD ids) = false) by (apply Z.eqb_neq; congruence).
  assert (E4 : (fIdDSB ids =? fIdBD ids) = false) by (apply Z.eqb_neq; congruence).
  assert (E5 : (fIdSSB ids =? fIdDSB ids) = false) by (apply Z.eqb_neq; congruence).
  assert (E6 : (fIdBD ids =? fIdDSB ids) = false) by (apply Z.eqb_neq; congruence).
  rewrite E1, E2, E3, E4, E5, E6. cbn [negb andb]. repeat split; lia.
Qed.

Lemma split_pass_nonneg (s s' : Scorer) :
  split_pass ids s = Some s' ->
  tallies_nonneg (tallies s) /\ Forall row_nonneg (fNtuple s) ->
  tallies_nonneg (tallies s') /\ Forall row_nonneg (fNtuple s').
Proof.
  unfold split_pass, split_pass_with.
  destruct (RecordDSB1D _ _ _) as [[dsb ssb1] ssb2].
  match goal with
  | |- context [RecordClusteredDamage ids ?thr ?seq ?T ?L] =>
      destruct (RecordClusteredDamage ids thr seq T L) as [[T' L']|] eqn:E
  end; cbn [bind]; [|discriminate].
  intros [= <-] [(T1 & T2 & T3 & T4 & T5) Hrows]. cbn [tallies fNtuple].
  apply RecordClusteredDamage_takes in E.
  match type of E with
  | context [CombineSimpleDamage ids ?a ?b ?c ?d ?e] =>
      destruct (CombineSimpleDamage_counts a b c d e) as (C1 & C2 & C3)
  end.
  rewrite C1, C2, C3 in E.
  cbn [fTotalSSB fTotalBD fTotalDSB fTotalComplexDSB fTotalNonDSBCluster] in E.
  destruct E as (ES & EB & ED & EC & EN).
  assert (HT : tallies_nonneg T').
  { unfold tallies_nonneg. specialize (ED ltac:(lia)). repeat split; lia. }
  split; [exact HT|].
  destruct (any_positive T'); [|exact Hrows].
  unfold Fill. apply Forall_app. split; [exact Hrows|].
  constructor; [|constructor].
  unfold row_nonneg, tallies_nonneg in *.
  cbn [rowSSB rowDSB rowBD rowComplexDSB rowNonDSBCluster]. tauto.
Qed.
End CombinedCounts.

(** With three distinct damage labels no tally and no column of a row
    is ever negative: a clustering pass takes from a tally no more than
    the entries of that type in the merged vector, which the round has
    just added. *)
Theorem run_counts_never_negative :
  forall (ids : DamageIds) (fPm : ParameterManager)
         (evs : list (Z * list Hit)) (s : Scorer),
    distinct_ids ids ->
    run ids fPm evs = Some s ->
    tallies_nonneg (tallies s) /\ Forall row_nonneg (fNtuple s).
Proof.
  intros ids fPm evs s Hids. unfold run.
  destruct (ScoreClusteredDNADamage fPm) as [s0|] eqn:H0; cbn [bind];
    [|discriminate].
  intros Hrun.
  apply (run_events_keeps ids
           (fun _ T _ rows => tallies_nonneg T /\ Forall row_nonneg rows)
           (split_pass_nonneg ids Hids) evs s0 s Hrun).
  unfold holds.
  destruct (ScoreClusteredDNADamage_initial _ _ H0) as (_ & _ & -> & _ & -> & _).
  split; [unfold tallies_nonneg; cbn; lia | constructor].
Qed.

Lemma run_counts_never_negative_witness :
  distinct_ids ids012
  /\ exists s : Scorer,
       run ids012 two_fibre_parameters [(0, two_fibre_hits)] = Some s
       /\ tallies_nonneg (tallies s).
Proof.
  assert (Hids : distinct_ids ids012) by (repeat split; discriminate).
  split; [exact Hids|].
  eexists. split; [vm_compute; reflexivity|].
  refine (proj1 (run_counts_never_negative ids012 two_fibre_parameters
                   [(0, two_fibre_hits)] _ Hids _)).
  vm_compute. reflexivity.
Defined.

(** ** Events without a deposit in the backbone of strand 1 *)

Lemma fold_left_keeps {A B C : Type} (f : A -> B -> A) (g : A -> C) :
  (forall a b, g (f a b) = g a) ->
  forall l a, g (fold_left f l a) = g a.
Proof.
  intros Hf. induction l as [|b l IH]; intros a; [reflexivity|].
  cbn [fold_left]. now rewrite IH.
Qed.

Lemma ProcessHits_maps_keeps_strand1_backbone (fNbOfAlgo : Z) (h : Hit)
    (m : EdepMaps) :
  reaches_strand1_backbone fNbOfAlgo h = false ->
  fGenVEdepStrand1Backbone (snd (ProcessHits_maps fNbOfAlgo h m))
  = fGenVEdepStrand1Backbone m.
Proof.
  unfold reaches_strand1_backbone, decode_volID, ProcessHits_maps. cbv zeta.
  set (num_strand := Z.quot (volID h) 1000000).
  set (num_res := Z.quot (volID h - num_strand * 1000000) 100000).
  set (index := if 1 <? fNbOfAlgo then splitTrackID h else 1).
  intros Hr.
  destruct (negb (fIsActive h)); [reflexivity|].
  destruct (PrimFloat.ltb 0 (edepHit h)); [|reflexivity].
  destruct ((num_strand =? 0) || (num_strand =? 1)); [|reflexivity].
  destruct (num_strand =? 0); cbn [andb] in Hr.
  - apply orb_false_elim in Hr. destruct Hr as [Hr H1].
    apply orb_false_elim in Hr. destruct Hr as [Hi H0].
    rewrite Hi. cbn [snd]. apply fold_left_keeps.
    intros a b. rewrite H0, H1. cbn [orb].
    destruct (num_res =? 2); reflexivity.
  - destruct (2 <? index); cbn [snd]; [reflexivity|].
    apply fold_left_keeps. intros a b.
    destruct ((num_res =? 0) || (num_res =? 1)); [reflexivity|].
    destruct (num_res =? 2); reflexivity.
Qed.

Lemma process_hits_keeps_strand1_backbone (hits : list Hit) :
  forall s,
    forallb (fun h => negb (reaches_strand1_backbone (fNbOfAlgo (params s)) h))
      hits = true ->
    fGenVEdepStrand1Backbone (edep (process_hits hits s))
    = fGenVEdepStrand1Backbone (edep s).
Proof.
  unfold process_hits.
  induction hits as [|h hits IH]; intros s Hall; [reflexivity|].
  cbn [fold_left forallb] in *. apply andb_prop in Hall. destruct Hall as [Hh Hall].
  apply negb_true_iff in Hh.
  assert (Hp : params (snd (ProcessHits h s)) = params s)
    by (unfold ProcessHits; destruct (ProcessHits_maps _ h (edep s)); reflexivity).
  rewrite IH by (now rewrite Hp).
  unfold ProcessHits.
  pose proof (ProcessHits_maps_keeps_strand1_backbone _ h (edep s) Hh) as K.
  destruct (ProcessHits_maps _ h (edep s)); exact K.
Qed.

Lemma run_event_without_strand1 (ids : DamageIds) (s : Scorer)
    (ev : Z * list Hit) :
  fGenVEdepStrand1Backbone (edep s) = [] ->
  forallb (fun h => negb (reaches_strand1_backbone (fNbOfAlgo (params s)) h))
    (snd ev) = true ->
  exists s',
    run_event ids s ev = Some s'
    /\ tallies s' = tallies s /\ clusterLog s' = clusterLog s
    /\ fNtuple s' = fNtuple s
    /\ fGenVEdepStrand2Backbone (edep s') = [].
Proof.
  intros Hempty Hall.
  pose proof (process_hits_keeps_strand1_backbone (snd ev) s Hall) as K.
  rewrite Hempty in K.
  destruct (process_hits_frame (snd ev) s) as (Fp & Ft & Fl & Fn).
  unfold run_event, UserHookForEndOfEvent, end_of_event_with.
  cbn [edep]. rewrite K. cbn [StdMap.keys map fibre_loop_with bind].
  eexists. split; [reflexivity|].
  cbn [tallies clusterLog fNtuple edep fGenVEdepStrand2Backbone]. auto.
Qed.

Lemma run_events_app (ids : DamageIds) (evs1 evs2 : list (Z * list Hit)) :
  forall s,
    run_events ids (evs1 ++ evs2) s
    = bind (run_events ids evs1 s) (run_events ids evs2).
Proof.
  induction evs1 as [|ev evs1 IH]; intros s; cbn [app run_events bind];
    [reflexivity|].
  destruct (run_event ids s ev) as [s1|]; cbn [bind]; [apply IH|reflexivity].
Qed.

Lemma run_events_strand1_backbone_empty (ids : DamageIds)
    (evs : list (Z * list Hit)) :
  forall s s',
    fGenVEdepStrand1Backbone (edep s) = [] ->
    run_events ids evs s = Some s' ->
    fGenVEdepStrand1Backbone (edep s') = [].
Proof.
  induction evs as [|ev evs IH]; intros s s' Hs; cbn [run_events].
  - now intros [= <-].
  - destruct (run_event_rows ids s ev)
      as (s1 & rows & H1 & _ & _ & _ & _ & Hg & _).
    rewrite H1. cbn [bind]. now apply IH.
Qed.

(** The end-of-event hook iterates over the fibres of the strand-1
    backbone map.  An event none of whose hits reaches that map is not
    scored: no row is written, the tallies and the cluster records are
    as before, and what it deposited in the backbone of strand 2 is
    cleared. *)
Theorem event_without_strand1_backbone_unscored :
  forall (ids : DamageIds) (fPm : ParameterManager)
         (evs : list (Z * list Hit)) (s : Scorer) (ev : Z * list Hit),
    run ids fPm evs = Some s ->
    forallb (fun h => negb (reaches_strand1_backbone (fNbOfAlgo (params s)) h))
      (snd ev) = true ->
    exists s',
      run ids fPm (evs ++ [ev]) = Some s'
      /\ tallies s' = tallies s /\ clusterLog s' = clusterLog s
      /\ fNtuple s' = fNtuple s
      /\ fGenVEdepStrand2Backbone (edep s') = [].
Proof.
  intros ids fPm evs s ev. unfold run.
  destruct (ScoreClusteredDNADamage fPm) as [s0|] eqn:H0; cbn [bind];
    [|discriminate].
  intros Hrun Hall. rewrite run_events_app, Hrun. cbn [bind run_events].
  assert (Hempty : fGenVEdepStrand1Backbone (edep s) = []).
  { apply (run_events_strand1_backbone_empty ids evs s0 s); [|exact Hrun].
    destruct (ScoreClusteredDNADamage_initial _ _ H0) as (_ & _ & _ & _ & _ & ->).
    reflexivity. }
  destruct (run_event_without_strand1 ids s ev Hempty Hall)
    as (s' & H1 & H2 & H3 & H4 & H5).
  exists s'. rewrite H1. cbn [bind]. auto.
Qed.

Lemma event_without_strand1_backbone_unscored_witness :
  exists s s' : Scorer,
    run ids012 [] [] = Some s
    /\ run ids012 [] ([] ++ [strand2_event]) = Some s'
    /\ fNtuple s' = fNtuple s
    /\ fGenVEdepStrand2Backbone (edep s') = [].
Proof.
  eassert (H0 : run ids012 [] [] = Some _) by (vm_compute; reflexivity).
  destruct (event_without_strand1_backbone_unscored ids012 [] [] _
              strand2_event H0 eq_refl) as (s' & H1 & _ & _ & H4 & H5).
  eexists. exists s'. split; [exact H0|]. auto.
Defined.

(** ** The clusters recorded *)

Section ClusterRecords.
Variable ids : DamageIds.
Variable thr : Z.

Lemma AddDamageToCluster_cluster (c : DamageCluster) (site ty : Z) (nc : bool)
    (T : Tallies) (c' : DamageCluster) (T' : Tallies) :
  AddDamageToCluster ids c site ty nc T = Some (c', T') ->
  numSSB c <= numSSB c' /\ numBD c <= numBD c' /\ numDSB c <= numDSB c'
  /\ numSSB c' + numBD c' + numDSB c' = numSSB c + numBD c + numDSB c + 1
  /\ start c' = (if nc then site else start c)
  /\ end_ c' = (if nc then end_ c else site).
Proof.
  unfold AddDamageToCluster.
  destruct (ty =? fIdSSB ids); [|destruct (ty =? fIdBD ids);
                                 [|destruct (ty =? fIdDSB ids)]];
    try discriminate; intros [= <- <-]; destruct nc; cbn; repeat split; lia.
Qed.

Lemma sizes_extend_refl (L : ClusterLog) : sizes_extend L L.
Proof.
  exists [], []. rewrite !app_nil_r. repeat split; constructor.
Qed.

Lemma RecordCluster_records (counted sorted : bool) (L0 : ClusterLog)
    (sitePrev sitePrev' : Z * Z)
    (s : Scan) (c : DamageCluster) (T : Tallies) (L : ClusterLog) :
  scan_ok counted sorted L0 sitePrev s -> buildingCluster s = true ->
  RecordCluster (cluster s) (scanT s) (scanL s) = (c, T, L) ->
  scan_ok counted sorted L0 sitePrev' (mkScan c true false T L).
Proof.
  intros (Hf & H1 & H2 & H3 & Hb & HL & Hs) Hbuild.
  specialize (Hb Hbuild).
  assert (Hsize : sorted = true ->
                  size_ok (end_ (cluster s) - start (cluster s) + 1)).
  { intros Hsorted. destruct (Hs Hsorted) as (_ & Hse).
    destruct (Hse Hbuild) as (Hle & _ & G1 & G2).
    unfold size_ok, G4int_half in *. lia. }
  unfold RecordCluster, scan_ok, clusters_hold_damage.
  destruct (0 <? numDSB (cluster s)) eqn:Hd; intros [= <- <- <-];
    cbn [cluster newCluster buildingCluster scanT scanL numSSB numBD numDSB
         start end_ DamageCluster_new negb
         fComplexDSBSizes fComplexDSBNumDamage fNonDSBClusterSizes
         fNonDSBClusterNumDamage].
  - apply Z.ltb_lt in Hd.
    refine (conj eq_refl (conj _ (conj _ (conj _ (conj _ (conj _ _))))));
      try lia; try discriminate.
    + intros Hc. destruct (HL Hc) as (HC & HN). split; [|exact HN].
      apply Forall_app. split; [exact HC|]. constructor; [|constructor].
      destruct (Z.eq_dec (numDSB (cluster s)) 1) as [E|E].
      * rewrite E. change (Z.quot 1 2) with 0. lia.
      * assert (1 <= Z.quot (numDSB (cluster s)) 2).
        { rewrite Z.quot_div_nonneg by lia.
          apply Z.div_le_lower_bound; lia. }
        lia.
    + intros Hsorted. destruct (Hs Hsorted) as ((nC & nN & E1 & E2 & F1 & F2) & _).
      split; [|discriminate].
      exists (nC ++ [end_ (cluster s) - start (cluster s) + 1]), nN.
      cbn [fComplexDSBSizes fNonDSBClusterSizes].
      rewrite E1, app_assoc. refine (conj eq_refl (conj E2 (conj _ F2))).
      apply Forall_app. split; [exact F1|].
      constructor; [now apply Hsize|constructor].
  - apply Z.ltb_ge in Hd.
    refine (conj eq_refl (conj _ (conj _ (conj _ (conj _ (conj _ _))))));
      try lia; try discriminate.
    + intros Hc. destruct (HL Hc) as (HC & HN). split; [exact HC|].
      apply Forall_app. split; [exact HN|]. constructor; [lia|constructor].
    + intros Hsorted. destruct (Hs Hsorted) as ((nC & nN & E1 & E2 & F1 & F2) & _).
      split; [|discriminate].
      exists nC, (nN ++ [end_ (cluster s) - start (cluster s) + 1]).
      cbn [fComplexDSBSizes fNonDSBClusterSizes].
      rewrite E2, app_assoc. refine (conj E1 (conj eq_refl (conj F1 _))).
      apply Forall_app. split; [exact F2|].
      constructor; [now apply Hsize|constructor].
Qed.

Lemma RecordClusteredDamage_loop_ok (counted sorted : bool) (L0 : ClusterLog) :
  forall (sites : list (Z * Z)) (sitePrev : Z * Z) (s s' : Scan),
    (sorted = true ->
     ascending_sites (sitePrev :: sites)
     /\ Forall (fun e => G4int_half (fst e)) (sitePrev :: sites)) ->
    scan_ok counted sorted L0 sitePrev s ->
    RecordClusteredDamage_loop ids thr sitePrev sites s = Some s' ->
    scan_ok counted sorted L0 (last sites sitePrev) s'.
Proof.
  induction sites as [|siteCur sites IH]; intros sitePrev s s' Hasc Hok;
    cbn [RecordClusteredDamage_loop].
  - intros [= <-]. exact Hok.
  - assert (Hasc' : sorted = true ->
                    ascending_sites (siteCur :: sites)
                    /\ Forall (fun e => G4int_half (fst e)) (siteCur :: sites)).
    { intros Hs. destruct (Hasc Hs) as [A B]. split.
      - exact (proj1 (ascending_sites_cons_inv _ _ A)).
      - now inversion B. }
    assert (Hle : sorted = true -> fst sitePrev <= fst siteCur).
    { intros Hs.
      pose proof (proj2 (ascending_sites_cons_inv _ _ (proj1 (Hasc Hs)))) as H.
      inversion H; subst. assumption. }
    assert (Hbp : sorted = true -> G4int_half (fst sitePrev))
      by (intros Hs; destruct (Hasc Hs) as [_ B]; now inversion B).
    assert (Hbc : sorted = true -> G4int_half (fst siteCur)).
    { intros Hs. destruct (Hasc' Hs) as [_ B]. now inversion B. }
    assert (Hlast : last (siteCur :: sites) sitePrev = last sites siteCur).
    { clear. revert siteCur. induction sites as [|x l IHl]; intros y;
        [reflexivity|]. cbn [last] in *. destruct l; [reflexivity|]. apply IHl. }
    rewrite Hlast.
    pose proof Hok as (Hf & H1 & H2 & H3 & Hb & HL & Hs).
    destruct (G4int_sub (fst siteCur) (fst sitePrev) <=? thr).
    + destruct (newCluster s) eqn:Hn; cbv beta iota zeta; rewrite ?Hn.
      * assert (Hbf : buildingCluster s = false)
          by (destruct (buildingCluster s); [discriminate|reflexivity]).
        destruct (AddDamageToCluster ids (cluster s) (fst sitePrev)
                    (snd sitePrev) true (scanT s)) as [[c1 T1]|] eqn:E1;
          cbv beta iota; [|discriminate].
        cbn [cluster newCluster scanT scanL buildingCluster].
        destruct (AddDamageToCluster ids c1 (fst siteCur) (snd siteCur) false T1)
          as [[c2 T2]|] eqn:E2; cbv beta iota; [|discriminate].
        intros Hloop. apply (IH _ _ _ Hasc') in Hloop; [exact Hloop|].
        destruct (AddDamageToCluster_cluster _ _ _ _ _ _ _ E1)
          as (A1 & A2 & A3 & A4 & A5 & A6).
        destruct (AddDamageToCluster_cluster _ _ _ _ _ _ _ E2)
          as (B1 & B2 & B3 & B4 & B5 & B6).
        unfold scan_ok. cbn [cluster newCluster buildingCluster scanT scanL negb].
        refine (conj eq_refl (conj _ (conj _ (conj _ (conj _ (conj HL _))))));
          try lia.
        intros Hsorted. destruct (Hs Hsorted) as (HS & _).
        split; [exact HS|]. intros _. specialize (Hle Hsorted).
        rewrite B5, B6, A5.
        refine (conj Hle (conj eq_refl (conj (Hbp Hsorted) (Hbc Hsorted)))).
      * assert (Hbt : buildingCluster s = true)
          by (destruct (buildingCluster s); [reflexivity|discriminate]).
        destruct (AddDamageToCluster ids (cluster s) (fst siteCur)
                    (snd siteCur) false (scanT s)) as [[c2 T2]|] eqn:E2;
          cbv beta iota; [|discriminate].
        intros Hloop. apply (IH _ _ _ Hasc') in Hloop; [exact Hloop|].
        destruct (AddDamageToCluster_cluster _ _ _ _ _ _ _ E2)
          as (B1 & B2 & B3 & B4 & B5 & B6).
        specialize (Hb Hbt).
        unfold scan_ok. cbn [cluster newCluster buildingCluster scanT scanL].
        rewrite Hbt. cbn [negb].
        refine (conj eq_refl (conj _ (conj _ (conj _ (conj _ (conj HL _))))));
          try lia.
        intros Hsorted. destruct (Hs Hsorted) as (HS & Hse).
        split; [exact HS|]. intros _. specialize (Hle Hsorted).
        destruct (Hse Hbt) as (S1 & S2 & S3 & S4).
        rewrite B5, B6.
        refine (conj _ (conj eq_refl (conj S3 (Hbc Hsorted)))). lia.
    + destruct (buildingCluster s) eqn:Hbuild.
      * destruct (RecordCluster (cluster s) (scanT s) (scanL s))
          as [[c T] L] eqn:E.
        intros Hloop. apply (IH _ _ _ Hasc') in Hloop; [exact Hloop|].
        exact (RecordCluster_records counted sorted L0 sitePrev siteCur s c T L
                 Hok Hbuild E).
      * intros Hloop. apply (IH _ _ _ Hasc') in Hloop; [exact Hloop|].
        unfold scan_ok. rewrite Hbuild.
        refine (conj Hf (conj H1 (conj H2 (conj H3 (conj _ (conj HL _))))));
          [discriminate|].
        intros Hsorted. destruct (Hs Hsorted) as (HS & _).
        split; [exact HS|discriminate].
Qed.

Lemma RecordClusteredDamage_ok (counted sorted : bool) (seq : list (Z * Z))
    (T T' : Tallies) (L L' : ClusterLog) :
  (sorted = true ->
   ascending_sites seq /\ Forall (fun e => G4int_half (fst e)) seq) ->
  (counted = true -> clusters_hold_damage L) ->
  RecordClusteredDamage ids thr seq T L = Some (T', L') ->
  (counted = true -> clusters_hold_damage L')
  /\ (sorted = true -> sizes_extend L L').
Proof.
  intros Hsorted HL.
  unfold RecordClusteredDamage, RecordClusteredDamage_scan.
  destruct seq as [|first [|second sites]];
    try (intros [= <- <-]; split;
         [exact HL | intros _; apply sizes_extend_refl]).
  destruct (RecordClusteredDamage_loop ids thr first (second :: sites) _)
    as [s|] eqn:Hloop; [|discriminate].
  apply (RecordClusteredDamage_loop_ok counted sorted L) in Hloop.
  - destruct (buildingCluster s) eqn:Hbuild.
    + destruct (RecordCluster (cluster s) (scanT s) (scanL s))
        as [[c T1] L1] eqn:E.
      intros [= <- <-].
      pose proof (RecordCluster_records counted sorted L _ first s c T1 L1
                    Hloop Hbuild E)
        as (_ & _ & _ & _ & _ & HL' & Hs').
      cbn [scanL] in HL', Hs'. split; [exact HL'|]. intros Hs. apply Hs', Hs.
    + intros [= <- <-]. destruct Hloop as (_ & _ & _ & _ & _ & HL' & Hs').
      split; [exact HL'|]. intros Hs. apply Hs', Hs.
  - exact Hsorted.
  - unfold scan_ok.
    cbn [cluster newCluster buildingCluster scanT scanL DamageCluster_new
         numSSB numBD numDSB negb].
    refine (conj eq_refl (conj _ (conj _ (conj _ (conj _ (conj HL _))))));
      try lia; try discriminate.
    intros Hs. split; [apply sizes_extend_refl|discriminate].
Qed.
End ClusterRecords.

(** On a vector in ascending order, of indices whose differences do not
    overflow, a clustering pass keeps the sizes recorded before it and
    appends, for every cluster it records, a size of at least one base
    pair: a cluster does not start after its end.  On a vector that is
    not ascending a size can be negative. *)
Theorem RecordClusteredDamage_sizes_positive :
  forall (ids : DamageIds) (thr : Z) (seq : list (Z * Z)) (T T' : Tallies)
         (L L' : ClusterLog),
    ascending_sites seq ->
    Forall (fun e => G4int_half (fst e)) seq ->
    RecordClusteredDamage ids thr seq T L = Some (T', L') ->
    exists newComplex newNonDSB : list Z,
      fComplexDSBSizes L' = fComplexDSBSizes L ++ newComplex
      /\ fNonDSBClusterSizes L' = fNonDSBClusterSizes L ++ newNonDSB
      /\ Forall size_ok newComplex /\ Forall size_ok newNonDSB.
Proof.
  intros ids thr seq T T' L L' Hasc Hb Hrun.
  apply (RecordClusteredDamage_ok ids thr false true seq T T' L L');
    [auto | discriminate | exact Hrun | reflexivity].
Qed.

Lemma RecordClusteredDamage_sizes_positive_witness :
  ascending_sites commented_fIndicesSimple
  /\ Forall (fun e => G4int_half (fst e)) commented_fIndicesSimple
  /\ RecordClusteredDamage ids012 2 commented_fIndicesSimple
       (mkTallies 6 8 6 0 0)
       (mkClusterLog [-88] [0] [0] [2] [2] [] [] [] [])
     = Some (mkTallies 2 0 0 3 2,
             mkClusterLog [-88; 3; 8; 3] [0; 1; 2; 0] [0; 2; 2; 1] [2; 1; 1; 1]
               [2; 4; 5; 2] [2; 3] [1; 0] [1; 2] [2; 2])
  /\ exists newComplex newNonDSB : list Z,
       [-88; 3; 8; 3] = [-88] ++ newComplex /\ [2; 3] = [] ++ newNonDSB
       /\ Forall size_ok newComplex /\ Forall size_ok newNonDSB.
Proof.
  assert (Hasc : ascending_sites commented_fIndicesSimple)
    by (unfold ascending_sites, ascending; cbn; repeat constructor; lia).
  assert (Hb : Forall (fun e => G4int_half (fst e)) commented_fIndicesSimple)
    by (unfold commented_fIndicesSimple;
        repeat (apply Forall_cons; [unfold G4int_half; cbn; lia|]);
        apply Forall_nil).
  assert (Hrun : RecordClusteredDamage ids012 2 commented_fIndicesSimple
                   (mkTallies 6 8 6 0 0)
                   (mkClusterLog [-88] [0] [0] [2] [2] [] [] [] [])
                 = Some (mkTallies 2 0 0 3 2,
                         mkClusterLog [-88; 3; 8; 3] [0; 1; 2; 0] [0; 2; 2; 1]
                           [2; 1; 1; 1] [2; 4; 5; 2] [2; 3] [1; 0] [1; 2]
                           [2; 2]))
    by (vm_compute; reflexivity).
  refine (conj Hasc (conj Hb (conj Hrun _))).
  exact (RecordClusteredDamage_sizes_positive _ _ _ _ _ _ _ Hasc Hb Hrun).
Defined.

Lemma split_pass_clusters (ids : DamageIds) (s s' : Scorer) :
  split_pass ids s = Some s' ->
  clusters_hold_damage (clusterLog s) -> clusters_hold_damage (clusterLog s').
Proof.
  unfold split_pass, split_pass_with.
  destruct (RecordDSB1D _ _ _) as [[dsb ssb1] ssb2].
  match goal with
  | |- context [RecordClusteredDamage ids ?thr ?seq ?T ?L] =>
      destruct (RecordClusteredDamage ids thr seq T L) as [[T' L']|] eqn:E
  end; cbn [bind]; [|discriminate].
  intros [= <-] Hs. cbn [clusterLog].
  apply (RecordClusteredDamage_ok ids _ true false _ _ _ _ _) in E;
    [apply E; reflexivity | discriminate | intros _; exact Hs].
Qed.

(** In every run a recorded cluster holds more than one damage entry:
    every non-DSB cluster is recorded with at least two damages, and
    every complex DSB cluster, two DSB entries being recorded as one
    DSB, with at least one. *)
Theorem run_clusters_hold_damage :
  forall (ids : DamageIds) (fPm : ParameterManager)
         (evs : list (Z * list Hit)) (s : Scorer),
    run ids fPm evs = Some s ->
    clusters_hold_damage (clusterLog s).
Proof.
  intros ids fPm evs s. unfold run.
  destruct (ScoreClusteredDNADamage fPm) as [s0|] eqn:H0; cbn [bind];
    [|discriminate].
  intros Hrun.
  apply (run_events_keeps ids (fun _ _ L _ => clusters_hold_damage L)
           (split_pass_clusters ids) evs s0 s Hrun).
  unfold holds.
  destruct (ScoreClusteredDNADamage_initial _ _ H0) as (_ & _ & _ & -> & _).
  split; constructor.
Qed.

Lemma run_clusters_hold_damage_witness :
  exists s : Scorer,
    run ids012 [] [clustered_event] = Some s
    /\ fComplexDSBNumDamage (clusterLog s) = [1]
    /\ fNonDSBClusterNumDamage (clusterLog s) = [2]
    /\ clusters_hold_damage (clusterLog s).
Proof.
  eexists. split; [vm_compute; reflexivity|].
  refine (conj eq_refl (conj eq_refl _)).
  refine (run_clusters_hold_damage ids012 [] [clustered_event] _ _).
  vm_compute. reflexivity.
Defined.

(** ** The hits that are scored *)

(** The copy numbers that [ProcessHits] takes for a volume of strand 1
    or strand 2: integer division truncates towards zero. *)
Lemma strand_index_in_range (volID : Z) :
  (Z.quot volID 1000000 =? 0) || (Z.quot volID 1000000 =? 1)
  = (-1000000 <? volID) && (volID <? 2000000).
Proof.
  destruct (Z_lt_le_dec volID 0) as [Hneg|Hpos].
  - assert (Hq : Z.quot volID 1000000 = - (Z.quot (- volID) 1000000)).
    { rewrite <- Z.quot_opp_l by lia. now rewrite Z.opp_involutive. }
    assert (Hd : Z.quot (- volID) 1000000 = (- volID) / 1000000)
      by (apply Z.quot_div_nonneg; lia).
    pose proof (Z.div_pos (- volID) 1000000 ltac:(lia) ltac:(lia)) as H0.
    destruct (Z_lt_le_dec (-1000000) volID) as [Hin|Hout].
    + assert ((- volID) / 1000000 = 0) by (apply Z.div_small; lia).
      replace (Z.quot volID 1000000) with 0 by lia. cbn [Z.eqb orb].
      symmetry. apply andb_true_intro. split; apply Z.ltb_lt; lia.
    + assert (1 <= (- volID) / 1000000)
        by (apply Z.div_le_lower_bound; lia).
      assert (E0 : (Z.quot volID 1000000 =? 0) = false) by (apply Z.eqb_neq; lia).
      assert (E1 : (Z.quot volID 1000000 =? 1) = false) by (apply Z.eqb_neq; lia).
      rewrite E0, E1. cbn [orb]. symmetry. apply andb_false_intro1.
      apply Z.ltb_ge. lia.
  - rewrite Z.quot_div_nonneg by lia.
    assert (Hlow : (-1000000 <? volID) = true) by (apply Z.ltb_lt; lia).
    rewrite Hlow. cbn [andb].
    destruct (Z_lt_le_dec volID 2000000) as [Hin|Hout].
    + assert (0 <= volID / 1000000 < 2).
      { split; [apply Z.div_pos; lia | apply Z.div_lt_upper_bound; lia]. }
      assert (Hlt : (volID <? 2000000) = true) by (apply Z.ltb_lt; lia).
      rewrite Hlt.
      destruct (Z.eq_dec (volID / 1000000) 0) as [->|];
        [reflexivity|].
      replace (volID / 1000000) with 1 by lia. reflexivity.
    + assert (2 <= volID / 1000000) by (apply Z.div_le_lower_bound; lia).
      assert (E0 : (volID / 1000000 =? 0) = false) by (apply Z.eqb_neq; lia).
      assert (E1 : (volID / 1000000 =? 1) = false) by (apply Z.eqb_neq; lia).
      rewrite E0, E1. symmetry. apply Z.ltb_ge. lia.
Qed.

(** [ProcessHits] scores a hit, and returns true, exactly when the
    scorer is active, the energy deposit is positive (not zero, negative
    or NaN) and the copy number of the volume is above -1000000 and
    below 2000000; a hit it does not score leaves every map as it was;
    and the counter of skipped steps goes up by one exactly when the
    scorer is not active. *)
Theorem ProcessHits_accepts :
  forall (h : Hit) (s : Scorer),
    fst (ProcessHits h s)
    = fIsActive h && PrimFloat.ltb 0 (edepHit h)
      && (-1000000 <? volID h) && (volID h <? 2000000)
    /\ (fst (ProcessHits h s) = false -> edep (snd (ProcessHits h s)) = edep s)
    /\ fSkippedWhileInactive (snd (ProcessHits h s))
       = fSkippedWhileInactive s + (if fIsActive h then 0 else 1).
Proof.
  intros h s. unfold ProcessHits, ProcessHits_maps. cbv zeta.
  rewrite strand_index_in_range.
  destruct (fIsActive h); cbn [negb andb fst snd edep fSkippedWhileInactive];
    [|repeat split; intros; first [reflexivity | lia]].
  destruct (PrimFloat.ltb 0 (edepHit h));
    cbn [andb fst snd edep fSkippedWhileInactive];
    [|repeat split; intros; first [reflexivity | lia]].
  destruct ((-1000000 <? volID h) && (volID h <? 2000000));
    cbn [fst snd edep fSkippedWhileInactive];
    [|repeat split; intros; first [reflexivity | lia]].
  destruct (2 <? _); [destruct (_ =? 0)|];
    cbn [fst snd edep fSkippedWhileInactive];
    (split; [reflexivity|]); (split; [discriminate|lia]).
Qed.

(** ** Split copies that are never read *)

Lemma add_edep_split_zero (pd i n : Z) (e : float) (m : Map3) (pd' : Z) :
  i <> 0 ->
  StdMap.get [] 0 (StdMap.get [] pd' (add_edep pd i n e m))
  = StdMap.get [] 0 (StdMap.get [] pd' m).
Proof.
  intros Hi. unfold add_edep.
  destruct (Z.eq_dec pd' pd) as [->|Hpd].
  - rewrite StdMapLookup.get_modify_same.
    now rewrite StdMapLookup.get_modify_other by (intros E; apply Hi; now symmetry).
  - now rewrite StdMapLookup.get_modify_other.
Qed.

(** With track splitting, the energy of a track whose split index is
    above 3 is recorded under a split copy other than 0, and
    [RecordSimpleDamage] reads the split copy 0 alone: such a hit
    changes nothing of what is extracted from any map of any fibre. *)
Theorem split_copies_above_zero_unread :
  forall (fNbOfAlgo : Z) (h : Hit) (m : EdepMaps) (which : GenMap)
         (pd : Z) (ThreshEDep : float),
    1 < fNbOfAlgo -> 3 < splitTrackID h ->
    RecordSimpleDamage ThreshEDep
      (StdMap.get [] pd (gen which (snd (ProcessHits_maps fNbOfAlgo h m))))
    = RecordSimpleDamage ThreshEDep (StdMap.get [] pd (gen which m)).
Proof.
  intros A h m which pd t HA Hidx.
  rewrite !RecordSimpleDamage_spec. f_equal.
  unfold ProcessHits_maps. cbv zeta.
  assert (HA' : (1 <? A) = true) by (apply Z.ltb_lt; lia).
  assert (Hi : (2 <? splitTrackID h) = true) by (apply Z.ltb_lt; lia).
  rewrite HA', Hi.
  destruct (negb (fIsActive h)); [reflexivity|].
  destruct (PrimFloat.ltb 0 (edepHit h)); [|reflexivity].
  destruct (_ || _); [|reflexivity].
  destruct (_ =? 0); cbn [snd]; destruct which;
    cbn [gen fGenVEdepStrand1Backbone fGenVEdepStrand2Backbone
         fGenVEdepStrand1Base fGenVEdepStrand2Base];
    try reflexivity; apply add_edep_split_zero; lia.
Qed.

Lemma split_copies_above_zero_unread_witness :
  1 < 2 /\ 3 < splitTrackID (mkHit true (20 * eV)%float 5 0 4)
  /\ fGenVEdepStrand1Backbone
       (snd (ProcessHits_maps 2 (mkHit true (20 * eV)%float 5 0 4) EdepMaps_empty))
     = [(0, [(1, [(5, (0 + 20 * eV)%float)])])]
  /\ RecordSimpleDamage (17.5 * eV)%float
       (StdMap.get [] 0
          (gen Strand1Backbone
             (snd (ProcessHits_maps 2 (mkHit true (20 * eV)%float 5 0 4)
                     EdepMaps_empty))))
     = RecordSimpleDamage (17.5 * eV)%float
         (StdMap.get [] 0 (gen Strand1Backbone EdepMaps_empty)).
Proof.
  refine (conj eq_refl (conj eq_refl (conj eq_refl _))).
  exact (split_copies_above_zero_unread 2 (mkHit true (20 * eV)%float 5 0 4)
           EdepMaps_empty Strand1Backbone 0 (17.5 * eV)%float eq_refl eq_refl).
Defined.
